(** * Identity resolution in osint-eye: a shallow embedding

    The development follows three source files:
    - [src/analysis/cross_platform_analyzer.py]  (class CrossPlatformAnalyzer),
    - [src/analysis/cross_platform_correlator.py] (class CrossPlatformCorrelator),
    - [src/search/advanced_discovery.py]          (class AdvancedDiscovery),
    and the parts of the Python runtime they call: [re], [str] methods,
    [hashlib.md5] and [difflib.SequenceMatcher].

    Conventions of the embedding.
    - A Python [str] is a Rocq [string]; a character is a code point in
      U+0000..U+00FF (Latin-1), on which [str.lower], [\d], [\w], [\s] and
      [str.split] are closed and are written out below from Python's tables.
    - A Python [float] is a rational number ([Q]); comparisons are exact.
    - A [datetime] is an integer count of microseconds ([Z]); the difference
      of two datetimes is the difference of the counts.
    - A dict whose iteration order matters is an association list in
      insertion order; a dict read by key only is a [gmap]; a set is a
      [gset].
    - A function that can raise returns a [result].

    The first part defines the programs, module by module; the second
    part states and proves their properties. *)

From Stdlib Require Import ZArith QArith Qabs Qminmax Qround Ascii List Lia Bool.
From Stdlib Require String.
From stdpp Require Import base option list gmap strings sorting pretty.

Close Scope Q_scope.

(** ** Python text primitives on Latin-1 code points *)
Module Text.

Definition code (c : ascii) : N := N_of_ascii c.

Definition between (lo hi : N) (c : ascii) : bool :=
  ((lo <=? code c) && (code c <=? hi))%N.

Definition is_code (n : N) (c : ascii) : bool := (code c =? n)%N.

(** [\d] of the [re] module on a [str] pattern: Unicode category Nd. *)
Definition is_digit (c : ascii) : bool := between 48 57 c.

(** [\s] of the [re] module, and the separators of [str.split()]. *)
Definition is_space (c : ascii) : bool :=
  between 9 13 c || between 28 32 c || is_code 133 c || is_code 160 c.

(** [\w] of the [re] module: alphanumeric code points and the underscore. *)
Definition is_word (c : ascii) : bool :=
  between 48 57 c || between 65 90 c || between 97 122 c || is_code 95 c
  || is_code 170 c || between 178 179 c || is_code 181 c || between 185 186 c
  || between 188 190 c || between 192 214 c || between 216 246 c
  || between 248 255 c.

(** [str.lower] on one code point. *)
Definition lower_char (c : ascii) : ascii :=
  if between 65 90 c || between 192 214 c || between 216 222 c
  then ascii_of_N (code c + 32) else c.

Fixpoint str_map (f : ascii -> ascii) (s : string) : string :=
  match s with
  | EmptyString => EmptyString
  | String c s' => String (f c) (str_map f s')
  end.

Fixpoint str_filter (p : ascii -> bool) (s : string) : string :=
  match s with
  | EmptyString => EmptyString
  | String c s' => if p c then String c (str_filter p s') else str_filter p s'
  end.

Fixpoint str_forallb (p : ascii -> bool) (s : string) : bool :=
  match s with
  | EmptyString => true
  | String c s' => p c && str_forallb p s'
  end.

(** [s.lower()] *)
Definition lower (s : string) : string := str_map lower_char s.

(** Truth value of a string: [not s] holds for the empty string only. *)
Definition truthy (s : string) : bool :=
  match s with EmptyString => false | _ => true end.

(** [s.replace(a, b)] for one-character [a] and [b]. *)
Definition replace_char (a b : ascii) (s : string) : string :=
  str_map (fun c => if Ascii.eqb c a then b else c) s.

(** [c in s] for a one-character [c]. *)
Fixpoint contains_char (a : ascii) (s : string) : bool :=
  match s with
  | EmptyString => false
  | String c s' => Ascii.eqb c a || contains_char a s'
  end.

(** [s.split()]: the maximal runs of non-whitespace characters. *)
Fixpoint split (s : string) : list string :=
  match s with
  | EmptyString => []
  | String c s' =>
      if is_space c then split s'
      else match s' with
           | EmptyString => [String c EmptyString]
           | String d _ =>
               if is_space d then String c EmptyString :: split s'
               else match split s' with
                    | w :: ws => String c w :: ws
                    | [] => [String c EmptyString]
                    end
           end
  end.

(** [sep.join(ws)] *)
Fixpoint join (sep : string) (ws : list string) : string :=
  match ws with
  | [] => EmptyString
  | [w] => w
  | w :: ws' => w +:+ sep +:+ join sep ws'
  end.

(** *** The three regular-expression substitutions of the normalisers *)

(** [re.sub(r'[._-]', '', s)] *)
Definition is_separator (c : ascii) : bool :=
  is_code 46 c || is_code 95 c || is_code 45 c.

Definition not_separator (c : ascii) : bool := negb (is_separator c).

Definition sub_separators (s : string) : string := str_filter not_separator s.

(** [re.sub(r'[^\w\s]', '', s)] *)
Definition word_or_space (c : ascii) : bool := is_word c || is_space c.

Definition sub_non_word_space (s : string) : string := str_filter word_or_space s.

(** [re.sub(r'\d+$', '', s)].  In Python [$] matches at the end of the
    string and also just before a newline that is the last character.
    [skip_digits] is the greedy [\d+]; a shorter run leaves a digit in
    front of [$], so backtracking never succeeds where the greedy run
    fails. *)
Fixpoint skip_digits (s : string) : string :=
  match s with
  | EmptyString => EmptyString
  | String c s' => if is_digit c then skip_digits s' else s
  end.

Definition at_dollar (s : string) : bool :=
  match s with
  | EmptyString => true
  | String c EmptyString => is_code 10 c
  | _ => false
  end.

(** The text left after a match of [\d+$] at the start of [s], if any. *)
Definition match_digits_dollar (s : string) : option string :=
  match s with
  | EmptyString => None
  | String c s' =>
      if is_digit c
      then let r := skip_digits s' in if at_dollar r then Some r else None
      else None
  end.

(** The scan of [re.sub]: at a match the matched text is dropped and the
    scan resumes after it, where only the empty string or a lone newline
    is left, so nothing more can match. *)
Fixpoint sub_digits_dollar (s : string) : string :=
  match s with
  | EmptyString => EmptyString
  | String c s' =>
      match match_digits_dollar s with
      | Some r => r
      | None => String c (sub_digits_dollar s')
      end
  end.

End Text.

(** ** Results of code that can raise *)
Inductive exn : Type :=
  | NameError (name : string)
  | KeyError (key : string)
  | AttributeError
  | OSError.

Inductive result (A : Type) : Type :=
  | Ok (a : A)
  | Raise (e : exn).
Arguments Ok {A} a.
Arguments Raise {A} e.

(** The value returned, if any. *)
Definition result_value {A : Type} (r : result A) : option A :=
  match r with
  | Ok a => Some a
  | Raise _ => None
  end.

(** ** cross_platform_analyzer.py: the normalisers *)
Module Normalizer.
Import Text.

(** [CrossPlatformAnalyzer._normalize_username] *)
Definition _normalize_username (username : string) : string :=
  if negb (truthy username) then ""
  else
    let normalized := lower username in
    let normalized := sub_separators normalized in
    let normalized := sub_digits_dollar normalized in
    normalized.

(** [CrossPlatformAnalyzer._normalize_name] *)
Definition _normalize_name (name : string) : string :=
  if negb (truthy name) then ""
  else
    let normalized := lower name in
    let normalized := sub_non_word_space normalized in
    let normalized := join " " (split normalized) in
    normalized.

End Normalizer.

(** ** The Python runtime: [hashlib.md5], [str.encode] and [str] of a tuple *)
Module Hashlib.
Import Text.

Local Open Scope N_scope.

(** [s.encode()]: UTF-8, one byte below U+0080 and two bytes above. *)
Fixpoint encode (s : string) : list N :=
  match s with
  | EmptyString => []
  | String c s' =>
      let n := code c in
      if n <? 128 then n :: encode s'
      else N.lor 192 (N.shiftr n 6) :: N.lor 128 (N.land n 63) :: encode s'
  end.

Definition mask32 : N := 4294967295.
Definition add32 (x y : N) : N := N.land (x + y) mask32.
Definition not32 (x : N) : N := N.lxor x mask32.
Definition rotl32 (x : N) (r : N) : N :=
  N.lor (N.land (N.shiftl x r) mask32) (N.shiftr x (32 - r)).

(** The table of RFC 1321: [floor(2^32 * abs(sin(i + 1)))]. *)
Definition sine_table : list N :=
  [3614090360; 3905402710; 606105819; 3250441966;
   4118548399; 1200080426; 2821735955; 4249261313;
   1770035416; 2336552879; 4294925233; 2304563134;
   1804603682; 4254626195; 2792965006; 1236535329;
   4129170786; 3225465664; 643717713; 3921069994;
   3593408605; 38016083; 3634488961; 3889429448;
   568446438; 3275163606; 4107603335; 1163531501;
   2850285829; 4243563512; 1735328473; 2368359562;
   4294588738; 2272392833; 1839030562; 4259657740;
   2763975236; 1272893353; 4139469664; 3200236656;
   681279174; 3936430074; 3572445317; 76029189;
   3654602809; 3873151461; 530742520; 3299628645;
   4096336452; 1126891415; 2878612391; 4237533241;
   1700485571; 2399980690; 4293915773; 2240044497;
   1873313359; 4264355552; 2734768916; 1309151649;
   4149444226; 3174756917; 718787259; 3951481745].

Definition shift_table : list N :=
  [7; 12; 17; 22; 7; 12; 17; 22; 7; 12; 17; 22; 7; 12; 17; 22;
   5; 9; 14; 20; 5; 9; 14; 20; 5; 9; 14; 20; 5; 9; 14; 20;
   4; 11; 16; 23; 4; 11; 16; 23; 4; 11; 16; 23; 4; 11; 16; 23;
   6; 10; 15; 21; 6; 10; 15; 21; 6; 10; 15; 21; 6; 10; 15; 21].

(** Little-endian words of a byte list. *)
Fixpoint words (bytes : list N) : list N :=
  match bytes with
  | b0 :: b1 :: b2 :: b3 :: rest =>
      (b0 + N.shiftl b1 8 + N.shiftl b2 16 + N.shiftl b3 24) :: words rest
  | _ => []
  end.

Definition word_bytes (w : N) : list N :=
  [N.land w 255; N.land (N.shiftr w 8) 255; N.land (N.shiftr w 16) 255;
   N.land (N.shiftr w 24) 255].

(** The padded message: a [0x80] byte, zero bytes up to 56 modulo 64, and
    the bit length as 64 little-endian bits. *)
Definition padding (len : N) : list N :=
  let zeros := (55 + 64 - len mod 64) mod 64 in
  let bits := len * 8 in
  128 :: repeat 0 (N.to_nat zeros)
  ++ word_bytes (N.land bits mask32) ++ word_bytes (N.land (N.shiftr bits 32) mask32).

Definition state := (N * N * N * N)%type.

(** One of the 64 operations on a block [m] of sixteen words. *)
Definition operation (m : list N) (st : state) (i : N) : state :=
  let '(a, b, c, d) := st in
  let '(f, g) :=
    if i <? 16 then (N.lor (N.land b c) (N.land (not32 b) d), i)
    else if i <? 32 then (N.lor (N.land d b) (N.land (not32 d) c), (5 * i + 1) mod 16)
    else if i <? 48 then (N.lxor (N.lxor b c) d, (3 * i + 5) mod 16)
    else (N.lxor c (N.lor b (not32 d)), (7 * i) mod 16) in
  let f :=
    add32 (add32 (add32 f a) (nth (N.to_nat i) sine_table 0)) (nth (N.to_nat g) m 0) in
  (d, add32 b (rotl32 f (nth (N.to_nat i) shift_table 0)), b, c).

Definition block (st : state) (m : list N) : state :=
  let '(a, b, c, d) := st in
  let '(a', b', c', d') := fold_left (operation m) (map N.of_nat (seq 0 64)) st in
  (add32 a a', add32 b b', add32 c c', add32 d d').

(** The blocks of sixteen words, in order. *)
Fixpoint blocks (st : state) (ws : list N) : state :=
  match ws with
  | w0 :: w1 :: w2 :: w3 :: w4 :: w5 :: w6 :: w7
    :: w8 :: w9 :: w10 :: w11 :: w12 :: w13 :: w14 :: w15 :: rest =>
      blocks
        (block st [w0; w1; w2; w3; w4; w5; w6; w7; w8; w9; w10; w11; w12; w13; w14; w15])
        rest
  | _ => st
  end.

Definition hex_digit (n : N) : ascii :=
  ascii_of_N (if n <? 10 then 48 + n else 87 + n).

Fixpoint hex (bytes : list N) : string :=
  match bytes with
  | [] => EmptyString
  | b :: rest => String (hex_digit (N.shiftr b 4)) (String (hex_digit (N.land b 15)) (hex rest))
  end.

(** [hashlib.md5(data).hexdigest()] on bytes. *)
Definition md5_bytes (data : list N) : string :=
  let padded := data ++ padding (N.of_nat (length data)) in
  let ws := words padded in
  let '(a, b, c, d) :=
    blocks (1732584193, 4023233417, 2562383102, 271733878) ws in
  hex (word_bytes a ++ word_bytes b ++ word_bytes c ++ word_bytes d).

(** [hashlib.md5(s.encode()).hexdigest()] *)
Definition md5_hexdigest (s : string) : string := md5_bytes (encode s).

(** [repr] of a string: single quotes unless the text holds a single
    quote and no double quote; backslash, the quote in use, tab, newline
    and carriage return get an escape, other unprintable code points
    [\xNN]. *)
Definition printable (c : ascii) : bool :=
  between 32 126 c || (between 161 255 c && negb (is_code 173 c)).

Definition repr_char (quote : ascii) (c : ascii) : string :=
  if is_code 92 c then "\\"
  else if Ascii.eqb c quote then String "\"%char (String c EmptyString)
  else if is_code 9 c then "\t"
  else if is_code 10 c then "\n"
  else if is_code 13 c then "\r"
  else if printable c then String c EmptyString
  else "\x" +:+ hex [code c].

Fixpoint repr_body (quote : ascii) (s : string) : string :=
  match s with
  | EmptyString => EmptyString
  | String c s' => repr_char quote c +:+ repr_body quote s'
  end.

Definition double_quote : ascii := ascii_of_N 34.

Definition repr (s : string) : string :=
  let quote :=
    if contains_char "'"%char s && negb (contains_char double_quote s)
    then double_quote else "'"%char in
  String quote (repr_body quote s) +:+ String quote EmptyString.

(** [str(t)] of a tuple of strings. *)
Definition str_of_tuple (t : list string) : string :=
  match t with
  | [x] => "(" +:+ repr x +:+ ",)"
  | _ => "(" +:+ join ", " (map repr t) +:+ ")"
  end.

End Hashlib.

(** ** cross_platform_analyzer.py: records, blocking and consolidation *)
Module Analyzer.
Import Text Normalizer Hashlib.

(** [a or b] on values read with [dict.get]: an absent key and the empty
    string are both falsy. *)
Definition get_or (a : option string) (b : string) : string :=
  match a with
  | Some s => if truthy s then s else b
  | None => b
  end.

(** The [profile] dict of one record; [None] is an absent key. *)
Record profile := {
  username : option string;
  display_name : option string;
  full_name : option string;
  biography : option string;
  description : option string
}.

(** What [post.get('date')] and [datetime.fromisoformat] make of a post:
    no (or an empty) date string, a string that does not parse, or a
    datetime.  A datetime is its position on one clock, in microseconds:
    the datetimes of one batch are taken to be all naive or all aware.
    Subtracting a naive from an aware datetime raises [TypeError]; in the
    module as it is written no subtraction is reached, the unbound name
    [timedelta] being read before it. *)
Inductive post_date : Type :=
  | NoDate
  | BadDate
  | DateAt (t : Z).

Record post := {
  caption : option string;
  content : option string;
  date : post_date
}.

(** One element of [profiles_data]. *)
Record profile_data := {
  platform : option string;
  profile_of : option profile;
  posts : option (list post)
}.

Definition empty_profile : profile :=
  {| username := None; display_name := None; full_name := None;
     biography := None; description := None |}.

Inductive match_type : Type := MUsername | MDisplayName | MBiography.

(** One entry of [matches]. *)
Record match_entry := {
  m_type : match_type;
  m_confidence : Q;
  m_profiles : list (string * profile_data);
  m_identifier : string
}.

(** One entry of [cross_platform_users]. *)
Record user_entry := {
  user_id : string;
  u_platforms : list string;
  u_profiles : list (string * profile_data);
  match_confidence : Q;
  u_match_type : match_type
}.

Record accounts_result := {
  total_matches : nat;
  matches : list match_entry;
  cross_platform_users : list user_entry
}.

(** A [defaultdict(list)] keeps its keys in insertion order.
    [groups[key].append(v)] *)
Fixpoint group_append {V : Type} (key : string) (v : V)
    (groups : list (string * list V)) : list (string * list V) :=
  match groups with
  | [] => [(key, [v])]
  | (k, vs) :: rest =>
      if String.eqb k key then (k, vs ++ [v]) :: rest
      else (k, vs) :: group_append key v rest
  end.

(** [re.sub(r'http\S+|@\w+|#\w+', '', s)]: the text left after a match of
    one of the three alternatives at the start of [s]. *)
Fixpoint skip_while (p : ascii -> bool) (s : string) : string :=
  match s with
  | EmptyString => EmptyString
  | String c s' => if p c then skip_while p s' else s
  end.

Definition non_space (c : ascii) : bool := negb (is_space c).

(** [http\S+] *)
Definition match_http (s : string) : option string :=
  match s with
  | String c1 (String c2 (String c3 (String c4 (String c r)))) =>
      if Ascii.eqb c1 "h" && Ascii.eqb c2 "t" && Ascii.eqb c3 "t" && Ascii.eqb c4 "p"
         && non_space c
      then Some (skip_while non_space r) else None
  | _ => None
  end.

(** [@\w+] and [#\w+] *)
Definition match_sigil (sigil : ascii) (s : string) : option string :=
  match s with
  | String c1 (String c r) =>
      if Ascii.eqb c1 sigil && is_word c then Some (skip_while is_word r) else None
  | _ => None
  end.

(** The alternatives are tried from left to right. *)
Definition match_token (s : string) : option string :=
  match match_http s with
  | Some r => Some r
  | None =>
      match match_sigil "@" s with
      | Some r => Some r
      | None => match_sigil "#" s
      end
  end.

Fixpoint sub_tokens_from (fuel : nat) (s : string) : string :=
  match fuel with
  | O => s
  | S fuel' =>
      match s with
      | EmptyString => EmptyString
      | String c s' =>
          match match_token s with
          | Some r => sub_tokens_from fuel' r
          | None => String c (sub_tokens_from fuel' s')
          end
      end
  end.

(** Every step consumes a character, so [length s] steps finish the scan
    ([sub_tokens_fuel] below). *)
Definition sub_tokens (s : string) : string :=
  sub_tokens_from (String.length s) s.

(** [sorted] on strings: code-point lexicographic order. *)
Definition str_le (a b : string) : Prop := String.leb a b = true.
#[global] Instance str_le_dec (a b : string) : Decision (str_le a b).
Proof. unfold str_le. apply _. Defined.

Definition sorted (l : list string) : list string := merge_sort str_le l.

(** [CrossPlatformAnalyzer._get_bio_hash] *)
Definition _get_bio_hash (bio : string) : string :=
  let cleaned_bio := sub_tokens (lower bio) in
  let cleaned_bio := sub_non_word_space cleaned_bio in
  let cleaned_bio := join " " (split cleaned_bio) in
  String.substring 0 8 (md5_hexdigest cleaned_bio).

(** [f"{p[0]}:{p[1]['profile']['username']}"]; both subscripts raise
    [KeyError] on an absent key. *)
Definition member_key (p : string * profile_data) : result string :=
  match profile_of (snd p) with
  | None => Raise (KeyError "profile")
  | Some pr =>
      match username pr with
      | None => Raise (KeyError "username")
      | Some u => Ok (fst p +:+ ":" +:+ u)
      end
  end.

Fixpoint member_keys (ps : list (string * profile_data)) : result (list string) :=
  match ps with
  | [] => Ok []
  | p :: ps' =>
      match member_key p with
      | Raise e => Raise e
      | Ok k =>
          match member_keys ps' with
          | Raise e => Raise e
          | Ok ks => Ok (k :: ks)
          end
      end
  end.

(** [profile_key] of one match. *)
Definition profile_key (m : match_entry) : result (list string) :=
  match member_keys (m_profiles m) with
  | Raise e => Raise e
  | Ok ks => Ok (sorted ks)
  end.

(** The loop of [_consolidate_matches], with its two accumulators
    [consolidated] and [processed_profiles]. *)
Fixpoint consolidate_loop (ms : list match_entry)
    (consolidated : list user_entry) (processed_profiles : gset (list string))
    : result (list user_entry) :=
  match ms with
  | [] => Ok consolidated
  | m :: ms' =>
      match profile_key m with
      | Raise e => Raise e
      | Ok key =>
          if decide (key ∈ processed_profiles)
          then consolidate_loop ms' consolidated processed_profiles
          else
            consolidate_loop ms'
              (consolidated ++
                 [{| user_id := String.substring 0 8 (md5_hexdigest (str_of_tuple key));
                     u_platforms := map fst (m_profiles m);
                     u_profiles := m_profiles m;
                     match_confidence := m_confidence m;
                     u_match_type := m_type m |}])
              ({[ key ]} ∪ processed_profiles)
      end
  end.

(** [CrossPlatformAnalyzer._consolidate_matches] *)
Definition _consolidate_matches (ms : list match_entry) : result (list user_entry) :=
  consolidate_loop ms [] ∅.

(** The three group dicts built by the first loop of
    [find_cross_platform_accounts]. *)
Record groups := {
  username_groups : list (string * list (string * profile_data));
  name_groups : list (string * list (string * profile_data));
  bio_groups : list (string * list (string * profile_data))
}.

Definition group_step (g : groups) (pd : profile_data) : groups :=
  let platform := default "" (platform pd) in
  let profile := default empty_profile (profile_of pd) in
  let username := lower (default "" (username profile)) in
  let display_name :=
    lower (get_or (display_name profile) (get_or (full_name profile) "")) in
  let bio := lower (get_or (biography profile) (get_or (description profile) "")) in
  let username_key := _normalize_username username in
  let ug :=
    if truthy username_key
    then group_append username_key (platform, pd) (username_groups g)
    else username_groups g in
  let ng :=
    if truthy display_name
    then group_append (_normalize_name display_name) (platform, pd) (name_groups g)
    else name_groups g in
  let bg :=
    if truthy bio && (20 <? String.length bio)%nat
    then group_append (_get_bio_hash bio) (platform, pd) (bio_groups g)
    else bio_groups g in
  {| username_groups := ug; name_groups := ng; bio_groups := bg |}.

Definition build_groups (profiles_data : list profile_data) : groups :=
  fold_left group_step profiles_data
    {| username_groups := []; name_groups := []; bio_groups := [] |}.

(** One of the three "Find matches" loops. *)
Definition group_matches (t : match_type) (conf : Q)
    (gs : list (string * list (string * profile_data))) : list match_entry :=
  flat_map
    (fun kv =>
       if (1 <? length (snd kv))%nat
       then [{| m_type := t; m_confidence := conf;
                m_profiles := snd kv; m_identifier := fst kv |}]
       else [])
    gs.

Definition find_matches (profiles_data : list profile_data) : list match_entry :=
  let g := build_groups profiles_data in
  group_matches MUsername (9 # 10) (username_groups g)
  ++ group_matches MDisplayName (7 # 10) (name_groups g)
  ++ group_matches MBiography (8 # 10) (bio_groups g).

(** [CrossPlatformAnalyzer.find_cross_platform_accounts] *)
Definition find_cross_platform_accounts (profiles_data : list profile_data)
    : result accounts_result :=
  let matches := find_matches profiles_data in
  match _consolidate_matches matches with
  | Raise e => Raise e
  | Ok users =>
      Ok {| total_matches := length matches;
            matches := matches;
            cross_platform_users := users |}
  end.

End Analyzer.

(** ** cross_platform_analyzer.py: signals and the confidence score *)
Module Signals.
Import Text Analyzer.

(** The names the module body reads from its global namespace.  The file
    imports [datetime] only ([from datetime import datetime]); the name
    [timedelta], read by [_calculate_timing_correlation] and
    [_find_synchronized_posts], is bound nowhere in it.  [None] is the
    unbound name; [Some f] binds it to a constructor of durations from a
    number of hours. *)
Record globals := { g_timedelta : option (Z -> Z) }.

(** The module as it is written. *)
Definition module_globals : globals := {| g_timedelta := None |}.

(** [datetime.timedelta(hours=h)], in microseconds. *)
Definition datetime_timedelta (hours : Z) : Z := hours * 3600000000.

(** The module with the standard library's [timedelta] bound, as its
    sibling modules import it. *)
Definition with_timedelta : globals := {| g_timedelta := Some datetime_timedelta |}.

Definition Qleb (a b : Q) : bool := Qle_bool a b.
Definition Qltb (a b : Q) : bool := negb (Qle_bool b a).

(** [max(a, b, c)] and [np.mean] *)
Definition max3 (a b c : Q) : Q := Qmax (Qmax a b) c.

Definition Qsum (l : list Q) : Q := fold_right Qplus 0%Q l.

Definition mean (l : list Q) : Q := (Qsum l / inject_Z (Z.of_nat (length l)))%Q.

(** The feature dict of one profile is a [gmap string Q]: its numeric
    entries by key.  [_extract_behavioral_features] returns either the
    empty dict or one that has the three keys read below.

    The three [if key in behavior1 and key in behavior2] blocks of
    [_calculate_behavioral_correlation], each giving what it appends to
    [correlations]. *)
Definition hour_correlation (behavior1 behavior2 : gmap string Q) : list Q :=
  match behavior1 !! "most_active_hour", behavior2 !! "most_active_hour" with
  | Some h1, Some h2 =>
      let hour_diff := Qabs (h1 - h2) in
      [(1 - hour_diff / 12)%Q]
  | _, _ => []
  end.

Definition day_correlation (behavior1 behavior2 : gmap string Q) : list Q :=
  match behavior1 !! "most_active_day", behavior2 !! "most_active_day" with
  | Some d1, Some d2 =>
      let day_diff := Qabs (d1 - d2) in
      [Qmax 0 (1 - day_diff / (7 # 2))%Q]
  | _, _ => []
  end.

Definition length_correlation (behavior1 behavior2 : gmap string Q) : list Q :=
  match behavior1 !! "avg_content_length", behavior2 !! "avg_content_length" with
  | Some len1, Some len2 =>
      let max_len := max3 len1 len2 1 in
      [(1 - Qabs (len1 - len2) / max_len)%Q]
  | _, _ => []
  end.

(** [CrossPlatformAnalyzer._calculate_behavioral_correlation] *)
Definition _calculate_behavioral_correlation (behavior1 behavior2 : gmap string Q) : Q :=
  if bool_decide (behavior1 = ∅) || bool_decide (behavior2 = ∅) then 0%Q
  else
    let correlations :=
      hour_correlation behavior1 behavior2
      ++ day_correlation behavior1 behavior2
      ++ length_correlation behavior1 behavior2 in
    match correlations with
    | [] => 0%Q
    | _ => mean correlations
    end.

(** [abs(t1 - t2) <= time_window], for two datetimes of one clock *)
Definition within (time_window t1 t2 : Z) : bool := (Z.abs (t1 - t2) <=? time_window)%Z.

(** The inner [for t2 in times2] loop: the first [t2] in the window adds
    one to the count and leaves the loop ([break]). *)
Fixpoint scan_times2 (time_window t1 : Z) (times2 : list Z) (synchronized_count : nat) : nat :=
  match times2 with
  | [] => synchronized_count
  | t2 :: rest =>
      if within time_window t1 t2 then S synchronized_count
      else scan_times2 time_window t1 rest synchronized_count
  end.

(** The outer [for t1 in times1] loop. *)
Fixpoint scan_times1 (time_window : Z) (times1 times2 : list Z) (synchronized_count : nat) : nat :=
  match times1 with
  | [] => synchronized_count
  | t1 :: rest =>
      scan_times1 time_window rest times2 (scan_times2 time_window t1 times2 synchronized_count)
  end.

(** [CrossPlatformAnalyzer._calculate_timing_correlation] *)
Definition _calculate_timing_correlation (g : globals) (times1 times2 : list Z) : result Q :=
  match times1, times2 with
  | [], _ | _, [] => Ok 0%Q
  | _, _ =>
      match g_timedelta g with
      | None => Raise (NameError "timedelta")
      | Some timedelta =>
          let time_window := timedelta 2%Z in
          let synchronized_count := scan_times1 time_window times1 times2 0 in
          let max_possible := Nat.min (length times1) (length times2) in
          Ok (if (0 <? max_possible)%nat
              then (inject_Z (Z.of_nat synchronized_count) / inject_Z (Z.of_nat max_possible))%Q
              else 0%Q)
      end
  end.

(** One entry of the list built by [_find_synchronized_posts]. *)
Record synchronized_post := {
  time1 : Z;
  time2 : Z;
  time_diff_minutes : Q;
  post1_index : nat;
  post2_index : nat
}.

Fixpoint sync_row (time_window : Z) (i : nat) (t1 : Z) (j : nat) (times2 : list Z)
    : list synchronized_post :=
  match times2 with
  | [] => []
  | t2 :: rest =>
      (if within time_window t1 t2
       then [{| time1 := t1; time2 := t2;
                time_diff_minutes := (inject_Z (Z.abs (t1 - t2)) / 60000000)%Q;
                post1_index := i; post2_index := j |}]
       else [])
      ++ sync_row time_window i t1 (S j) rest
  end.

Fixpoint sync_rows (time_window : Z) (i : nat) (times1 times2 : list Z)
    : list synchronized_post :=
  match times1 with
  | [] => []
  | t1 :: rest => sync_row time_window i t1 0 times2 ++ sync_rows time_window (S i) rest times2
  end.

(** [CrossPlatformAnalyzer._find_synchronized_posts] *)
Definition _find_synchronized_posts (g : globals) (times1 times2 : list Z)
    : result (list synchronized_post) :=
  match g_timedelta g with
  | None => Raise (NameError "timedelta")
  | Some timedelta => Ok (sync_rows (timedelta 2%Z) 0 times1 times2)
  end.

(** The [post_times] of one record: posts without a date string and posts
    whose date string does not parse ([except: continue]) are skipped. *)
Fixpoint post_times (ps : list post) : list Z :=
  match ps with
  | [] => []
  | p :: rest =>
      match date p with
      | DateAt dt => dt :: post_times rest
      | NoDate | BadDate => post_times rest
      end
  end.

(** [d[key] = v] on a dict that keeps insertion order. *)
Fixpoint dict_set {V : Type} (key : string) (v : V) (d : list (string * V)) : list (string * V) :=
  match d with
  | [] => [(key, v)]
  | (k, w) :: rest =>
      if String.eqb k key then (k, v) :: rest else (k, w) :: dict_set key v rest
  end.

(** The first loop of [analyze_timing_correlation]: [platform_timings],
    which has an entry only for a platform with at least one post time. *)
Definition timing_step (platform_timings : list (string * list Z)) (pd : profile_data)
    : list (string * list Z) :=
  let platform := default "" (platform pd) in
  let posts := default [] (posts pd) in
  match post_times posts with
  | [] => platform_timings
  | times => dict_set platform times platform_timings
  end.

Definition build_platform_timings (profiles_data : list profile_data) : list (string * list Z) :=
  fold_left timing_step profiles_data [].

Record timing_entry := {
  platform1 : string;
  platform2 : string;
  timing_correlation : Q;
  synchronized_posts : list synchronized_post
}.

Record timing_result := {
  timing_correlations : list timing_entry;
  total_timing_matches : nat
}.

(** The inner loop [for j in range(i + 1, len(platforms))]. *)
Fixpoint timing_row (g : globals) (p1 : string * list Z) (later : list (string * list Z))
    (acc : list timing_entry) : result (list timing_entry) :=
  match later with
  | [] => Ok acc
  | p2 :: rest =>
      match _calculate_timing_correlation g (snd p1) (snd p2) with
      | Raise e => Raise e
      | Ok correlation =>
          if Qltb (1 # 2) correlation
          then match _find_synchronized_posts g (snd p1) (snd p2) with
               | Raise e => Raise e
               | Ok sync =>
                   timing_row g p1 rest
                     (acc ++ [{| platform1 := fst p1; platform2 := fst p2;
                                 timing_correlation := correlation;
                                 synchronized_posts := sync |}])
               end
          else timing_row g p1 rest acc
      end
  end.

(** The outer loop [for i in range(len(platforms))]. *)
Fixpoint timing_rows (g : globals) (platforms : list (string * list Z))
    (acc : list timing_entry) : result (list timing_entry) :=
  match platforms with
  | [] => Ok acc
  | p1 :: later =>
      match timing_row g p1 later acc with
      | Raise e => Raise e
      | Ok acc' => timing_rows g later acc'
      end
  end.

(** [CrossPlatformAnalyzer.analyze_timing_correlation] *)
Definition analyze_timing_correlation (g : globals) (profiles_data : list profile_data)
    : result timing_result :=
  match timing_rows g (build_platform_timings profiles_data) [] with
  | Raise e => Raise e
  | Ok entries =>
      Ok {| timing_correlations := entries; total_timing_matches := length entries |}
  end.

(** The results of the other three analyses, as far as the confidence
    score reads them. *)
Record style_match := {
  s_profile1 : string;
  s_profile2 : string;
  similarity_score : Q
}.

Record behavior_match := {
  b_profile1 : string;
  b_profile2 : string;
  correlation_score : Q
}.

Record cross_post := {
  content_hash : string;
  cp_platforms : list string
}.

(** The [all_analyses] dict: [None] is an absent key; each value is the
    list its analysis stores under the key the score reads
    ([matches], [style_matches], [behavioral_correlations],
    [cross_posted_content], [timing_correlations]).  [timing_analysis] is
    the key [timing_correlation]. *)
Record all_analyses := {
  cross_platform_matches : option (list match_entry);
  writing_style : option (list style_match);
  behavioral_correlation : option (list behavior_match);
  content_overlap : option (list cross_post);
  timing_analysis : option (list timing_entry)
}.

Inductive likelihood : Type := VeryHigh | High | Medium | Low | VeryLow.

(** [CrossPlatformAnalyzer._get_likelihood_label] *)
Definition _get_likelihood_label (confidence_score : Q) : likelihood :=
  if Qleb (8 # 10) confidence_score then VeryHigh
  else if Qleb (6 # 10) confidence_score then High
  else if Qleb (4 # 10) confidence_score then Medium
  else if Qleb (2 # 10) confidence_score then Low
  else VeryLow.

Record confidence_result := {
  overall_confidence : Q;
  confidence_factors : list (string * Q);
  identity_likelihood : likelihood;
  matching_indicators : nat
}.

Definition is_username_match (m : match_entry) : bool :=
  match m_type m with MUsername => true | _ => false end.

(** One of the five [if key in all_analyses: ... if count > 0: append]
    blocks. *)
Definition factor_if {A : Type} (entry : option (list A)) (name : string) (weight : Q)
    : list (string * Q) :=
  match entry with
  | Some l => if (0 <? length l)%nat then [(name, weight)] else []
  | None => []
  end.

Definition collect_factors (a : all_analyses) : list (string * Q) :=
  factor_if (filter (fun m => is_username_match m = true) <$> cross_platform_matches a)
    "username_match" (9 # 10)
  ++ factor_if (writing_style a) "writing_style" (8 # 10)
  ++ factor_if (behavioral_correlation a) "behavioral_pattern" (7 # 10)
  ++ factor_if (content_overlap a) "content_overlap" (85 # 100)
  ++ factor_if (timing_analysis a) "timing_pattern" (6 # 10).

(** [CrossPlatformAnalyzer.generate_identity_confidence_score] *)
Definition generate_identity_confidence_score (a : all_analyses) : confidence_result :=
  let confidence_factors := collect_factors a in
  let confidence_score :=
    match confidence_factors with
    | [] => 0%Q
    | _ =>
        let total_weight := Qsum (map snd confidence_factors) in
        (total_weight / inject_Z (Z.of_nat (length confidence_factors)))%Q
    end in
  {| overall_confidence := confidence_score;
     confidence_factors := confidence_factors;
     identity_likelihood := _get_likelihood_label confidence_score;
     matching_indicators := length confidence_factors |}.

End Signals.

(** ** difflib.SequenceMatcher(None, a, b).ratio()

    The matcher of Python's standard library, as [difflib.py] defines it
    for [isjunk=None] and [autojunk=True]: the set [bjunk] is empty, and an
    element of [b] is "popular" (and left out of [b2j]) when [b] has at
    least 200 elements and more than [len(b) // 100 + 1] of them are that
    element. *)
Module Difflib.

Section Matcher.
Variables a b : list ascii.

Definition count_in_b (x : ascii) : nat :=
  length (filter (fun y => Ascii.eqb y x = true) b).

Definition popular (x : ascii) : bool :=
  (200 <=? length b)%nat && (length b / 100 + 1 <? count_in_b x)%nat.

(** The best match so far: [(besti, bestj, bestsize)]. *)
Definition best := (nat * nat * nat)%type.

Definition bestsize (m : best) : nat := snd m.

(** One pass of the inner loop [for j in b2j.get(a[i], nothing)] over
    the indices [j] of [b] in increasing order.  [old_before] is
    [j2len.get(j-1, 0)] and [old] holds [j2len] from index [j] on; the
    result is [newj2len] from index [j] on and the updated best match.
    Indices at or beyond [bhi] change nothing, which is the [break]. *)
Fixpoint row_step (blo bhi : nat) (x : ascii) (i j : nat) (bs : list ascii)
    (old_before : nat) (old : list nat) (m : best) : list nat * best :=
  match bs with
  | [] => ([], m)
  | y :: bs' =>
      let hit :=
        Ascii.eqb y x && negb (popular x) && (blo <=? j)%nat && (j <? bhi)%nat in
      let k := if hit then S old_before else 0 in
      let m' :=
        if hit && (bestsize m <? k)%nat then (S i - k, S j - k, k) else m in
      let '(row, m'') :=
        row_step blo bhi x i (S j) bs' (hd 0 old) (tl old) m' in
      (k :: row, m'')
  end.

(** The outer loop [for i in range(alo, ahi)] over the elements
    [a[alo:ahi]]. *)
Fixpoint rows (blo bhi : nat) (i : nat) (xs : list ascii) (j2len : list nat) (m : best) : best :=
  match xs with
  | [] => m
  | x :: xs' =>
      let '(newj2len, m') := row_step blo bhi x i 0 b 0 j2len m in
      rows blo bhi (S i) xs' newj2len m'
  end.

Definition nth_a (i : nat) : option ascii := a !! i.
Definition nth_b (j : nat) : option ascii := b !! j.

Definition same_elt (x y : option ascii) : bool :=
  match x, y with
  | Some c, Some d => Ascii.eqb c d
  | _, _ => false
  end.

(** The first [while] loop after the search: extend the match to the
    left.  Every turn lowers [besti], and the guard [besti > alo] fails
    at 0 at the latest. *)
Fixpoint extend_left (alo blo : nat) (besti bestj size : nat) {struct besti} : best :=
  match besti with
  | O => (besti, bestj, size)
  | S before =>
      if (alo <? besti)%nat && (blo <? bestj)%nat
         && same_elt (nth_a (besti - 1)) (nth_b (bestj - 1))
      then extend_left alo blo before (bestj - 1) (S size)
      else (besti, bestj, size)
  end.

(** The second [while] loop: extend the match to the right.  [room] is
    [ahi - (besti + size)], which the guard [besti + size < ahi] tests to
    be positive and every turn lowers by one. *)
Fixpoint extend_right (room : nat) (bhi : nat) (besti bestj size : nat) : best :=
  match room with
  | O => (besti, bestj, size)
  | S room' =>
      if (bestj + size <? bhi)%nat
         && same_elt (nth_a (besti + size)) (nth_b (bestj + size))
      then extend_right room' bhi besti bestj (S size)
      else (besti, bestj, size)
  end.

(** [SequenceMatcher.find_longest_match(alo, ahi, blo, bhi)].  The last
    two [while] loops of the source extend over junk only and never run,
    [bjunk] being empty. *)
Definition find_longest_match (alo ahi blo bhi : nat) : best :=
  let '(besti, bestj, size) :=
    rows blo bhi alo (take (ahi - alo) (drop alo a)) [] (alo, blo, 0) in
  let '(besti, bestj, size) := extend_left alo blo besti bestj size in
  extend_right (ahi - (besti + size)) bhi besti bestj size.

(** The [while queue] loop of [get_matching_blocks]: [queue.pop()] takes
    the range pushed last.  [fuel] bounds the number of ranges popped;
    [blocks_loop_fuel] below shows that [2 * len(a) + 2] is enough for the
    queue to run empty. *)
Fixpoint blocks_loop (fuel : nat) (queue : list (nat * nat * nat * nat))
    (matching_blocks : list best) : list best :=
  match fuel with
  | O => matching_blocks
  | S fuel' =>
      match queue with
      | [] => matching_blocks
      | (alo, ahi, blo, bhi) :: queue' =>
          let '(i, j, k) := find_longest_match alo ahi blo bhi in
          if (0 <? k)%nat
          then
            let q1 :=
              if (alo <? i)%nat && (blo <? j)%nat then (alo, i, blo, j) :: queue' else queue' in
            let q2 :=
              if (i + k <? ahi)%nat && (j + k <? bhi)%nat
              then (i + k, ahi, j + k, bhi) :: q1 else q1 in
            blocks_loop fuel' q2 (matching_blocks ++ [(i, j, k)])
          else blocks_loop fuel' queue' matching_blocks
      end
  end.

(** The blocks of [get_matching_blocks] before they are sorted and
    adjacent ones are merged; neither step changes the sum of the sizes. *)
Definition matching_blocks : list best :=
  blocks_loop (2 * length a + 2) [(0, length a, 0, length b)] [].

Definition matches : nat := foldr (fun m n => bestsize m + n) 0 matching_blocks.

(** [_calculate_ratio(matches, len(a) + len(b))] *)
Definition ratio_of_lists : Q :=
  let len := length a + length b in
  if (0 <? len)%nat
  then (2 * inject_Z (Z.of_nat matches) / inject_Z (Z.of_nat len))%Q
  else 1%Q.

End Matcher.

(** [SequenceMatcher(None, a, b).ratio()] on two strings. *)
Definition ratio (a b : string) : Q :=
  ratio_of_lists (String.list_ascii_of_string a) (String.list_ascii_of_string b).

End Difflib.

(** ** cross_platform_correlator.py *)
Module Correlator.
Import Text Signals.

(** [self.platforms] *)
Definition platforms : list string :=
  ["instagram"; "twitter"; "youtube"; "tiktok"; "linkedin"].

(** [f"{i}"] for an integer of [range(1, 100)]. *)
Definition str_of_nat (i : nat) : string := pretty i.

(** [range(lo, hi)] *)
Definition range (lo hi : nat) : list nat := seq lo (hi - lo).

(** [list(set(xs))]: the distinct elements, in the order the set yields
    them. *)
Definition list_of_set (xs : list string) : list string :=
  elements (list_to_set xs : gset string).

Definition suffixes : list string :=
  ["official"; "real"; "original"; "new"; "backup"; "2024"; "2023"].

(** The list [variations] of [_generate_username_variations] before the
    final [list(set(...))]. *)
Definition raw_variations (username : string) : list string :=
  flat_map
    (fun i =>
       [username +:+ str_of_nat i;
        username +:+ "_" +:+ str_of_nat i;
        username +:+ "." +:+ str_of_nat i;
        str_of_nat i +:+ username])
    (range 1 100)
  ++ flat_map
       (fun suffix =>
          [username +:+ "_" +:+ suffix;
           username +:+ "." +:+ suffix;
           username +:+ suffix])
       suffixes
  ++ [replace_char "_" "." username;
      replace_char "." "_" username;
      "_" +:+ username;
      username +:+ "_";
      "." +:+ username;
      username +:+ "."].

(** [CrossPlatformCorrelator._generate_username_variations] *)
Definition _generate_username_variations (username : string) : list string :=
  list_of_set (raw_variations username).

(** [CrossPlatformCorrelator._calculate_username_similarity] *)
Definition _calculate_username_similarity (username1 username2 : string) : Q :=
  Difflib.ratio (lower username1) (lower username2).

(** The pairs [(i, j)] with [i < j] of [_calculate_text_similarity]. *)
Fixpoint pair_similarities (texts : list string) : list Q :=
  match texts with
  | [] => []
  | t :: rest =>
      map (fun u => Difflib.ratio (lower t) (lower u)) rest ++ pair_similarities rest
  end.

(** [CrossPlatformCorrelator._calculate_text_similarity] *)
Definition _calculate_text_similarity (texts : list string) : Q :=
  if (length texts <? 2)%nat then 1%Q
  else
    let similarities := pair_similarities texts in
    match similarities with
    | [] => 0%Q
    | _ => (Qsum similarities / inject_Z (Z.of_nat (length similarities)))%Q
    end.

(** [CrossPlatformCorrelator._calculate_identity_confidence] *)
Definition _calculate_identity_confidence (common_elements discrepancies : list string)
    (platform_count : nat) : Z :=
  let base_score := 30%Z in
  let base_score := (base_score + Z.min 40 (Z.of_nat platform_count * 10))%Z in
  let base_score := (base_score + Z.of_nat (length common_elements) * 10)%Z in
  let base_score := (base_score - Z.of_nat (length discrepancies) * 15)%Z in
  Z.max 0 (Z.min 100 base_score).

(** The value stored under the key [profile] of a data file.  It is a
    dict, of which the analysis reads six fields by [get]: [fields] holds
    those that are texts, and a field that is [null] reads like an absent
    one (both are falsy).  Or it is a JSON value that is not a dict
    ([null], a list, a string, a number, [true], [false]), which has no
    [get]. *)
Inductive stored_profile : Type :=
  | ProfileDict (fields : gmap string string)
  | NotADict.

(** The JSON document of one data file when it is a dict: the value of
    its key [profile], [None] when the key is absent, and the number of
    its other keys. *)
Record platform_data := {
  pd_profile : option stored_profile;
  pd_other_keys : nat
}.

(** Truth value of the loaded dict: false for the empty dict only. *)
Definition data_truthy (d : platform_data) : bool :=
  match pd_profile d with
  | Some _ => true
  | None => (0 <? pd_other_keys d)%nat
  end.

(** What [json.load] returns: a dict, or another JSON value (a list, a
    string, a number, [true], [false], [null]) of which only the truth
    value matters. *)
Inductive document : Type :=
  | DictDoc (d : platform_data)
  | OtherDoc (truth : bool).

(** One [data_*.json] file: its creation time and what [json.load] makes
    of it. *)
Record data_file := {
  ctime : Z;
  parsed : result document
}.

(** What the file system shows for [data_dir/platform/username]. *)
Inductive directory : Type :=
  | NoDirectory
  | Unreadable (e : exn)
  | Listing (files : list data_file).

Definition filesystem := string -> string -> string -> directory.

(** [max(data_files, key=os.path.getctime)]: the first file of greatest
    creation time. *)
Fixpoint latest (candidate : data_file) (files : list data_file) : data_file :=
  match files with
  | [] => candidate
  | f :: rest =>
      if (ctime candidate <? ctime f)%Z then latest f rest else latest candidate rest
  end.

(** [CrossPlatformCorrelator._load_platform_data]: [Ok None] is a returned
    [None]; an error of [exists], [glob] or [getctime] escapes, an error
    while the file is read is logged and gives [None]. *)
Definition _load_platform_data (fs : filesystem) (platform username data_dir : string)
    : result (option document) :=
  match fs data_dir platform username with
  | NoDirectory => Ok None
  | Unreadable e => Raise e
  | Listing [] => Ok None
  | Listing (f :: rest) =>
      match parsed (latest f rest) with
      | Ok d => Ok (Some d)
      | Raise _ => Ok None
      end
  end.

(** One value of the [correlations] dict; [c_profile] is [None] when the
    entry has no [profile] key. *)
Record presence := {
  found : bool;
  c_profile : option stored_profile;
  confidence : Z
}.

Definition not_found : presence :=
  {| found := false; c_profile := None; confidence := 0 |}.

(** The body of the [for platform in self.platforms] loop, with its
    [try] and [except Exception].  A truthy document that is not a dict
    has no [get]: the [AttributeError] is raised inside the [try] and
    ends in the same [except] branch as an error of the loader. *)
Definition check_platform (fs : filesystem) (username data_dir : string)
    (correlations : list (string * presence)) (platform : string)
    : list (string * presence) :=
  match _load_platform_data fs platform username data_dir with
  | Ok (Some (DictDoc platform_data)) =>
      if data_truthy platform_data
      then dict_set platform
             {| found := true;
                c_profile := Some (default (ProfileDict ∅) (pd_profile platform_data));
                confidence := 100 |}
             correlations
      else dict_set platform not_found correlations
  | Ok (Some (OtherDoc truth)) => dict_set platform not_found correlations
  | Ok None => dict_set platform not_found correlations
  | Raise e => dict_set platform not_found correlations
  end.

Inductive strength : Type := StrengthHigh | StrengthMedium | StrengthLow.

Record correlation_analysis := {
  correlation_strength : strength;
  common_elements : list string;
  discrepancies : list string;
  identity_confidence : Z;
  platforms_found : option (list string)
}.

(** [p.get(k1, '') or p.get(k2, '') or p.get(k3, '')] *)
Definition first_of (p : gmap string string) (k1 k2 k3 : string) : string :=
  Analyzer.get_or (p !! k1) (Analyzer.get_or (p !! k2) (default "" (p !! k3))).

(** [{p: data['profile'] for p, data in correlations.items() if data['found']}],
    as the list of its values: the subscript raises [KeyError] on a found
    entry without the key. *)
Fixpoint found_profiles (correlations : list (string * presence))
    : result (list stored_profile) :=
  match correlations with
  | [] => Ok []
  | kv :: rest =>
      if found (snd kv)
      then
        match c_profile (snd kv) with
        | None => Raise (KeyError "profile")
        | Some p =>
            match found_profiles rest with
            | Raise e => Raise e
            | Ok ps => Ok (p :: ps)
            end
        end
      else found_profiles rest
  end.

(** The comprehension over [profiles.values()] calls [p.get] on every
    profile in turn; the first one that is not a dict raises
    [AttributeError]. *)
Fixpoint profile_dicts (profiles : list stored_profile)
    : result (list (gmap string string)) :=
  match profiles with
  | [] => Ok []
  | NotADict :: _ => Raise AttributeError
  | ProfileDict fields :: rest =>
      match profile_dicts rest with
      | Raise e => Raise e
      | Ok ds => Ok (fields :: ds)
      end
  end.

(** The rest of [_analyze_correlations], from the comparison of the
    names on, for profiles that are dicts. *)
Definition compare_profiles (found_platforms : list string)
    (profiles : list (gmap string string)) : correlation_analysis :=
  let names :=
    filter (fun n => truthy n = true)
      (map (fun p => first_of p "full_name" "display_name" "channel_name") profiles) in
  let distinct_names := list_of_set names in
  let name_common :=
    if (length distinct_names =? 1)%nat && (0 <? length names)%nat
    then ["Consistent name: " +:+ default "" (head names)] else [] in
  let name_discrepancy :=
    if (length distinct_names =? 1)%nat && (0 <? length names)%nat then []
    else if (1 <? length distinct_names)%nat
    then ["Different names: " +:+ join ", " distinct_names] else [] in
  let bios :=
    filter (fun b => truthy b = true)
      (map (fun p => first_of p "biography" "bio" "description") profiles) in
  let bio_similarity := _calculate_text_similarity bios in
  let bio_common :=
    if (0 <? length bios)%nat && Qltb (7 # 10) bio_similarity
    then ["Similar bio/description content"] else [] in
  let bio_discrepancy :=
    if (0 <? length bios)%nat && negb (Qltb (7 # 10) bio_similarity)
       && Qltb bio_similarity (3 # 10)
    then ["Very different bio/description content"] else [] in
  let common_elements := name_common ++ bio_common in
  let discrepancies := name_discrepancy ++ bio_discrepancy in
  let identity_confidence :=
    _calculate_identity_confidence common_elements discrepancies (length found_platforms) in
  let correlation_strength :=
    if (80 <? identity_confidence)%Z then StrengthHigh
    else if (60 <? identity_confidence)%Z then StrengthMedium
    else StrengthLow in
  {| correlation_strength := correlation_strength;
     common_elements := common_elements;
     discrepancies := discrepancies;
     identity_confidence := identity_confidence;
     platforms_found := Some found_platforms |}.

(** [CrossPlatformCorrelator._analyze_correlations] *)
Definition _analyze_correlations (correlations : list (string * presence))
    : result correlation_analysis :=
  let found_platforms := map fst (filter (fun kv => found (snd kv) = true) correlations) in
  if (length found_platforms <? 2)%nat
  then Ok {| correlation_strength := StrengthLow; common_elements := [];
             discrepancies := []; identity_confidence := 50; platforms_found := None |}
  else
    match found_profiles correlations with
    | Raise e => Raise e
    | Ok profiles =>
        match profile_dicts profiles with
        | Raise e => Raise e
        | Ok dicts => Ok (compare_profiles found_platforms dicts)
        end
    end.

(** [CrossPlatformCorrelator._calculate_footprint_score] *)
Definition _calculate_footprint_score (correlations : list (string * presence)) : Z :=
  let found_entries := filter (fun kv => found (snd kv) = true) correlations in
  let found_count := length found_entries in
  let total_platforms := length platforms in
  let presence_score :=
    (inject_Z (Z.of_nat found_count) / inject_Z (Z.of_nat total_platforms) * 60)%Q in
  let confidence_bonus :=
    (inject_Z (fold_right Z.add 0%Z (map (fun kv => confidence (snd kv)) found_entries))
     / inject_Z (Z.of_nat (Nat.max 1 found_count)) * (4 # 10))%Q in
  Z.min 100 (Qfloor (presence_score + confidence_bonus)).

Record correlation_result := {
  r_username : string;
  platform_presence : list (string * presence);
  r_correlation_analysis : correlation_analysis;
  total_platforms : nat;
  digital_footprint_score : Z
}.

(** [CrossPlatformCorrelator.correlate_accounts].  The call of
    [_analyze_correlations] stands after the loop, outside its [try]:
    what it raises leaves [correlate_accounts]. *)
Definition correlate_accounts (fs : filesystem) (username data_dir : string)
    : result correlation_result :=
  let correlations := fold_left (check_platform fs username data_dir) platforms [] in
  match _analyze_correlations correlations with
  | Raise e => Raise e
  | Ok correlation_analysis =>
      Ok {| r_username := username;
            platform_presence := correlations;
            r_correlation_analysis := correlation_analysis;
            total_platforms := length (filter (fun kv => found (snd kv) = true) correlations);
            digital_footprint_score := _calculate_footprint_score correlations |}
  end.


End Correlator.

(** ** advanced_discovery.py: the variation generator *)
Module Discovery.
Import Text Analyzer Correlator.

Section Generator.

(** [str.upper] and [str.capitalize] leave Latin-1 on three code points,
    and [datetime.now().year] belongs to the clock: the generator takes
    them from its environment. *)
Variable upper : string -> string.
Variable capitalize : string -> string.
Variable current_year : nat.

(** [s[0]] of a non-empty string. *)
Definition first_char (s : string) : string := String.substring 0 1 s.

(** [AdvancedDiscovery._generate_name_variations], as the list of the
    values added to its set. *)
Definition _generate_name_variations (first_name last_name : string) : list string :=
  let first := lower first_name in
  let last := lower last_name in
  [first +:+ "." +:+ last;
   first +:+ "_" +:+ last;
   first +:+ last;
   last +:+ "." +:+ first;
   last +:+ "_" +:+ first;
   last +:+ first;
   first_char first +:+ "." +:+ last;
   first +:+ "." +:+ first_char last;
   first_char first +:+ last;
   first +:+ first_char last]
  ++ flat_map
       (fun i =>
          [first +:+ "." +:+ last +:+ str_of_nat i;
           first +:+ "_" +:+ last +:+ str_of_nat i;
           first +:+ last +:+ str_of_nat i;
           first +:+ "." +:+ last +:+ "_" +:+ str_of_nat i;
           first +:+ "_" +:+ last +:+ "_" +:+ str_of_nat i])
       (range 1 20).

(** [char_subs], in the order of the dict literal. *)
Definition char_subs : list (ascii * list ascii) :=
  [("a"%char, ["@"%char; "4"%char]);
   ("e"%char, ["3"%char]);
   ("i"%char, ["1"%char; "!"%char]);
   ("o"%char, ["0"%char]);
   ("s"%char, ["5"%char; "$"%char]);
   ("t"%char, ["7"%char])].

(** Everything added to the set [variations], in the order of the
    source. *)
Definition added_variations (base_username : string)
    (first_name last_name : option string) : list string :=
  [base_username; lower base_username; upper base_username; capitalize base_username]
  ++ flat_map
       (fun i =>
          [base_username +:+ str_of_nat i;
           base_username +:+ "_" +:+ str_of_nat i;
           base_username +:+ "." +:+ str_of_nat i;
           base_username +:+ "-" +:+ str_of_nat i])
       (range 1 100)
  ++ flat_map
       (fun year =>
          [base_username +:+ str_of_nat year;
           base_username +:+ "_" +:+ str_of_nat year;
           str_of_nat year +:+ base_username;
           str_of_nat year +:+ "_" +:+ base_username])
       (range 1990 (current_year + 1))
  ++ flat_map
       (fun cs =>
          flat_map
            (fun sub =>
               if contains_char (fst cs) (lower base_username)
               then [replace_char (fst cs) sub (lower base_username)] else [])
            (snd cs))
       char_subs
  ++ match first_name, last_name with
     | Some f, Some l =>
         if truthy f && truthy l then _generate_name_variations f l else []
     | _, _ => []
     end.

(** [AdvancedDiscovery.generate_username_variations] *)
Definition generate_username_variations (base_username : string)
    (first_name last_name : option string) : list string :=
  let variations : gset string := list_to_set (added_variations base_username first_name last_name) in
  take 100 (sorted (elements variations)).

End Generator.

End Discovery.

(** ** cross_platform_analyzer.py: the writing style of a profile *)
Module Style.
Import Text Analyzer Signals.

(** The character class [[.!?]] *)
Definition is_sentence_mark (c : ascii) : bool :=
  is_code 46 c || is_code 33 c || is_code 63 c.

(** [len(re.findall(r'[.!?]+', text))]: the number of maximal runs of
    characters of the class.  [inside] tells that the character before
    [s] belongs to a run, which the greedy [+] has taken with it. *)
Fixpoint count_runs (p : ascii -> bool) (inside : bool) (s : string) : nat :=
  match s with
  | EmptyString => 0
  | String c s' =>
      if p c then (if inside then 0 else 1) + count_runs p true s'
      else count_runs p false s'
  end.

(** [text.count(a)] for a one-character [a] *)
Fixpoint count_char (a : ascii) (s : string) : nat :=
  match s with
  | EmptyString => 0
  | String c s' => (if Ascii.eqb c a then 1 else 0) + count_char a s'
  end.

(** The character class [[A-Z]] *)
Definition is_upper (c : ascii) : bool := between 65 90 c.

(** The length of the run of [[A-Z]] at the start of [s]. *)
Fixpoint upper_run (s : string) : nat :=
  match s with
  | EmptyString => 0
  | String c s' => if is_upper c then S (upper_run s') else 0
  end.

(** [\b] after a word character: the end of the text or a character that
    is not a word character. *)
Definition at_word_end (s : string) : bool :=
  match s with
  | EmptyString => true
  | String c _ => negb (is_word c)
  end.

(** [\b[A-Z]{2,}\b] at the start of [s]; [after_word] tells that the
    character before [s] is a word character.  The greedy [{2,}] takes
    the whole run of capitals; a shorter run ends between two capitals,
    where [\b] does not hold, so backtracking never succeeds where the
    whole run fails.  The result is the text left after the match. *)
Definition match_upper_word (after_word : bool) (s : string) : option string :=
  if negb after_word && (2 <=? upper_run s)%nat && at_word_end (skip_while is_upper s)
  then Some (skip_while is_upper s) else None.

(** The scan of [re.findall]: after a match the scan resumes behind it,
    where the character before is a capital; elsewhere it moves on by one
    character. *)
Fixpoint count_upper_words_from (fuel : nat) (after_word : bool) (s : string) : nat :=
  match fuel with
  | O => 0
  | S fuel' =>
      match s with
      | EmptyString => 0
      | String c s' =>
          match match_upper_word after_word s with
          | Some r => S (count_upper_words_from fuel' true r)
          | None => count_upper_words_from fuel' (is_word c) s'
          end
      end
  end.

(** [len(re.findall(r'\b[A-Z]{2,}\b', text))]; every step consumes a
    character, so [length text] steps finish the scan. *)
Definition count_upper_words (text : string) : nat :=
  count_upper_words_from (String.length text) false text.

(** The scan of [re.findall] for a pattern that looks at no character
    before its match; [match_at s] is the text left after a match at the
    start of [s]. *)
Fixpoint count_matches_from (match_at : string -> option string) (fuel : nat) (s : string)
    : nat :=
  match fuel with
  | O => 0
  | S fuel' =>
      match s with
      | EmptyString => 0
      | String c s' =>
          match match_at s with
          | Some r => S (count_matches_from match_at fuel' r)
          | None => count_matches_from match_at fuel' s'
          end
      end
  end.

Definition count_matches (match_at : string -> option string) (s : string) : nat :=
  count_matches_from match_at (String.length s) s.

(** The character class of the emoji pattern: U+1F600..U+1F64F,
    U+1F300..U+1F5FF, U+1F680..U+1F6FF and U+1F1E0..U+1F1FF. *)
Definition is_emoji (c : ascii) : bool :=
  between 128512 128591 c || between 127744 128511 c
  || between 128640 128767 c || between 127456 127487 c.

(** [a / max(1, b)] on two counts *)
Definition per (count unit : nat) : Q :=
  (inject_Z (Z.of_nat count) / inject_Z (Z.of_nat (Nat.max 1 unit)))%Q.

(** [CrossPlatformAnalyzer._extract_writing_style_features] *)
Definition _extract_writing_style_features (text : string) : gmap string Q :=
  if negb (truthy text) then ∅
  else
    let sentences := count_runs is_sentence_mark false text in
    let words := length (split text) in
    let chars := String.length text in
    let exclamations := count_char "!" text in
    let questions := count_char "?" text in
    let commas := count_char "," text in
    let uppercase_words := count_upper_words text in
    let emoji_count := String.length (str_filter is_emoji text) in
    let hashtags := count_matches (match_sigil "#") text in
    let mentions := count_matches (match_sigil "@") text in
    list_to_map
      [("avg_sentence_length", per words sentences);
       ("avg_word_length", per chars words);
       ("exclamation_ratio", per exclamations sentences);
       ("question_ratio", per questions sentences);
       ("comma_ratio", per commas words);
       ("uppercase_ratio", per uppercase_words words);
       ("emoji_ratio", per emoji_count words);
       ("hashtag_ratio", per hashtags words);
       ("mention_ratio", per mentions words)].

(** [features[key]] for a key of the dict. *)
Definition item (features : gmap string Q) (key : string) : Q :=
  default 0%Q (features !! key).

(** [set(features1.keys()) & set(features2.keys())], in the order the
    set yields its elements. *)
Definition common_keys (features1 features2 : gmap string Q) : list string :=
  elements (dom features1 ∩ dom features2 : gset string).

(** The body of the loop over the common keys, shared by
    [_calculate_style_similarity] and [_get_matching_features]. *)
Definition feature_similarity (val1 val2 : Q) : Q :=
  let max_val := max3 val1 val2 1 in
  (1 - Qabs (val1 - val2) / max_val)%Q.

(** [CrossPlatformAnalyzer._calculate_style_similarity] *)
Definition _calculate_style_similarity (features1 features2 : gmap string Q) : Q :=
  if bool_decide (features1 = ∅) || bool_decide (features2 = ∅) then 0%Q
  else
    match common_keys features1 features2 with
    | [] => 0%Q
    | _ =>
        mean (map (fun key => feature_similarity (item features1 key) (item features2 key))
                (common_keys features1 features2))
    end.

(** [CrossPlatformAnalyzer._get_matching_features] *)
Definition _get_matching_features (features1 features2 : gmap string Q) : list string :=
  let threshold := (8 # 10)%Q in
  filter
    (fun key =>
       Qltb threshold (feature_similarity (item features1 key) (item features2 key)) = true)
    (common_keys features1 features2).

(** [post.get('caption', '') or post.get('content', '')] *)
Definition post_text (p : post) : string :=
  get_or (caption p) (default "" (content p)).

(** The list [all_text] of one record. *)
Definition all_text (pd : profile_data) : list string :=
  filter (fun c => truthy c = true) (map post_text (default [] (posts pd))).

(** One element of [style_profiles]. *)
Record style_profile := {
  sp_platform : string;
  sp_profile_data : profile_data;
  sp_style_features : gmap string Q;
  sp_text_sample : string
}.

(** The body of the first loop of [analyze_writing_style_correlation]. *)
Definition style_step (style_profiles : list style_profile) (pd : profile_data)
    : list style_profile :=
  match all_text pd with
  | [] => style_profiles
  | _ :: _ =>
      let combined_text := join " " (all_text pd) in
      style_profiles
      ++ [{| sp_platform := default "" (platform pd);
             sp_profile_data := pd;
             sp_style_features := _extract_writing_style_features combined_text;
             sp_text_sample := String.substring 0 500 combined_text |}]
  end.

(** One element of [similarities]. *)
Record style_entry := {
  se_profile1 : string;
  se_profile2 : string;
  se_similarity_score : Q;
  se_matching_features : list string
}.

(** The inner loop [for j in range(i + 1, len(style_profiles))] *)
Fixpoint style_row (p1 : style_profile) (later : list style_profile)
    (similarities : list style_entry) : list style_entry :=
  match later with
  | [] => similarities
  | p2 :: rest =>
      let similarity :=
        _calculate_style_similarity (sp_style_features p1) (sp_style_features p2) in
      if Qltb (7 # 10) similarity
      then style_row p1 rest
             (similarities
              ++ [{| se_profile1 := sp_platform p1;
                     se_profile2 := sp_platform p2;
                     se_similarity_score := similarity;
                     se_matching_features :=
                       _get_matching_features (sp_style_features p1) (sp_style_features p2) |}])
      else style_row p1 rest similarities
  end.

(** The outer loop [for i in range(len(style_profiles))] *)
Fixpoint style_rows (style_profiles : list style_profile)
    (similarities : list style_entry) : list style_entry :=
  match style_profiles with
  | [] => similarities
  | p1 :: later => style_rows later (style_row p1 later similarities)
  end.

Record style_result := {
  style_matches : list style_entry;
  total_style_matches : nat
}.

(** [CrossPlatformAnalyzer.analyze_writing_style_correlation] *)
Definition analyze_writing_style_correlation (profiles_data : list profile_data)
    : style_result :=
  let style_profiles := fold_left style_step profiles_data [] in
  let similarities := style_rows style_profiles [] in
  {| style_matches := similarities; total_style_matches := length similarities |}.

End Style.

(** ** cross_platform_analyzer.py: content posted on several platforms *)
Module Overlap.
Import Text Hashlib Analyzer Signals.

(** The scan of [re.sub(pattern, '', s)]: at a match the matched text is
    dropped and the scan resumes behind it; [match_at s] is the text left
    after a match at the start of [s]. *)
Fixpoint sub_from (match_at : string -> option string) (fuel : nat) (s : string) : string :=
  match fuel with
  | O => s
  | S fuel' =>
      match s with
      | EmptyString => EmptyString
      | String c s' =>
          match match_at s with
          | Some r => sub_from match_at fuel' r
          | None => String c (sub_from match_at fuel' s')
          end
      end
  end.

(** Every step consumes a character, so [length s] steps finish the
    scan. *)
Definition sub_pattern (match_at : string -> option string) (s : string) : string :=
  sub_from match_at (String.length s) s.

(** [CrossPlatformAnalyzer._create_content_hash] *)
Definition _create_content_hash (content : string) : string :=
  let normalized := lower content in
  let normalized := sub_pattern match_http normalized in
  let normalized := sub_pattern (match_sigil "@") normalized in
  let normalized := sub_pattern (match_sigil "#") normalized in
  let normalized := sub_non_word_space normalized in
  let normalized := join " " (split normalized) in
  String.substring 0 12 (md5_hexdigest normalized).

(** One element of a list of [content_hashes]. *)
Record fingerprint := {
  f_platform : string;
  f_post : post;
  f_content : string
}.

(** The body of the loop [for post in posts]. *)
Definition fingerprint_step (platform : string)
    (content_hashes : list (string * list fingerprint)) (p : post)
    : list (string * list fingerprint) :=
  let content := Style.post_text p in
  if truthy content && (20 <? String.length content)%nat
  then group_append (_create_content_hash content)
         {| f_platform := platform; f_post := p;
            f_content := String.substring 0 200 content |}
         content_hashes
  else content_hashes.

(** The body of the loop [for profile_data in profiles_data]. *)
Definition profile_step (content_hashes : list (string * list fingerprint))
    (pd : profile_data) : list (string * list fingerprint) :=
  fold_left (fingerprint_step (default "" (platform pd))) (default [] (posts pd))
    content_hashes.

Definition build_content_hashes (profiles_data : list profile_data)
    : list (string * list fingerprint) :=
  fold_left profile_step profiles_data [].

(** One element of [cross_posts]. *)
Record cross_post_entry := {
  o_content_hash : string;
  o_platforms : list string;
  o_posts : list fingerprint;
  cross_platform_count : nat
}.

(** [len(set(platforms))] *)
Definition distinct_count (platforms : list string) : nat :=
  size (list_to_set platforms : gset string).

(** The body of the loop [for content_hash, posts in content_hashes.items()],
    giving what it appends to [cross_posts]. *)
Definition cross_post_of (kv : string * list fingerprint) : list cross_post_entry :=
  if (1 <? length (snd kv))%nat
  then
    let platforms := map f_platform (snd kv) in
    if (1 <? distinct_count platforms)%nat
    then [{| o_content_hash := fst kv;
             o_platforms := platforms;
             o_posts := snd kv;
             cross_platform_count := distinct_count platforms |}]
    else []
  else [].

Record overlap_result := {
  cross_posted_content : list cross_post_entry;
  total_cross_posts : nat;
  cross_posting_ratio : Q
}.

(** [CrossPlatformAnalyzer.analyze_content_overlap] *)
Definition analyze_content_overlap (profiles_data : list profile_data) : overlap_result :=
  let content_hashes := build_content_hashes profiles_data in
  let cross_posts := flat_map cross_post_of content_hashes in
  {| cross_posted_content := cross_posts;
     total_cross_posts := length cross_posts;
     cross_posting_ratio :=
       (inject_Z (Z.of_nat (length cross_posts))
        / inject_Z (Z.of_nat (Nat.max 1 (length content_hashes))))%Q |}.

End Overlap.

(** ** cross_platform_correlator.py: similar profiles *)
Module Similar.
Import Text Signals Correlator.

Inductive variation_type : Type :=
  | NumericSuffix
  | UnderscoreAdded
  | DotAdded
  | DescriptiveSuffix
  | OtherVariation.

(** [variation.endswith(tuple('0123456789'))] *)
Fixpoint ends_with_digit (s : string) : bool :=
  match s with
  | EmptyString => false
  | String c EmptyString => between 48 57 c
  | String _ s' => ends_with_digit s'
  end.

(** [sub in s] *)
Fixpoint contains (sub s : string) : bool :=
  String.prefix sub s
  || match s with
     | EmptyString => false
     | String _ s' => contains sub s'
     end.

(** [CrossPlatformCorrelator._get_variation_type] *)
Definition _get_variation_type (original variation : string) : variation_type :=
  if ends_with_digit variation then NumericSuffix
  else if contains_char "_" variation && negb (contains_char "_" original)
  then UnderscoreAdded
  else if contains_char "." variation && negb (contains_char "." original)
  then DotAdded
  else if existsb (fun suffix => contains suffix variation) ["official"; "real"; "new"]
  then DescriptiveSuffix
  else OtherVariation.

(** One element of [similar_profiles]. *)
Record similar_profile := {
  sim_username : string;
  sim_similarity_score : Q;
  sim_platform : string;
  sim_variation_type : variation_type
}.

(** The body of the loop [for variation in variations], giving what it
    appends to [similar_profiles]. *)
Definition similar_of (base_username platform variation : string) : list similar_profile :=
  let similarity_score := _calculate_username_similarity base_username variation in
  if Qltb (7 # 10) similarity_score
  then [{| sim_username := variation;
           sim_similarity_score := similarity_score;
           sim_platform := platform;
           sim_variation_type := _get_variation_type base_username variation |}]
  else [].

(** [CrossPlatformCorrelator.find_similar_profiles]; [base_profile] is
    the dict of the text fields of a profile. *)
Definition find_similar_profiles (base_profile : gmap string string) (platform : string)
    : list similar_profile :=
  let base_username := default "" (base_profile !! "username") in
  let variations := _generate_username_variations base_username in
  flat_map (similar_of base_username platform) variations.

End Similar.

(** ** cross_platform_analyzer.py: the behavioural analysis of a batch *)
Module Behaviour.
Import Text Analyzer Signals.

(** [behavior.get(key, 0)] *)
Definition get0 (behavior : gmap string Q) (key : string) : Q :=
  default 0%Q (behavior !! key).

(** The three [if] blocks of [_get_matching_behaviors], each giving what
    it appends to [matching]. *)
Definition matching_hours (behavior1 behavior2 : gmap string Q) : list string :=
  if Qleb (Qabs (get0 behavior1 "most_active_hour" - get0 behavior2 "most_active_hour")) 2
  then ["similar_active_hours"] else [].

Definition matching_days (behavior1 behavior2 : gmap string Q) : list string :=
  if Qleb (Qabs (get0 behavior1 "most_active_day" - get0 behavior2 "most_active_day")) 1
  then ["similar_active_days"] else [].

Definition matching_lengths (behavior1 behavior2 : gmap string Q) : list string :=
  let len1 := get0 behavior1 "avg_content_length" in
  let len2 := get0 behavior2 "avg_content_length" in
  if Qltb 0 len1 && Qltb 0 len2
  then
    if Qltb (Qabs (len1 - len2) / Qmax len1 len2) (3 # 10)
    then ["similar_content_length"] else []
  else [].

(** [CrossPlatformAnalyzer._get_matching_behaviors] *)
Definition _get_matching_behaviors (behavior1 behavior2 : gmap string Q) : list string :=
  matching_hours behavior1 behavior2
  ++ matching_days behavior1 behavior2
  ++ matching_lengths behavior1 behavior2.

Section Extractor.

(** [_extract_behavioral_features] reads the hour and the weekday of the
    post dates and the like counts of the posts, which the records above
    do not hold; the analysis is given for any extractor of the numeric
    features of a list of posts. *)
Variable _extract_behavioral_features : list post -> gmap string Q.

(** One element of [behavioral_profiles]. *)
Record behavioral_profile := {
  bp_platform : string;
  bp_profile_data : profile_data;
  bp_behavior_features : gmap string Q
}.

(** The body of the first loop of [analyze_behavioral_correlation]. *)
Definition behavior_step (pd : profile_data) : behavioral_profile :=
  {| bp_platform := default "" (platform pd);
     bp_profile_data := pd;
     bp_behavior_features := _extract_behavioral_features (default [] (posts pd)) |}.

(** One element of [correlations]. *)
Record behavior_entry := {
  be_profile1 : string;
  be_profile2 : string;
  be_correlation_score : Q;
  be_matching_behaviors : list string
}.

(** The inner loop [for j in range(i + 1, len(behavioral_profiles))] *)
Fixpoint behavior_row (p1 : behavioral_profile) (later : list behavioral_profile)
    (correlations : list behavior_entry) : list behavior_entry :=
  match later with
  | [] => correlations
  | p2 :: rest =>
      let correlation :=
        _calculate_behavioral_correlation (bp_behavior_features p1) (bp_behavior_features p2) in
      if Qltb (6 # 10) correlation
      then behavior_row p1 rest
             (correlations
              ++ [{| be_profile1 := bp_platform p1;
                     be_profile2 := bp_platform p2;
                     be_correlation_score := correlation;
                     be_matching_behaviors :=
                       _get_matching_behaviors (bp_behavior_features p1)
                         (bp_behavior_features p2) |}])
      else behavior_row p1 rest correlations
  end.

(** The outer loop [for i in range(len(behavioral_profiles))] *)
Fixpoint behavior_rows (behavioral_profiles : list behavioral_profile)
    (correlations : list behavior_entry) : list behavior_entry :=
  match behavioral_profiles with
  | [] => correlations
  | p1 :: later => behavior_rows later (behavior_row p1 later correlations)
  end.

Record behavior_result := {
  behavioral_correlations : list behavior_entry;
  total_correlations : nat
}.

(** [CrossPlatformAnalyzer.analyze_behavioral_correlation] *)
Definition analyze_behavioral_correlation (profiles_data : list profile_data)
    : behavior_result :=
  let behavioral_profiles := map behavior_step profiles_data in
  let correlations := behavior_rows behavioral_profiles [] in
  {| behavioral_correlations := correlations; total_correlations := length correlations |}.

End Extractor.

End Behaviour.

(** ** advanced_discovery.py: e-mail patterns *)
Module Emails.
Import Text Correlator.

Section Patterns.

(** [str.upper] leaves Latin-1 on three code points; the generator takes
    it from its environment, as [Discovery] does. *)
Variable upper : string -> string.

(** [self.common_domains] *)
Definition common_domains : list string :=
  ["gmail.com"; "yahoo.com"; "hotmail.com"; "outlook.com";
   "protonmail.com"; "icloud.com"; "aol.com"].

(** [s[:n]] and [s[n:]] *)
Definition str_take (n : nat) (s : string) : string := String.substring 0 n s.
Definition str_drop (n : nat) (s : string) : string :=
  String.substring n (String.length s - n) s.

(** What the body of the loop [for domain in domains_to_check] adds to
    [emails]. *)
Definition emails_for (username domain : string) : list string :=
  [username +:+ "@" +:+ domain;
   lower username +:+ "@" +:+ domain;
   upper username +:+ "@" +:+ domain]
  ++ (if (3 <? String.length username)%nat
      then [str_take 3 username +:+ "." +:+ str_drop 3 username +:+ "@" +:+ domain;
            str_take 2 username +:+ "_" +:+ str_drop 2 username +:+ "@" +:+ domain;
            str_take 1 username +:+ "." +:+ str_drop 1 username +:+ "@" +:+ domain]
      else [])
  ++ flat_map
       (fun i =>
          [username +:+ str_of_nat i +:+ "@" +:+ domain;
           username +:+ "." +:+ str_of_nat i +:+ "@" +:+ domain;
           username +:+ "_" +:+ str_of_nat i +:+ "@" +:+ domain])
       (range 1 10).

(** [[domain] if domain else self.common_domains]; [None] is the default
    of the parameter. *)
Definition domains_to_check (domain : option string) : list string :=
  match domain with
  | Some d => if truthy d then [d] else common_domains
  | None => common_domains
  end.

(** [AdvancedDiscovery.find_email_patterns] *)
Definition find_email_patterns (username : string) (domain : option string) : list string :=
  list_of_set (flat_map (emails_for username) (domains_to_check domain)).

End Patterns.

End Emails.

(** * Properties *)

(** ** Text primitives *)
Section TextFacts.
Import Text.

Lemma split_cons (c : ascii) (s : string) :
  split (String c s) =
  if is_space c then split s
  else match s with
       | EmptyString => [String c EmptyString]
       | String d _ =>
           if is_space d then String c EmptyString :: split s
           else match split s with
                | w :: ws => String c w :: ws
                | [] => [String c EmptyString]
                end
       end.
Proof. reflexivity. Qed.

Lemma lower_char_idem (c : ascii) : lower_char (lower_char c) = lower_char c.
Proof. destruct c as [[] [] [] [] [] [] [] []]; reflexivity. Qed.

Lemma lower_char_newline (c : ascii) : is_code 10 (lower_char c) = is_code 10 c.
Proof. destruct c as [[] [] [] [] [] [] [] []]; reflexivity. Qed.

Lemma str_map_id_on (f : ascii -> ascii) (s : string) :
  str_forallb (fun c => Ascii.eqb (f c) c) s = true -> str_map f s = s.
Proof.
  induction s as [|c s IH]; simpl; [done|].
  intros [Hc Hs]%andb_true_iff. apply Ascii.eqb_eq in Hc. rewrite Hc, IH; done.
Qed.

Lemma str_filter_id_on (p : ascii -> bool) (s : string) :
  str_forallb p s = true -> str_filter p s = s.
Proof.
  induction s as [|c s IH]; simpl; [done|].
  intros [Hc Hs]%andb_true_iff. rewrite Hc, IH; done.
Qed.

Lemma str_forallb_filter (p : ascii -> bool) (s : string) :
  str_forallb p (str_filter p s) = true.
Proof.
  induction s as [|c s IH]; simpl; [done|].
  destruct (p c) eqn:Hc; simpl; [rewrite Hc|]; done.
Qed.

Lemma str_forallb_filter_keeps (p q : ascii -> bool) (s : string) :
  str_forallb q s = true -> str_forallb q (str_filter p s) = true.
Proof.
  induction s as [|c s IH]; simpl; [done|].
  intros [Hc Hs]%andb_true_iff.
  destruct (p c); simpl; [rewrite Hc|]; auto.
Qed.

Lemma str_forallb_map (f : ascii -> ascii) (q : ascii -> bool) (s : string) :
  (forall c, q (f c) = true) -> str_forallb q (str_map f s) = true.
Proof.
  intros Hq. induction s as [|c s IH]; simpl; [done|]. rewrite Hq, IH; done.
Qed.

Lemma str_forallb_app (q : ascii -> bool) (s t : string) :
  str_forallb q (s +:+ t) = str_forallb q s && str_forallb q t.
Proof.
  induction s as [|c s IH]; simpl; [done|]. rewrite IH, andb_assoc; done.
Qed.

(** A word of [split]: not empty, free of whitespace. *)
Definition is_token (w : string) : Prop :=
  truthy w = true /\ str_forallb (fun c => negb (is_space c)) w = true.

Lemma split_tokens (s : string) : Forall is_token (split s).
Proof.
  induction s as [|c s IH]; [constructor|].
  rewrite split_cons. destruct (is_space c) eqn:Hc; [done|].
  assert (Hone : is_token (String c EmptyString)).
  { split; simpl; [done|]. rewrite Hc; done. }
  destruct s as [|d s']; [by constructor|].
  destruct (is_space d) eqn:Hd; [by constructor|].
  destruct (split (String d s')) as [|w ws]; [by constructor|].
  inversion IH as [|? ? [Hw1 Hw2] Hws]; subst.
  constructor; [|done]. split; simpl; [done|]. rewrite Hc, Hw2; done.
Qed.

Lemma split_keeps (q : ascii -> bool) (s : string) :
  str_forallb q s = true -> Forall (fun w => str_forallb q w = true) (split s).
Proof.
  induction s as [|c s IH]; [constructor|].
  intros Hq. rewrite split_cons.
  simpl in Hq. apply andb_true_iff in Hq as [Hc Hs]. specialize (IH Hs).
  destruct (is_space c); [done|].
  assert (Hone : str_forallb q (String c EmptyString) = true) by (simpl; rewrite Hc; done).
  destruct s as [|d s']; [by constructor|].
  destruct (is_space d); [by constructor|].
  destruct (split (String d s')) as [|w ws]; [by constructor|].
  inversion IH; subst. constructor; [|done]. simpl. rewrite Hc; done.
Qed.

Lemma join_keeps (q : ascii -> bool) (sep : string) (ws : list string) :
  str_forallb q sep = true ->
  Forall (fun w => str_forallb q w = true) ws ->
  str_forallb q (join sep ws) = true.
Proof.
  intros Hsep. induction 1 as [|w ws Hw Hws IH]; [done|].
  destruct ws as [|w' ws']; [done|].
  change (join sep (w :: w' :: ws')) with (w +:+ sep +:+ join sep (w' :: ws')).
  rewrite !str_forallb_app, Hw, Hsep, IH; done.
Qed.

(** Splitting a token followed by a space and more text. *)
Lemma split_token_space (w rest : string) :
  is_token w -> split (w +:+ String " "%char rest) = w :: split rest.
Proof.
  intros [Hne Hns]. induction w as [|c w IH]; [done|].
  simpl in Hns. apply andb_true_iff in Hns as [Hc Hw].
  apply negb_true_iff in Hc.
  change (String c w +:+ String " "%char rest) with (String c (w +:+ String " "%char rest)).
  rewrite split_cons, Hc.
  destruct w as [|d w'].
  - reflexivity.
  - change (String d w' +:+ String " "%char rest)
      with (String d (w' +:+ String " "%char rest)) in *.
    assert (Hd : is_space d = false).
    { simpl in Hw. apply andb_true_iff in Hw as [Hd _]. by apply negb_true_iff. }
    cbv beta iota. rewrite Hd. rewrite IH by done. reflexivity.
Qed.

Lemma split_token (w : string) : is_token w -> split w = [w].
Proof.
  intros [Hne Hns]. induction w as [|c w IH]; [done|].
  simpl in Hns. apply andb_true_iff in Hns as [Hc Hw].
  apply negb_true_iff in Hc. rewrite split_cons, Hc.
  destruct w as [|d w']; [done|].
  assert (Hd : is_space d = false).
  { simpl in Hw. apply andb_true_iff in Hw as [Hd _]. by apply negb_true_iff. }
  rewrite Hd, IH by done. reflexivity.
Qed.

(** [split] undoes [" ".join] on tokens. *)
Lemma split_join (ws : list string) :
  Forall is_token ws -> split (join " " ws) = ws.
Proof.
  induction 1 as [|w ws Hw Hws IH]; [done|].
  destruct ws as [|w' ws']; [by apply split_token|].
  change (join " " (w :: w' :: ws')) with (w +:+ String " "%char (join " " (w' :: ws'))).
  rewrite split_token_space by done. rewrite IH. reflexivity.
Qed.

End TextFacts.

(** ** Normalisers *)
Section NormalizerFacts.
Import Text Normalizer.

Definition is_lowered (c : ascii) : bool := Ascii.eqb (lower_char c) c.
Definition not_newline (c : ascii) : bool := negb (is_code 10 c).
Lemma lower_is_lowered (s : string) : str_forallb is_lowered (lower s) = true.
Proof.
  apply str_forallb_map. intros c. unfold is_lowered.
  rewrite lower_char_idem. apply Ascii.eqb_refl.
Qed.

Lemma lower_fixed (s : string) : str_forallb is_lowered s = true -> lower s = s.
Proof. apply str_map_id_on. Qed.

(** X1: the display-name normaliser is idempotent: for every string,
    normalising its result again changes nothing. *)
Lemma normalize_name_idempotent (s : string) :
  _normalize_name (_normalize_name s) = _normalize_name s.
Proof.
  destruct s as [|c s]; [reflexivity|].
  unfold _normalize_name at 2 3. cbn [truthy negb].
  set (x := sub_non_word_space (lower (String c s))).
  assert (Hlow : str_forallb is_lowered (join " " (split x)) = true).
  { apply join_keeps; [reflexivity|]. apply split_keeps.
    apply str_forallb_filter_keeps, lower_is_lowered. }
  assert (Hkept : str_forallb word_or_space (join " " (split x)) = true).
  { apply join_keeps; [reflexivity|]. apply split_keeps.
    apply (str_forallb_filter word_or_space). }
  unfold _normalize_name.
  destruct (truthy (join " " (split x))) eqn:Hr.
  - cbn [negb]. rewrite (lower_fixed _ Hlow).
    unfold sub_non_word_space. rewrite (str_filter_id_on _ _ Hkept).
    rewrite split_join by apply split_tokens. reflexivity.
  - destruct (join " " (split x)); [reflexivity | discriminate].
Qed.

(** On text without a newline [$] is the end of the string, and the
    substitution removes the digits the text ends with. *)
Lemma skip_digits_keeps (q : ascii -> bool) (s : string) :
  str_forallb q s = true -> str_forallb q (skip_digits s) = true.
Proof.
  induction s as [|c s IH]; simpl; [done|].
  intros H. destruct (is_digit c); [|done].
  apply andb_true_iff in H as [_ H]. auto.
Qed.

Lemma skip_digits_empty (s : string) :
  str_forallb is_digit s = true -> skip_digits s = EmptyString.
Proof.
  induction s as [|c s IH]; simpl; [done|].
  intros [Hc Hs]%andb_true_iff. rewrite Hc. auto.
Qed.

Lemma skip_digits_not_all (s : string) :
  str_forallb is_digit s = false -> truthy (skip_digits s) = true.
Proof.
  induction s as [|c s IH]; simpl; [done|].
  destruct (is_digit c) eqn:Hc; simpl; [auto | done].
Qed.

Lemma at_dollar_no_newline (s : string) :
  str_forallb not_newline s = true -> at_dollar s = negb (truthy s).
Proof.
  destruct s as [|c [|d s]]; simpl; try done.
  unfold not_newline. rewrite andb_true_r. intros H.
  apply negb_true_iff in H. done.
Qed.

Lemma sub_digits_dollar_cons (c : ascii) (s : string) :
  str_forallb not_newline (String c s) = true ->
  sub_digits_dollar (String c s) =
  if str_forallb is_digit (String c s) then EmptyString
  else String c (sub_digits_dollar s).
Proof.
  intros Hnl. cbn [sub_digits_dollar match_digits_dollar str_forallb].
  destruct (is_digit c) eqn:Hc; [|reflexivity].
  cbn [andb]. simpl in Hnl. apply andb_true_iff in Hnl as [_ Hnl].
  rewrite at_dollar_no_newline by (by apply skip_digits_keeps).
  destruct (str_forallb is_digit s) eqn:Hs.
  - rewrite skip_digits_empty by done. reflexivity.
  - rewrite skip_digits_not_all by done. reflexivity.
Qed.

Lemma sub_digits_dollar_keeps (q : ascii -> bool) (s : string) :
  str_forallb q s = true -> str_forallb q (sub_digits_dollar s) = true.
Proof.
  induction s as [|c s IH]; [done|].
  intros H. pose proof H as H'. simpl in H'. apply andb_true_iff in H' as [Hc Hs].
  cbn [sub_digits_dollar match_digits_dollar].
  destruct (is_digit c).
  - destruct (at_dollar (skip_digits s)).
    + by apply skip_digits_keeps.
    + simpl. rewrite Hc. auto.
  - simpl. rewrite Hc. auto.
Qed.

Lemma sub_digits_dollar_digits (s : string) :
  str_forallb not_newline s = true ->
  str_forallb is_digit (sub_digits_dollar s) = true ->
  str_forallb is_digit s = true.
Proof.
  induction s as [|c s IH]; [done|].
  intros Hnl. rewrite sub_digits_dollar_cons by done.
  destruct (str_forallb is_digit (String c s)) eqn:Hall; [done|].
  simpl. intros [Hc Hs]%andb_true_iff.
  simpl in Hnl. apply andb_true_iff in Hnl as [_ Hnl].
  simpl in Hall. rewrite Hc, (IH Hnl Hs) in Hall. done.
Qed.

Lemma sub_digits_dollar_idem (s : string) :
  str_forallb not_newline s = true ->
  sub_digits_dollar (sub_digits_dollar s) = sub_digits_dollar s.
Proof.
  induction s as [|c s IH]; [done|].
  intros Hnl. rewrite (sub_digits_dollar_cons c s) by done.
  destruct (str_forallb is_digit (String c s)) eqn:Hall; [done|].
  pose proof Hnl as Hnl'. simpl in Hnl'. apply andb_true_iff in Hnl' as [Hc Hs].
  rewrite sub_digits_dollar_cons.
  - destruct (str_forallb is_digit (String c (sub_digits_dollar s))) eqn:Hall'.
    + simpl in Hall'. apply andb_true_iff in Hall' as [Hd Hrest].
      simpl in Hall. rewrite Hd, (sub_digits_dollar_digits s Hs Hrest) in Hall. done.
    + rewrite IH by done. reflexivity.
  - simpl. rewrite Hc. by apply sub_digits_dollar_keeps.
Qed.

Lemma lower_keeps_no_newline (s : string) :
  str_forallb not_newline s = true -> str_forallb not_newline (lower s) = true.
Proof.
  induction s as [|c s IH]; simpl; [done|].
  intros [Hc Hs]%andb_true_iff. unfold not_newline at 1.
  rewrite lower_char_newline. fold (not_newline c). rewrite Hc. auto.
Qed.

(** X2: on every username without a newline character the username
    normaliser is idempotent. *)
Lemma normalize_username_idempotent_no_newline (s : string) :
  str_forallb not_newline s = true ->
  _normalize_username (_normalize_username s) = _normalize_username s.
Proof.
  intros Hnl. destruct s as [|c s]; [reflexivity|].
  unfold _normalize_username at 2 3. cbn [truthy negb].
  set (x := sub_separators (lower (String c s))).
  assert (Hx : str_forallb not_newline x = true).
  { apply str_forallb_filter_keeps. by apply lower_keeps_no_newline. }
  assert (Hlow : str_forallb is_lowered (sub_digits_dollar x) = true).
  { apply sub_digits_dollar_keeps, str_forallb_filter_keeps, lower_is_lowered. }
  assert (Hsep : str_forallb not_separator (sub_digits_dollar x) = true).
  { apply sub_digits_dollar_keeps. apply (str_forallb_filter not_separator). }
  unfold _normalize_username.
  destruct (truthy (sub_digits_dollar x)) eqn:Hr.
  - cbn [negb]. rewrite (lower_fixed _ Hlow).
    unfold sub_separators.
    rewrite (str_filter_id_on _ _ Hsep).
    by apply sub_digits_dollar_idem.
  - destruct (sub_digits_dollar x); [reflexivity | discriminate].
Qed.

Lemma normalize_username_idempotent_no_newline_witness :
  _normalize_username (_normalize_username "Jane.Doe_2024")
  = _normalize_username "Jane.Doe_2024".
Proof.
  apply (normalize_username_idempotent_no_newline "Jane.Doe_2024"). reflexivity.
Defined.

Definition newline : ascii := ascii_of_N 10.

(** The username "a1\n2": a digit, a newline, a digit. *)
Definition username_with_newline : string :=
  String "a" (String "1" (String newline (String "2" EmptyString))).

(** C5 (username half, on the code): one pass over "a1\n2" removes the
    final "2" and leaves "a1\n"; a second pass removes the "1" in front of
    the final newline and leaves "a\n".  So
    [normalize(normalize(s)) <> normalize(s)] for this [s]. *)
Theorem normalize_username_not_idempotent :
  _normalize_username username_with_newline
    = String "a" (String "1" (String newline EmptyString))
  /\ _normalize_username (_normalize_username username_with_newline)
    = String "a" (String newline EmptyString)
  /\ _normalize_username (_normalize_username username_with_newline)
    <> _normalize_username username_with_newline.
Proof.
  split; [reflexivity|]. split; [reflexivity|].
  vm_compute. discriminate.
Qed.

End NormalizerFacts.

(** ** Signals: timing and behaviour *)
Section SignalFacts.
Import Text Analyzer Signals Correlator.

(** As the module is written, with [timedelta] unbound, the timing
    signal of two profiles that both have a post time raises
    [NameError]. *)
Lemma timing_correlation_as_written (t1 t2 : Z) (times1 times2 : list Z) :
  _calculate_timing_correlation module_globals (t1 :: times1) (t2 :: times2)
  = Raise (NameError "timedelta").
Proof. reflexivity. Qed.

Definition two_hours : Z := datetime_timedelta 2.

(** The temporal co-occurrence score in the words of the specification
    (section 4.3), for comparison with the code: the number of post
    pairs within two hours over the smaller post count. *)
Definition spec_synchronized_pairs (times1 times2 : list Z) : nat :=
  length (filter (fun p => within two_hours p.1 p.2 = true) (list_prod times1 times2)).

Definition spec_temporal_score (times1 times2 : list Z) : Q :=
  (inject_Z (Z.of_nat (spec_synchronized_pairs times1 times2))
   / inject_Z (Z.of_nat (Nat.min (length times1) (length times2))))%Q.

(** A batch of two profiles: the first posts twice within a second, the
    second posts once at the same time and once a hundred hours later. *)
Definition post_at (t : Z) : post :=
  {| caption := None; content := None; date := DateAt t |}.

Definition profile_a : profile_data :=
  {| platform := Some "instagram"; profile_of := None;
     posts := Some [post_at 0; post_at 1000000] |}.

Definition profile_b : profile_data :=
  {| platform := Some "twitter"; profile_of := None;
     posts := Some [post_at 0; post_at 360000000000] |}.

(** C9 (on the code as it is written): the module never binds
    [timedelta], so the timing signal of two profiles that both have a
    post with a parseable timestamp is no number: the call raises
    [NameError], and so does the timing analysis of a batch of two such
    profiles.  For the post times of [profile_a] and [profile_b] the
    formula of the specification gives 1, two pairs within two hours
    over two posts.  The only value the signal returns is 0, when one of the
    profiles has no post time. *)
Theorem timing_signal_raises_name_error :
  (forall t1 times1 t2 times2,
     _calculate_timing_correlation module_globals (t1 :: times1) (t2 :: times2)
     = Raise (NameError "timedelta"))
  /\ (forall times,
        _calculate_timing_correlation module_globals [] times = Ok 0%Q
        /\ _calculate_timing_correlation module_globals times [] = Ok 0%Q)
  /\ _calculate_timing_correlation module_globals [0%Z; 1000000%Z] [0%Z; 360000000000%Z]
     = Raise (NameError "timedelta")
  /\ (spec_temporal_score [0%Z; 1000000%Z] [0%Z; 360000000000%Z] == 1)%Q
  /\ analyze_timing_correlation module_globals [profile_a; profile_b]
     = Raise (NameError "timedelta").
Proof.
  split; [reflexivity|]. split.
  { intros times. split; [reflexivity|]. by destruct times. }
  split; [reflexivity|]. split; reflexivity.
Qed.

(** The score computed from the timing analysis alone, stored under the
    key [timing_correlation] of [all_analyses]. *)
Definition timing_only (r : timing_result) : all_analyses :=
  {| cross_platform_matches := None; writing_style := None;
     behavioral_correlation := None; content_overlap := None;
     timing_analysis := Some (timing_correlations r) |}.

Definition confidence_from_timing (g : globals) (profiles_data : list profile_data)
    : result Q :=
  match analyze_timing_correlation g profiles_data with
  | Ok r => Ok (overall_confidence (generate_identity_confidence_score (timing_only r)))
  | Raise e => Raise e
  end.

(** C1 (on the code): swapping the two profiles changes the timing
    signal (1 against 2 for one post facing two), the username
    similarity ("tide" against "diet": 1/4 one way, 1/2 the other) and the
    confidence computed from the timing analysis of the batch (0.6 one
    way, 0 the other). *)
Theorem confidence_not_symmetric :
  _calculate_timing_correlation with_timedelta [0%Z] [0%Z; 1000000%Z] = Ok 1%Q
  /\ _calculate_timing_correlation with_timedelta [0%Z; 1000000%Z] [0%Z] = Ok 2%Q
  /\ (_calculate_username_similarity "tide" "diet" == 1 # 4)%Q
  /\ (_calculate_username_similarity "diet" "tide" == 1 # 2)%Q
  /\ confidence_from_timing with_timedelta [profile_a; profile_b] = Ok (6 # 10)%Q
  /\ confidence_from_timing with_timedelta [profile_b; profile_a] = Ok 0%Q.
Proof. repeat split; vm_compute; reflexivity. Qed.

Definition behavior_of (hour day len : Q) : gmap string Q :=
  <["most_active_hour" := hour]>
    (<["most_active_day" := day]> (<["avg_content_length" := len]> ∅)).

(** C2 (on the code): a profile most active at hour 0 on a Monday with
    empty posts against one most active at hour 23 on a Sunday with posts
    of 100 characters has behavioural correlation -11/36, and two posts
    facing one synchronized post have timing correlation 2. *)
Theorem signal_scores_leave_unit_interval :
  (_calculate_behavioral_correlation (behavior_of 0 0 0) (behavior_of 23 6 100)
   == - (11 # 36))%Q
  /\ (_calculate_behavioral_correlation (behavior_of 0 0 0) (behavior_of 23 6 100) < 0)%Q
  /\ _calculate_timing_correlation with_timedelta [0%Z; 1000000%Z] [0%Z] = Ok 2%Q
  /\ (1 < 2)%Q.
Proof. repeat split; vm_compute; reflexivity. Qed.

End SignalFacts.

(** ** The confidence score *)
Section FusionFacts.
Import Text Analyzer Signals.

(** The five indicators of [generate_identity_confidence_score], with the
    constant each one adds to [confidence_factors]. *)
Inductive indicator : Type :=
  | UsernameMatch | WritingStyle | BehavioralPattern | ContentOverlap | TimingPattern.

#[local] Instance indicator_eq_dec : EqDecision indicator.
Proof. solve_decision. Defined.

Definition indicators : list indicator :=
  [UsernameMatch; WritingStyle; BehavioralPattern; ContentOverlap; TimingPattern].

Definition constant_of (k : indicator) : Q :=
  match k with
  | UsernameMatch => 9 # 10
  | WritingStyle => 8 # 10
  | BehavioralPattern => 7 # 10
  | ContentOverlap => 85 # 100
  | TimingPattern => 6 # 10
  end.

Definition name_of (k : indicator) : string :=
  match k with
  | UsernameMatch => "username_match"
  | WritingStyle => "writing_style"
  | BehavioralPattern => "behavioral_pattern"
  | ContentOverlap => "content_overlap"
  | TimingPattern => "timing_pattern"
  end.

Definition non_empty {A : Type} (entry : option (list A)) : bool :=
  match entry with
  | Some (_ :: _) => true
  | _ => false
  end.

(** An indicator matched: its analysis is in [all_analyses] and lists at
    least one match (for the username indicator, one match of type
    [username]). *)
Definition matched (a : all_analyses) (k : indicator) : bool :=
  match k with
  | UsernameMatch =>
      match cross_platform_matches a with
      | Some l => existsb is_username_match l
      | None => false
      end
  | WritingStyle => non_empty (writing_style a)
  | BehavioralPattern => non_empty (behavioral_correlation a)
  | ContentOverlap => non_empty (content_overlap a)
  | TimingPattern => non_empty (timing_analysis a)
  end.

Definition matched_indicators (a : all_analyses) : list indicator :=
  filter (fun k => matched a k = true) indicators.

(** [_get_likelihood_label] reads its argument on the scale 0..1. *)
Definition band_of (q : Q) (l : likelihood) : Prop :=
  match l with
  | VeryHigh => (8 # 10 <= q)%Q
  | High => (6 # 10 <= q)%Q /\ (q < 8 # 10)%Q
  | Medium => (4 # 10 <= q)%Q /\ (q < 6 # 10)%Q
  | Low => (2 # 10 <= q)%Q /\ (q < 4 # 10)%Q
  | VeryLow => (q < 2 # 10)%Q
  end.

Lemma Qleb_false (a b : Q) : Qleb a b = false -> (b < a)%Q.
Proof.
  unfold Qleb. intros H. apply Qnot_le_lt. intros Hle.
  apply Qle_bool_iff in Hle. congruence.
Qed.

Lemma likelihood_label_band (q : Q) : band_of q (_get_likelihood_label q).
Proof.
  unfold _get_likelihood_label.
  destruct (Qleb (8 # 10) q) eqn:H8; [by apply Qle_bool_iff|].
  destruct (Qleb (6 # 10) q) eqn:H6; [split; [by apply Qle_bool_iff | by apply Qleb_false]|].
  destruct (Qleb (4 # 10) q) eqn:H4; [split; [by apply Qle_bool_iff | by apply Qleb_false]|].
  destruct (Qleb (2 # 10) q) eqn:H2; [split; [by apply Qle_bool_iff | by apply Qleb_false]|].
  by apply Qleb_false.
Qed.

Lemma factor_if_non_empty {A : Type} (entry : option (list A)) (name : string) (w : Q) :
  factor_if entry name w = if non_empty entry then [(name, w)] else [].
Proof. destruct entry as [[|x l]|]; reflexivity. Qed.

Lemma filter_length_existsb {A : Type} (p : A -> bool) (l : list A) :
  (0 <? length (filter (fun x => p x = true) l))%nat = existsb p l.
Proof.
  induction l as [|x l IH]; [done|].
  rewrite filter_cons. simpl. case_decide as Hp.
  - rewrite Hp. reflexivity.
  - apply not_true_is_false in Hp. rewrite Hp. apply IH.
Qed.

Lemma factor_if_username (a : all_analyses) :
  factor_if (filter (fun m => is_username_match m = true) <$> cross_platform_matches a)
    "username_match" (9 # 10)
  = if matched a UsernameMatch then [("username_match", (9 # 10)%Q)] else [].
Proof.
  unfold factor_if, matched. destruct (cross_platform_matches a) as [l|]; [|done].
  simpl. rewrite filter_length_existsb. reflexivity.
Qed.

(** The factors are the matched indicators, in the order of the source,
    each with its constant. *)
Lemma collect_factors_spec (a : all_analyses) :
  collect_factors a = map (fun k => (name_of k, constant_of k)) (matched_indicators a).
Proof.
  unfold collect_factors, matched_indicators, indicators.
  rewrite factor_if_username, !factor_if_non_empty.
  change (non_empty (writing_style a)) with (matched a WritingStyle).
  change (non_empty (behavioral_correlation a)) with (matched a BehavioralPattern).
  change (non_empty (content_overlap a)) with (matched a ContentOverlap).
  change (non_empty (timing_analysis a)) with (matched a TimingPattern).
  rewrite !filter_cons, filter_nil.
  destruct (matched a UsernameMatch), (matched a WritingStyle),
    (matched a BehavioralPattern), (matched a ContentOverlap),
    (matched a TimingPattern); reflexivity.
Qed.

(** The score as a function of the matched indicators alone. *)
Definition mean_of_constants (ks : list indicator) : Q :=
  match ks with
  | [] => 0%Q
  | _ => (Qsum (map constant_of ks) / inject_Z (Z.of_nat (length ks)))%Q
  end.

Lemma overall_confidence_spec (a : all_analyses) :
  overall_confidence (generate_identity_confidence_score a)
  = mean_of_constants (matched_indicators a).
Proof.
  unfold generate_identity_confidence_score. cbn [overall_confidence].
  rewrite collect_factors_spec. unfold mean_of_constants.
  destruct (matched_indicators a) as [|k ks]; [reflexivity|].
  rewrite map_map, length_map. reflexivity.
Qed.

(** The fusion in the words of the specification (section 4.5), for
    comparison with the code: the weighted average of the computed
    scores, the weights renormalised over them, on the scale 0..100, and
    its bands. *)
Definition spec_fusion (signals : list (Q * Q)) : Q :=
  (100 * (Qsum (map (fun ws => ws.1 * ws.2) signals) / Qsum (map fst signals)))%Q.

Definition spec_band (confidence : Q) : likelihood :=
  if Qleb 80 confidence then VeryHigh
  else if Qleb 60 confidence then High
  else if Qleb 40 confidence then Medium
  else if Qleb 20 confidence then Low
  else VeryLow.

(** One writing-style match of similarity 0.75 and nothing else. *)
Definition style_only : all_analyses :=
  {| cross_platform_matches := None;
     writing_style :=
       Some [{| s_profile1 := "instagram"; s_profile2 := "twitter";
                similarity_score := 3 # 4 |}];
     behavioral_correlation := None; content_overlap := None;
     timing_analysis := None |}.

(** The computed signals of [style_only]: one signal of score 0.75,
    whose renormalised weight is 1. *)
Definition style_only_signals : list (Q * Q) := [(1%Q, (3 # 4)%Q)].

(** With one computed signal of score 0.75 the weighted average is 75 and
    its band is high; the code answers 0.8 and "Very High". *)
Lemma confidence_is_not_weighted_average :
  (overall_confidence (generate_identity_confidence_score style_only) == 8 # 10)%Q
  /\ identity_likelihood (generate_identity_confidence_score style_only) = VeryHigh
  /\ (spec_fusion style_only_signals == 75)%Q
  /\ spec_band (spec_fusion style_only_signals) = High
  /\ ~ (overall_confidence (generate_identity_confidence_score style_only)
        == spec_fusion style_only_signals)%Q.
Proof.
  repeat split; try (vm_compute; reflexivity). vm_compute. discriminate.
Qed.

Ltac split_matched a :=
  destruct (matched a UsernameMatch), (matched a WritingStyle),
    (matched a BehavioralPattern), (matched a ContentOverlap),
    (matched a TimingPattern).

Lemma matched_indicators_unfold (a : all_analyses) :
  matched_indicators a =
  (if matched a UsernameMatch then [UsernameMatch] else [])
  ++ (if matched a WritingStyle then [WritingStyle] else [])
  ++ (if matched a BehavioralPattern then [BehavioralPattern] else [])
  ++ (if matched a ContentOverlap then [ContentOverlap] else [])
  ++ (if matched a TimingPattern then [TimingPattern] else []).
Proof.
  unfold matched_indicators, indicators. rewrite !filter_cons, filter_nil.
  split_matched a; reflexivity.
Qed.

Lemma mean_of_constants_bounds (a : all_analyses) :
  (0 <= mean_of_constants (matched_indicators a) <= 9 # 10)%Q.
Proof.
  rewrite matched_indicators_unfold.
  split_matched a; split; vm_compute; discriminate.
Qed.

(** C3 (as the code computes it): the factors are the matched indicators
    with their fixed constants (username 0.9, writing style 0.8, behaviour
    0.7, content overlap 0.85, timing 0.6); the overall confidence is the
    plain mean of those constants, 0 when nothing matched, a value
    between 0 and 0.9 on the scale 0..1; the label is read on that scale:
    Very High from 0.8, High from 0.6, Medium from 0.4, Low from 0.2, else
    Very Low. *)
Theorem confidence_is_mean_of_matched_constants (a : all_analyses) :
  confidence_factors (generate_identity_confidence_score a)
  = map (fun k => (name_of k, constant_of k)) (matched_indicators a)
  /\ overall_confidence (generate_identity_confidence_score a)
     = mean_of_constants (matched_indicators a)
  /\ matching_indicators (generate_identity_confidence_score a)
     = length (matched_indicators a)
  /\ (0 <= overall_confidence (generate_identity_confidence_score a) <= 9 # 10)%Q
  /\ band_of (overall_confidence (generate_identity_confidence_score a))
       (identity_likelihood (generate_identity_confidence_score a)).
Proof.
  split; [apply collect_factors_spec|].
  split; [apply overall_confidence_spec|].
  split.
  { unfold generate_identity_confidence_score. cbn [matching_indicators].
    rewrite collect_factors_spec, length_map. reflexivity. }
  split.
  { rewrite overall_confidence_spec. apply mean_of_constants_bounds. }
  apply likelihood_label_band.
Qed.








End FusionFacts.

(** ** Blocking and consolidation *)
Section BlockingFacts.
Import Text Normalizer Hashlib Analyzer.

Definition profile_named (user name : string) : profile :=
  {| username := Some user; display_name := Some name; full_name := None;
     biography := None; description := None |}.

Definition record_of (site user name : string) : profile_data :=
  {| platform := Some site; profile_of := Some (profile_named user name);
     posts := None |}.

(** Two unrelated records whose display names are punctuation only. *)
Definition alice : profile_data := record_of "instagram" "alice" "!!!".
Definition bob : profile_data := record_of "twitter" "bob" "???".

(** C6 (on the code): both display names normalise to the empty key, the
    name pass files both records under it, and the pair comes out as a
    display-name match with identifier "" and as one consolidated user. *)
Theorem empty_name_key_blocks_together :
  _normalize_name "!!!" = ""
  /\ _normalize_name "???" = ""
  /\ name_groups (build_groups [alice; bob])
     = [("", [("instagram", alice); ("twitter", bob)])]
  /\ find_matches [alice; bob]
     = [{| m_type := MDisplayName; m_confidence := 7 # 10;
           m_profiles := [("instagram", alice); ("twitter", bob)];
           m_identifier := "" |}]
  /\ (cross_platform_users <$> result_value (find_cross_platform_accounts [alice; bob]))
     = Some [{| user_id := "481299d5";
                u_platforms := ["instagram"; "twitter"];
                u_profiles := [("instagram", alice); ("twitter", bob)];
                match_confidence := 7 # 10;
                u_match_type := MDisplayName |}].
Proof. repeat split; vm_compute; reflexivity. Qed.

(** The scan of [sub_tokens_from] ends within [length s] steps. *)
Lemma skip_while_length (p : ascii -> bool) (s : string) :
  String.length (skip_while p s) <= String.length s.
Proof.
  induction s as [|c s IH]; simpl; [lia|]. destruct (p c); simpl; lia.
Qed.

Lemma match_http_shorter (s r : string) :
  match_http s = Some r -> String.length r < String.length s.
Proof.
  unfold match_http.
  destruct s as [|c1 [|c2 [|c3 [|c4 [|c s5]]]]]; try discriminate.
  destruct (Ascii.eqb c1 "h" && Ascii.eqb c2 "t" && Ascii.eqb c3 "t" && Ascii.eqb c4 "p"
            && non_space c); [|discriminate].
  intros H. injection H as <-. pose proof (skip_while_length non_space s5). simpl. lia.
Qed.

Lemma match_sigil_shorter (sigil : ascii) (s r : string) :
  match_sigil sigil s = Some r -> String.length r < String.length s.
Proof.
  unfold match_sigil. destruct s as [|c1 [|c s2]]; try discriminate.
  destruct (Ascii.eqb c1 sigil && is_word c); [|discriminate].
  intros H. injection H as <-. pose proof (skip_while_length is_word s2). simpl. lia.
Qed.

Lemma match_token_shorter (s r : string) :
  match_token s = Some r -> String.length r < String.length s.
Proof.
  unfold match_token.
  destruct (match_http s) as [r1|] eqn:Hhttp.
  { intros H. injection H as <-. by apply match_http_shorter. }
  destruct (match_sigil "@" s) as [r2|] eqn:Hat.
  { intros H. injection H as <-. by apply (match_sigil_shorter "@"%char). }
  apply match_sigil_shorter.
Qed.

Lemma sub_tokens_from_fuel (fuel : nat) :
  forall (fuel' : nat) (s : string),
    String.length s <= fuel -> String.length s <= fuel' ->
    sub_tokens_from fuel s = sub_tokens_from fuel' s.
Proof.
  induction fuel as [|fuel IH]; intros fuel' s Hf Hf'.
  - destruct s; [|simpl in Hf; lia]. destruct fuel'; reflexivity.
  - destruct s as [|c s]; [destruct fuel'; reflexivity|].
    destruct fuel' as [|fuel']; [simpl in Hf'; lia|].
    cbn [sub_tokens_from].
    destruct (match_token (String c s)) as [r|] eqn:Hm.
    + apply match_token_shorter in Hm. simpl in *. apply IH; lia.
    + f_equal. simpl in *. apply IH; lia.
Qed.

Lemma sub_tokens_fuel (fuel : nat) (s : string) :
  String.length s <= fuel -> sub_tokens_from fuel s = sub_tokens s.
Proof. intros H. unfold sub_tokens. by apply sub_tokens_from_fuel. Qed.

(** The username pass: every key it files a record under is non-empty. *)
Definition keys_truthy (gs : list (string * list (string * profile_data))) : Prop :=
  Forall (fun kv => truthy kv.1 = true) gs.

Lemma group_append_keys (key : string) (v : string * profile_data)
    (gs : list (string * list (string * profile_data))) :
  truthy key = true -> keys_truthy gs -> keys_truthy (group_append key v gs).
Proof.
  intros Hk. induction 1 as [|[k vs] gs Hkv Hgs IH]; simpl.
  - by repeat constructor.
  - destruct (String.eqb k key); constructor; done.
Qed.

Lemma build_groups_username_keys (profiles_data : list profile_data) :
  keys_truthy (username_groups (build_groups profiles_data)).
Proof.
  unfold build_groups.
  assert (H : forall g, keys_truthy (username_groups g) ->
            keys_truthy (username_groups (fold_left group_step profiles_data g))).
  { induction profiles_data as [|pd rest IH]; intros g Hg; simpl; [done|].
    apply IH. unfold group_step. cbn [username_groups].
    destruct (truthy (_normalize_username _)) eqn:Hk; [|done].
    by apply group_append_keys. }
  apply H. constructor.
Qed.

Lemma group_matches_elem (t : match_type) (conf : Q)
    (gs : list (string * list (string * profile_data))) (m : match_entry) :
  m ∈ group_matches t conf gs ->
  m_type m = t /\ exists kv, kv ∈ gs /\ m_identifier m = kv.1 /\ m_profiles m = kv.2.
Proof.
  unfold group_matches. rewrite list_elem_of_In, in_flat_map.
  intros [kv [Hkv Hm]]. destruct (1 <? length kv.2)%nat; [|done].
  destruct Hm as [<-|[]]. split; [done|]. exists kv.
  rewrite list_elem_of_In. done.
Qed.

(** X4: blocking on usernames never uses the empty key: a username
    match always has a non-empty identifier. *)
Lemma username_match_key_not_empty (profiles_data : list profile_data) (m : match_entry) :
  m ∈ find_matches profiles_data -> m_type m = MUsername -> m_identifier m <> "".
Proof.
  unfold find_matches. rewrite !elem_of_app.
  intros [H|[H|H]] Ht; apply group_matches_elem in H as [Ht' [kv (Hkv & Hid & _)]];
    try congruence.
  pose proof (build_groups_username_keys profiles_data) as Hkeys.
  unfold keys_truthy in Hkeys. rewrite Forall_forall in Hkeys.
  specialize (Hkeys kv Hkv). rewrite Hid. by destruct kv.1.
Qed.

(** Three records: the first two share the username "jane", the last
    two share the display name "jd". *)
Definition jane_instagram : profile_data := record_of "instagram" "jane" "Jane Doe".
Definition jane_twitter : profile_data := record_of "twitter" "Jane" "JD".
Definition jd_youtube : profile_data := record_of "youtube" "jdtube" "jd".

Definition jane_batch : list profile_data := [jane_instagram; jane_twitter; jd_youtube].

Definition jane_users : list user_entry :=
  default [] (result_value (_consolidate_matches (find_matches jane_batch))).

Definition jane_username_match : match_entry :=
  {| m_type := MUsername; m_confidence := 9 # 10;
     m_profiles := [("instagram", jane_instagram); ("twitter", jane_twitter)];
     m_identifier := "jane" |}.

Lemma username_match_key_not_empty_witness : m_identifier jane_username_match <> "".
Proof.
  apply (username_match_key_not_empty jane_batch jane_username_match).
  - vm_compute. apply list_elem_of_here.
  - reflexivity.
Defined.

(** Some emitted entry covers every platform of [sites]. *)
Definition together (users : list user_entry) (sites : list string) : bool :=
  existsb (fun u => forallb (fun site => bool_decide (site ∈ u_platforms u)) sites) users.

(** The pair (instagram, twitter) matches with confidence 0.9 and the
    pair (twitter, youtube) with 0.7, both above the floor 0.4 of the
    medium band; the consolidation emits the two pairs as two entries and
    no entry holds all three records. *)
Lemma chained_matches_are_not_merged :
  map (fun m => (m_type m, map fst (m_profiles m), m_confidence m)) (find_matches jane_batch)
  = [(MUsername, ["instagram"; "twitter"], (9 # 10)%Q);
     (MDisplayName, ["twitter"; "youtube"], (7 # 10)%Q)]
  /\ (4 # 10 <= 7 # 10)%Q
  /\ _consolidate_matches (find_matches jane_batch) = Ok jane_users
  /\ map u_platforms jane_users = [["instagram"; "twitter"]; ["twitter"; "youtube"]]
  /\ together jane_users ["instagram"; "twitter"; "youtube"] = false.
Proof.
  split; [vm_compute; reflexivity|].
  split; [vm_compute; discriminate|].
  repeat split; vm_compute; reflexivity.
Qed.

(** The entry [_consolidate_matches] appends for a match whose key is
    new. *)
Definition entry_of (m : match_entry) (key : list string) : user_entry :=
  {| user_id := String.substring 0 8 (md5_hexdigest (str_of_tuple key));
     u_platforms := map fst (m_profiles m);
     u_profiles := m_profiles m;
     match_confidence := m_confidence m;
     u_match_type := m_type m |}.

(** The sorted tuple of "platform:username" keys of an emitted entry. *)
Definition user_key (u : user_entry) : result (list string) :=
  match member_keys (u_profiles u) with
  | Raise e => Raise e
  | Ok ks => Ok (sorted ks)
  end.

Lemma user_key_entry_of (m : match_entry) (key : list string) :
  user_key (entry_of m key) = profile_key m.
Proof. reflexivity. Qed.

#[local] Instance Ok_inj {A : Type} : Inj (=) (=) (@Ok A).
Proof. intros x y H. by injection H. Qed.

Lemma consolidate_loop_spec (ms : list match_entry) :
  forall (c : list user_entry) (p : gset (list string)) (users : list user_entry)
         (ks : list (list string)),
    consolidate_loop ms c p = Ok users ->
    map user_key c = map Ok ks ->
    NoDup ks ->
    (forall k, k ∈ p <-> k ∈ ks) ->
    exists ks',
      map user_key users = map Ok ks'
      /\ NoDup ks'
      /\ (forall u, u ∈ users ->
            u ∈ c \/ exists m k, m ∈ ms /\ profile_key m = Ok k /\ u = entry_of m k)
      /\ (forall m, m ∈ ms -> exists k, profile_key m = Ok k /\ k ∈ ks')
      /\ (forall k, k ∈ ks -> k ∈ ks').
Proof.
  induction ms as [|m ms IH]; intros c p users ks Hrun Hc Hnd Hp.
  - simpl in Hrun. injection Hrun as <-. exists ks.
    repeat split; auto. intros m Hm. by apply elem_of_nil in Hm.
  - cbn [consolidate_loop] in Hrun.
    destruct (profile_key m) as [key|e] eqn:Hkey; [|discriminate].
    destruct (decide (key ∈ p)) as [Hin|Hnin].
    + destruct (IH c p users ks Hrun Hc Hnd Hp) as (ks' & H1 & H2 & H3 & H4 & H5).
      exists ks'. repeat split; auto.
      * intros u Hu. destruct (H3 u Hu) as [?|(m' & k & Hm' & Hk & ->)]; [by left|].
        right. exists m', k. split; [by apply elem_of_cons; right | done].
      * intros m' [-> | Hm']%elem_of_cons; [|by apply H4].
        exists key. split; [done|]. apply H5, Hp, Hin.
    + destruct (IH (c ++ [entry_of m key]) ({[ key ]} ∪ p) users (ks ++ [key]) Hrun)
        as (ks' & H1 & H2 & H3 & H4 & H5).
      * rewrite !map_app, Hc. simpl. rewrite user_key_entry_of, Hkey. done.
      * apply NoDup_app. split; [done|]. split; [|apply NoDup_singleton].
        intros k Hk ->%list_elem_of_singleton. apply Hnin, Hp, Hk.
      * intros k. rewrite elem_of_union, elem_of_singleton, elem_of_app,
          list_elem_of_singleton, Hp. tauto.
      * exists ks'. repeat split; auto.
        -- intros u Hu. destruct (H3 u Hu) as [Hu'|(m' & k & Hm' & Hk & ->)].
           ++ apply elem_of_app in Hu' as [? | ->%list_elem_of_singleton]; [by left|].
              right. exists m, key. split; [by apply elem_of_cons; left | done].
           ++ right. exists m', k. split; [by apply elem_of_cons; right | done].
        -- intros m' [-> | Hm']%elem_of_cons; [|by apply H4].
           exists key. split; [done|]. apply H5, elem_of_app. right.
           by apply list_elem_of_singleton.
        -- intros k Hk. apply H5, elem_of_app. by left.
Qed.

(** C8 (as the code consolidates): every emitted entry is one input
    match, with the profile list, platforms, confidence and type of that
    match unchanged; every match is represented by an entry with the same
    sorted tuple of "platform:username" keys; and no two entries have the
    same tuple.  Matches are deduplicated by member set, never merged. *)
Theorem consolidation_deduplicates_matches (ms : list match_entry) (users : list user_entry) :
  _consolidate_matches ms = Ok users ->
  (forall u, u ∈ users ->
     exists m, m ∈ ms /\ u_profiles u = m_profiles m
               /\ u_platforms u = map fst (m_profiles m)
               /\ match_confidence u = m_confidence m /\ u_match_type u = m_type m)
  /\ (forall m, m ∈ ms -> exists u, u ∈ users /\ user_key u = profile_key m)
  /\ NoDup (map user_key users).
Proof.
  intros Hrun. unfold _consolidate_matches in Hrun.
  destruct (consolidate_loop_spec ms [] ∅ users [] Hrun)
    as (ks' & H1 & H2 & H3 & H4 & _); [done | constructor | set_solver |].
  split; [|split].
  - intros u Hu. destruct (H3 u Hu) as [Hnil|(m & k & Hm & _ & ->)].
    + by apply elem_of_nil in Hnil.
    + exists m. done.
  - intros m Hm. destruct (H4 m Hm) as (k & Hk & Hin).
    assert (Hin' : Ok k ∈ map user_key users).
    { rewrite H1. apply list_elem_of_fmap. by exists k. }
    apply list_elem_of_fmap in Hin' as (u & Hu & Huin).
    exists u. split; [done|]. congruence.
  - rewrite H1. by apply NoDup_fmap_2; [apply _|].
Qed.

Lemma consolidation_deduplicates_matches_witness :
  (forall u, u ∈ jane_users ->
     exists m, m ∈ find_matches jane_batch /\ u_profiles u = m_profiles m
               /\ u_platforms u = map fst (m_profiles m)
               /\ match_confidence u = m_confidence m /\ u_match_type u = m_type m)
  /\ (forall m, m ∈ find_matches jane_batch ->
        exists u, u ∈ jane_users /\ user_key u = profile_key m)
  /\ NoDup (map user_key jane_users).
Proof.
  apply (consolidation_deduplicates_matches (find_matches jane_batch) jane_users).
  vm_compute. reflexivity.
Defined.

End BlockingFacts.

(** ** Variation generators *)
Section VariationFacts.
Import Text Analyzer Correlator Discovery.

Lemma length_flat_map_const {A B : Type} (f : A -> list B) (n : nat) (l : list A) :
  (forall x, length (f x) = n) -> length (flat_map f l) = (n * length l)%nat.
Proof.
  intros Hf. induction l as [|x l IH]; simpl; [lia|].
  rewrite length_app, Hf, IH. lia.
Qed.

Lemma raw_variations_length (username : string) :
  length (raw_variations username) = 423%nat.
Proof.
  unfold raw_variations. rewrite !length_app.
  rewrite (length_flat_map_const _ 4) by done.
  rewrite (length_flat_map_const _ 3) by done.
  reflexivity.
Qed.

Lemma list_of_set_NoDup (xs : list string) : NoDup (list_of_set xs).
Proof. unfold list_of_set. apply NoDup_elements. Qed.

Lemma list_of_set_length (xs : list string) : length (list_of_set xs) <= length xs.
Proof.
  apply submseteq_length, NoDup_submseteq; [apply list_of_set_NoDup|].
  intros x. unfold list_of_set. rewrite elem_of_elements, elem_of_list_to_set. done.
Qed.

Lemma list_of_set_elem (xs : list string) (x : string) : x ∈ list_of_set xs <-> x ∈ xs.
Proof. unfold list_of_set. rewrite elem_of_elements, elem_of_list_to_set. done. Qed.

(** The correlator's generator on the seed "a": 422 distinct
    candidates. *)
Lemma correlator_variations_exceed_cap :
  length (_generate_username_variations "a") = 422%nat
  /\ ~ (length (_generate_username_variations "a") <= 100).
Proof.
  assert (H : length (_generate_username_variations "a") = 422%nat)
    by (vm_compute; reflexivity).
  split; [done|]. rewrite H. lia.
Qed.

(** C7 (as the two generators are written): both return a list without
    duplicates; the list of [AdvancedDiscovery.generate_username_variations]
    has at most 100 entries, whatever the case mappings, the year and the
    optional names are; the list of
    [CrossPlatformCorrelator._generate_username_variations] is not cut and
    has at most 423 entries. *)
Theorem variations_are_distinct_and_bounded
    (upper capitalize : string -> string) (current_year : nat)
    (seed : string) (first_name last_name : option string) :
  NoDup (generate_username_variations upper capitalize current_year seed first_name last_name)
  /\ length (generate_username_variations upper capitalize current_year seed
               first_name last_name) <= 100
  /\ NoDup (_generate_username_variations seed)
  /\ length (_generate_username_variations seed) <= 423.
Proof.
  split; [|split; [|split]].
  - unfold generate_username_variations.
    eapply sublist_NoDup; [|apply sublist_take].
    unfold sorted. rewrite merge_sort_Permutation. apply NoDup_elements.
  - unfold generate_username_variations. rewrite length_take. lia.
  - apply list_of_set_NoDup.
  - unfold _generate_username_variations.
    rewrite <- (raw_variations_length seed). apply list_of_set_length.
Qed.

End VariationFacts.

(** ** correlate_accounts *)
Section CorrelatorFacts.
Import Text Analyzer Signals Correlator.

(** The entry the loop stores for one platform. *)
Definition presence_of (fs : filesystem) (username data_dir platform : string) : presence :=
  match _load_platform_data fs platform username data_dir with
  | Ok (Some (DictDoc platform_data)) =>
      if data_truthy platform_data
      then {| found := true;
              c_profile := Some (default (ProfileDict ∅) (pd_profile platform_data));
              confidence := 100 |}
      else not_found
  | Ok (Some (OtherDoc _)) => not_found
  | Ok None => not_found
  | Raise _ => not_found
  end.

Lemma check_platform_spec (fs : filesystem) (username data_dir : string)
    (correlations : list (string * presence)) (platform : string) :
  check_platform fs username data_dir correlations platform
  = dict_set platform (presence_of fs username data_dir platform) correlations.
Proof.
  unfold check_platform, presence_of.
  destruct (_load_platform_data fs platform username data_dir) as [[[d|t]|]|e]; try done.
  destruct (data_truthy d); done.
Qed.

Lemma correlations_spec (fs : filesystem) (username data_dir : string) :
  fold_left (check_platform fs username data_dir) platforms []
  = map (fun platform => (platform, presence_of fs username data_dir platform)) platforms.
Proof.
  unfold platforms. cbn [fold_left]. rewrite !check_platform_spec. reflexivity.
Qed.


(** A data file that holds the document [{"profile": null, "posts": []}]. *)
Definition null_profile_file : data_file :=
  {| ctime := 0;
     parsed := Ok (DictDoc {| pd_profile := Some NotADict; pd_other_keys := 1 |}) |}.

(** A data directory in which [instagram] and [twitter] hold such a file
    for every username and the other three platforms have no
    directory. *)
Definition null_profiles : filesystem :=
  fun data_dir platform username =>
    if String.eqb platform "instagram" || String.eqb platform "twitter"
    then Listing [null_profile_file] else NoDirectory.

(** C10 (on the code): with data files for two platforms whose [profile]
    is [null], [correlate_accounts] returns no result for any username:
    it raises [AttributeError], although the loader raised for no
    platform.  The exception comes from [_analyze_correlations], which
    is called after the loop and outside its [try]. *)
Theorem correlate_accounts_raises_on_null_profile :
  correlate_accounts null_profiles "jane" "data" = Raise AttributeError
  /\ (forall username data_dir,
        correlate_accounts null_profiles username data_dir = Raise AttributeError)
  /\ Forall
       (fun platform =>
          exists d, _load_platform_data null_profiles platform "jane" "data" = Ok d)
       platforms.
Proof.
  split; [reflexivity|]. split; [reflexivity|].
  repeat constructor; eexists; reflexivity.
Qed.









End CorrelatorFacts.

(** ** The matcher: the bounds of a block and the fuel of the queue loop *)
Section DifflibFacts.
Import Difflib.
Variables a b : list ascii.

(** A best match inside [a[alo:n]]. *)
Definition within_a (alo n : nat) (m : best) : Prop :=
  alo <= m.1.1 /\ m.1.1 + m.2 <= n.

Lemma row_step_bounds (blo bhi : nat) (x : ascii) (alo i : nat) (bs : list ascii) :
  alo <= i ->
  forall (j old_before : nat) (old : list nat) (m : best),
    old_before <= i - alo ->
    Forall (fun k => k <= i - alo) old ->
    within_a alo (S i) m ->
    Forall (fun k => k <= S i - alo) (row_step b blo bhi x i j bs old_before old m).1
    /\ within_a alo (S i) (row_step b blo bhi x i j bs old_before old m).2.
Proof.
  intros Hi. induction bs as [|y bs IH]; intros j old_before old m Hb Hold Hm.
  - simpl. split; [constructor | done].
  - cbn [row_step].
    set (hit := Ascii.eqb y x && negb (popular b x) && (blo <=? j)%nat && (j <? bhi)%nat).
    set (k := if hit then S old_before else 0).
    set (m' := if hit && (bestsize m <? k)%nat then (S i - k, S j - k, k) else m).
    assert (Hk : k <= S i - alo) by (unfold k; destruct hit; lia).
    assert (Hm' : within_a alo (S i) m').
    { unfold m'. destruct (hit && (bestsize m <? k)%nat); [|done].
      unfold within_a. simpl. lia. }
    assert (Hhd : hd 0 old <= i - alo) by (destruct Hold; simpl; lia).
    assert (Htl : Forall (fun k => k <= i - alo) (tl old)) by (destruct Hold; simpl; done).
    specialize (IH (S j) (hd 0 old) (tl old) m' Hhd Htl Hm').
    destruct (row_step b blo bhi x i (S j) bs (hd 0 old) (tl old) m') as [row m''].
    simpl in *. destruct IH as [IH1 IH2]. split; [constructor|]; done.
Qed.

Lemma rows_bounds (blo bhi alo : nat) (xs : list ascii) :
  forall (i : nat) (j2len : list nat) (m : best),
    alo <= i ->
    Forall (fun k => k <= i - alo) j2len ->
    within_a alo i m ->
    within_a alo (i + length xs) (rows b blo bhi i xs j2len m).
Proof.
  induction xs as [|x xs IH]; intros i j2len m Hi Hrow Hm.
  - simpl. rewrite Nat.add_0_r. done.
  - cbn [rows length].
    assert (Hm' : within_a alo (S i) m) by (unfold within_a in *; lia).
    pose proof (row_step_bounds blo bhi x alo i b Hi 0 0 j2len m
                  ltac:(lia) Hrow Hm') as [H1 H2].
    destruct (row_step b blo bhi x i 0 b 0 j2len m) as [newj2len m''].
    simpl in H1, H2. replace (i + S (length xs)) with (S i + length xs) by lia.
    apply IH; [lia | | done].
    eapply Forall_impl; [exact H1|]. intros k Hk. simpl in Hk. lia.
Qed.

Lemma extend_left_bounds (alo blo n : nat) :
  forall besti bestj size,
    within_a alo n (besti, bestj, size) ->
    within_a alo n (extend_left a b alo blo besti bestj size).
Proof.
  induction besti as [|before IH]; intros bestj size Hm; [done|].
  cbn [extend_left].
  destruct ((alo <? S before)%nat && (blo <? bestj)%nat
            && same_elt (nth_a a (S before - 1)) (nth_b b (bestj - 1))) eqn:Hg; [|done].
  apply IH. apply andb_true_iff in Hg as [Hg _]. apply andb_true_iff in Hg as [Hg _].
  apply Nat.ltb_lt in Hg. unfold within_a in *. simpl in *. lia.
Qed.

Lemma extend_right_bounds (alo bhi ahi : nat) :
  forall room besti bestj size,
    room = ahi - (besti + size) ->
    within_a alo ahi (besti, bestj, size) ->
    within_a alo ahi (extend_right a b room bhi besti bestj size).
Proof.
  induction room as [|room IH]; intros besti bestj size Hroom Hm; [done|].
  cbn [extend_right].
  destruct ((bestj + size <? bhi)%nat
            && same_elt (nth_a a (besti + size)) (nth_b b (bestj + size))); [|done].
  apply IH; [lia|]. unfold within_a in *. simpl in *. lia.
Qed.

(** The block found lies inside the range searched. *)
Lemma find_longest_match_bounds (alo ahi blo bhi : nat) :
  alo <= ahi -> within_a alo ahi (find_longest_match a b alo ahi blo bhi).
Proof.
  intros Hle. unfold find_longest_match.
  assert (H : within_a alo ahi
                (rows b blo bhi alo (take (ahi - alo) (drop alo a)) [] (alo, blo, 0))).
  { pose proof (rows_bounds blo bhi alo (take (ahi - alo) (drop alo a)) alo [] (alo, blo, 0)
                  ltac:(lia) ltac:(constructor) ltac:(unfold within_a; simpl; lia)) as H.
    rewrite length_take in H. unfold within_a in *. lia. }
  destruct (rows b blo bhi alo (take (ahi - alo) (drop alo a)) [] (alo, blo, 0))
    as [[besti bestj] size].
  apply (extend_left_bounds alo blo ahi) in H.
  destruct (extend_left a b alo blo besti bestj size) as [[besti' bestj'] size'].
  by apply extend_right_bounds.
Qed.

(** The work left in a queue: each range weighs twice its length in [a],
    plus one. *)
Definition range_weight (r : nat * nat * nat * nat) : nat :=
  2 * (r.1.1.2 - r.1.1.1) + 1.

Definition queue_weight (queue : list (nat * nat * nat * nat)) : nat :=
  foldr (fun r n => range_weight r + n) 0 queue.

Definition range_ok (r : nat * nat * nat * nat) : Prop := r.1.1.1 <= r.1.1.2.

(** With more fuel than the weight of the queue the loop ends on the
    empty queue: any two such amounts of fuel give the same blocks. *)
Lemma blocks_loop_fuel (fuel : nat) :
  forall (fuel' : nat) (queue : list (nat * nat * nat * nat)) (acc : list best),
    Forall range_ok queue ->
    queue_weight queue < fuel ->
    queue_weight queue < fuel' ->
    blocks_loop a b fuel queue acc = blocks_loop a b fuel' queue acc.
Proof.
  induction fuel as [|fuel IH]; intros fuel' queue acc Hok Hf Hf'; [lia|].
  destruct fuel' as [|fuel']; [lia|].
  destruct queue as [|[[[alo ahi] blo] bhi] queue]; [reflexivity|].
  cbn [blocks_loop].
  apply Forall_cons in Hok as [Hr Hok]. unfold range_ok in Hr. simpl in Hr.
  pose proof (find_longest_match_bounds alo ahi blo bhi Hr) as Hb.
  destruct (find_longest_match a b alo ahi blo bhi) as [[i j] k].
  unfold within_a in Hb. simpl in Hb.
  cbn [queue_weight foldr] in Hf, Hf'. fold (queue_weight queue) in Hf, Hf'.
  unfold range_weight in Hf, Hf'. simpl in Hf, Hf'.
  destruct (0 <? k)%nat eqn:Hk.
  - apply Nat.ltb_lt in Hk.
    set (q1 := if (alo <? i)%nat && (blo <? j)%nat then (alo, i, blo, j) :: queue else queue).
    set (q2 := if (i + k <? ahi)%nat && (j + k <? bhi)%nat
               then (i + k, ahi, j + k, bhi) :: q1 else q1).
    assert (Hq1 : Forall range_ok q1 /\ queue_weight q1 <= queue_weight queue + 2 * (i - alo) + 1).
    { unfold q1. destruct ((alo <? i)%nat && (blo <? j)%nat).
      - split; [constructor; [unfold range_ok; simpl; lia | done]|].
        cbn [queue_weight foldr]. fold (queue_weight queue).
        unfold range_weight. simpl. lia.
      - split; [done | lia]. }
    destruct Hq1 as [Hq1 Hw1].
    assert (Hq2 : Forall range_ok q2
                  /\ queue_weight q2 <= queue_weight q1 + 2 * (ahi - (i + k)) + 1).
    { unfold q2. destruct ((i + k <? ahi)%nat && (j + k <? bhi)%nat).
      - split; [constructor; [unfold range_ok; simpl; lia | done]|].
        cbn [queue_weight foldr]. fold (queue_weight q1).
        unfold range_weight. simpl. lia.
      - split; [done | lia]. }
    destruct Hq2 as [Hq2 Hw2].
    apply IH; [done | lia | lia].
  - apply IH; [done | lia | lia].
Qed.

(** The fuel of [matching_blocks] is enough: more fuel finds the same
    blocks. *)
Lemma matching_blocks_fuel (fuel : nat) :
  2 * length a + 2 <= fuel ->
  blocks_loop a b fuel [(0, length a, 0, length b)] [] = matching_blocks a b.
Proof.
  intros Hfuel. unfold matching_blocks. apply blocks_loop_fuel.
  - constructor; [unfold range_ok; simpl; lia | constructor].
  - unfold queue_weight, range_weight. simpl. lia.
  - unfold queue_weight, range_weight. simpl. lia.
Qed.

End DifflibFacts.

(** ** The behavioural correlation is symmetric *)
Section BehaviourFacts.
Import Signals.

Lemma Qsum_Forall2 (l k : list Q) : Forall2 Qeq l k -> (Qsum l == Qsum k)%Q.
Proof.
  induction 1 as [|x y l k Hxy Hlk IH]; simpl; [reflexivity|].
  rewrite Hxy, IH. reflexivity.
Qed.

Lemma mean_or_zero_Forall2 (l k : list Q) :
  Forall2 Qeq l k ->
  (match l with [] => 0 | _ => mean l end == match k with [] => 0 | _ => mean k end)%Q.
Proof.
  intros H. pose proof (Forall2_length _ _ _ H) as Hlen.
  pose proof (Qsum_Forall2 _ _ H) as Hsum.
  destruct H as [|x y l k Hxy Hlk]; [reflexivity|].
  unfold mean. rewrite Hsum, Hlen. reflexivity.
Qed.

Lemma hour_correlation_sym (b1 b2 : gmap string Q) :
  Forall2 Qeq (hour_correlation b1 b2) (hour_correlation b2 b1).
Proof.
  unfold hour_correlation.
  destruct (b1 !! "most_active_hour") as [h1|], (b2 !! "most_active_hour") as [h2|];
    try constructor; [|constructor].
  rewrite (Qabs_Qminus h1 h2). reflexivity.
Qed.

Lemma day_correlation_sym (b1 b2 : gmap string Q) :
  Forall2 Qeq (day_correlation b1 b2) (day_correlation b2 b1).
Proof.
  unfold day_correlation.
  destruct (b1 !! "most_active_day") as [d1|], (b2 !! "most_active_day") as [d2|];
    try constructor; [|constructor].
  rewrite (Qabs_Qminus d1 d2). reflexivity.
Qed.

Lemma length_correlation_sym (b1 b2 : gmap string Q) :
  Forall2 Qeq (length_correlation b1 b2) (length_correlation b2 b1).
Proof.
  unfold length_correlation.
  destruct (b1 !! "avg_content_length") as [l1|], (b2 !! "avg_content_length") as [l2|];
    try constructor; [|constructor].
  unfold max3. rewrite (Qabs_Qminus l1 l2), (Q.max_comm l1 l2). reflexivity.
Qed.

(** X3: swapping the two feature dicts leaves the behavioural
    correlation unchanged. *)
Lemma behavioral_correlation_symmetric (behavior1 behavior2 : gmap string Q) :
  (_calculate_behavioral_correlation behavior1 behavior2
   == _calculate_behavioral_correlation behavior2 behavior1)%Q.
Proof.
  unfold _calculate_behavioral_correlation.
  rewrite (orb_comm (bool_decide (behavior1 = ∅))).
  destruct (bool_decide (behavior2 = ∅) || bool_decide (behavior1 = ∅)); [reflexivity|].
  apply mean_or_zero_Forall2.
  repeat apply Forall2_app;
    auto using hour_correlation_sym, day_correlation_sym, length_correlation_sym.
Qed.

End BehaviourFacts.

(** ** Blocking: what a match holds *)
Section GroupingFacts.
Import Text Normalizer Hashlib Analyzer.

Context {V : Type}.

(** [groups[key]], the empty list for an absent key. *)
Fixpoint group_lookup (key : string) (gs : list (string * list V)) : list V :=
  match gs with
  | [] => []
  | (k, vs) :: rest => if String.eqb k key then vs else group_lookup key rest
  end.

(** Keys are distinct and no bucket is empty. *)
Definition groups_ok (gs : list (string * list V)) : Prop :=
  NoDup (map fst gs) /\ Forall (fun kv => kv.2 <> []) gs.

Lemma group_lookup_append (key key' : string) (v : V) (gs : list (string * list V)) :
  group_lookup key (group_append key' v gs)
  = if decide (key = key') then group_lookup key gs ++ [v] else group_lookup key gs.
Proof.
  induction gs as [|[k vs] gs IH]; simpl.
  - destruct (String.eqb key' key) eqn:He.
    + apply String.eqb_eq in He. subst. rewrite decide_True by done. done.
    + apply String.eqb_neq in He. rewrite decide_False by congruence. done.
  - destruct (String.eqb k key') eqn:Hk'; simpl.
    + apply String.eqb_eq in Hk'. subst k.
      destruct (String.eqb key' key) eqn:He.
      * apply String.eqb_eq in He. subst. rewrite decide_True by done. done.
      * apply String.eqb_neq in He. rewrite decide_False by congruence. done.
    + destruct (String.eqb k key) eqn:He; [|apply IH].
      apply String.eqb_eq in He. subst k. apply String.eqb_neq in Hk'.
      rewrite decide_False by done. done.
Qed.

Lemma group_append_fst (key : string) (v : V) (gs : list (string * list V)) :
  map fst (group_append key v gs)
  = if decide (key ∈ map fst gs) then map fst gs else map fst gs ++ [key].
Proof.
  induction gs as [|[k vs] gs IH]; cbn [group_append map fst].
  - rewrite decide_False by apply not_elem_of_nil. done.
  - destruct (String.eqb k key) eqn:Hk; cbn [map fst].
    + apply String.eqb_eq in Hk. subst. rewrite decide_True by apply list_elem_of_here. done.
    + apply String.eqb_neq in Hk. rewrite IH.
      destruct (decide (key ∈ map fst gs)) as [Hin|Hnin].
      * rewrite decide_True by (by apply list_elem_of_further). done.
      * rewrite decide_False; [done|]. intros [?|?]%elem_of_cons; congruence.
Qed.

Lemma group_append_ok (key : string) (v : V) (gs : list (string * list V)) :
  groups_ok gs -> groups_ok (group_append key v gs).
Proof.
  intros [Hnd Hne]. split.
  - rewrite group_append_fst. case_decide as Hin; [done|].
    apply NoDup_app. split; [done|]. split; [|apply NoDup_singleton].
    intros x Hx ->%list_elem_of_singleton. done.
  - clear Hnd. induction Hne as [|[k vs] gs Hkv Hgs IH]; simpl.
    + by repeat constructor.
    + destruct (String.eqb k key); constructor; try done.
      simpl. by destruct vs.
Qed.

Lemma group_lookup_elem (k : string) (vs : list V) (gs : list (string * list V)) :
  groups_ok gs -> (k, vs) ∈ gs -> vs = group_lookup k gs /\ vs <> [].
Proof.
  intros [Hnd Hne] Hin. split.
  - induction gs as [|[k' vs'] gs IH]; [by apply elem_of_nil in Hin|].
    simpl in *. apply NoDup_cons in Hnd as [Hk' Hnd].
    apply Forall_cons in Hne as [_ Hne].
    apply elem_of_cons in Hin as [[= <- <-]|Hin].
    + by rewrite String.eqb_refl.
    + destruct (String.eqb k' k) eqn:He; [|by apply IH].
      apply String.eqb_eq in He. subst k'. exfalso. apply Hk'.
      apply list_elem_of_fmap. by exists (k, vs).
  - rewrite Forall_forall in Hne. apply (Hne _ Hin).
Qed.

Lemma group_lookup_found (k : string) (gs : list (string * list V)) :
  group_lookup k gs <> [] -> (k, group_lookup k gs) ∈ gs.
Proof.
  induction gs as [|[k' vs'] gs IH]; simpl; [done|].
  destruct (String.eqb k' k) eqn:He.
  - apply String.eqb_eq in He. subst. intros _. apply list_elem_of_here.
  - intros H. apply list_elem_of_further. by apply IH.
Qed.

End GroupingFacts.

Section BlockingKeys.
Import Text Normalizer Hashlib Analyzer.

(** The texts the first loop of [find_cross_platform_accounts] reads from
    one record. *)
Definition record_platform (pd : profile_data) : string := default "" (platform pd).

Definition record_profile (pd : profile_data) : profile :=
  default empty_profile (profile_of pd).

Definition record_username (pd : profile_data) : string :=
  lower (default "" (username (record_profile pd))).

Definition record_display_name (pd : profile_data) : string :=
  lower (get_or (display_name (record_profile pd))
           (get_or (full_name (record_profile pd)) "")).

Definition record_bio (pd : profile_data) : string :=
  lower (get_or (biography (record_profile pd))
           (get_or (description (record_profile pd)) "")).

(** The key a pass files a record under, [None] when the pass skips the
    record. *)
Definition blocking_key (t : match_type) (pd : profile_data) : option string :=
  match t with
  | MUsername =>
      if truthy (_normalize_username (record_username pd))
      then Some (_normalize_username (record_username pd)) else None
  | MDisplayName =>
      if truthy (record_display_name pd)
      then Some (_normalize_name (record_display_name pd)) else None
  | MBiography =>
      if truthy (record_bio pd) && (20 <? String.length (record_bio pd))%nat
      then Some (_get_bio_hash (record_bio pd)) else None
  end.

Definition pass_groups (t : match_type) (g : groups)
    : list (string * list (string * profile_data)) :=
  match t with
  | MUsername => username_groups g
  | MDisplayName => name_groups g
  | MBiography => bio_groups g
  end.

Definition pass_confidence (t : match_type) : Q :=
  match t with
  | MUsername => 9 # 10
  | MDisplayName => 7 # 10
  | MBiography => 8 # 10
  end.

Definition pass_step (t : match_type) (gs : list (string * list (string * profile_data)))
    (pd : profile_data) : list (string * list (string * profile_data)) :=
  match blocking_key t pd with
  | Some k => group_append k (record_platform pd, pd) gs
  | None => gs
  end.

Lemma group_step_pass (t : match_type) (g : groups) (pd : profile_data) :
  pass_groups t (group_step g pd) = pass_step t (pass_groups t g) pd.
Proof.
  unfold pass_step, blocking_key, group_step.
  fold (record_platform pd). fold (record_profile pd).
  fold (record_username pd). fold (record_display_name pd). fold (record_bio pd).
  destruct t; cbn [pass_groups username_groups name_groups bio_groups].
  - destruct (truthy (_normalize_username (record_username pd))); done.
  - destruct (truthy (record_display_name pd)); done.
  - destruct (truthy (record_bio pd) && (20 <? String.length (record_bio pd))%nat); done.
Qed.

Lemma fold_group_step_pass (t : match_type) (l : list profile_data) (g : groups) :
  pass_groups t (fold_left group_step l g) = fold_left (pass_step t) l (pass_groups t g).
Proof.
  revert g. induction l as [|pd l IH]; intros g; simpl; [done|].
  rewrite IH, group_step_pass. done.
Qed.

(** The records a pass files under [k], as the bucket stores them. *)
Definition filed_under (t : match_type) (k : string) (l : list profile_data)
    : list (string * profile_data) :=
  map (fun pd => (record_platform pd, pd))
    (filter (fun pd => blocking_key t pd = Some k) l).

Lemma fold_pass_step_lookup (t : match_type) (k : string) (l : list profile_data) :
  forall gs,
    group_lookup k (fold_left (pass_step t) l gs) = group_lookup k gs ++ filed_under t k l.
Proof.
  unfold filed_under.
  induction l as [|pd l IH]; intros gs; cbn [fold_left]; [by rewrite app_nil_r|].
  rewrite IH. unfold pass_step. rewrite filter_cons.
  destruct (blocking_key t pd) as [k'|] eqn:Hk.
  - rewrite group_lookup_append. destruct (decide (k = k')) as [->|Hne].
    + rewrite decide_True by done. simpl. by rewrite <- app_assoc.
    + rewrite decide_False by congruence. done.
  - rewrite decide_False by done. done.
Qed.

Lemma fold_pass_step_ok (t : match_type) (l : list profile_data) :
  forall gs, groups_ok gs -> groups_ok (fold_left (pass_step t) l gs).
Proof.
  induction l as [|pd l IH]; intros gs Hok; simpl; [done|].
  apply IH. unfold pass_step. destruct (blocking_key t pd); [|done].
  by apply group_append_ok.
Qed.

Lemma pass_groups_build (t : match_type) (l : list profile_data) :
  pass_groups t (build_groups l) = fold_left (pass_step t) l [].
Proof. unfold build_groups. rewrite fold_group_step_pass. by destruct t. Qed.

Lemma pass_groups_ok (t : match_type) (l : list profile_data) :
  groups_ok (pass_groups t (build_groups l)).
Proof.
  rewrite pass_groups_build. apply fold_pass_step_ok.
  split; [apply NoDup_nil_2 | constructor].
Qed.

Lemma pass_groups_lookup (t : match_type) (k : string) (l : list profile_data) :
  group_lookup k (pass_groups t (build_groups l)) = filed_under t k l.
Proof. rewrite pass_groups_build, fold_pass_step_lookup. done. Qed.

Lemma find_matches_passes (l : list profile_data) (m : match_entry) :
  m ∈ find_matches l
  <-> exists t, m ∈ group_matches t (pass_confidence t) (pass_groups t (build_groups l)).
Proof.
  unfold find_matches. rewrite !elem_of_app. split.
  - intros [H|[H|H]]; [by exists MUsername | by exists MDisplayName | by exists MBiography].
  - intros [[] H]; auto.
Qed.

Lemma group_matches_iff (t : match_type) (conf : Q)
    (gs : list (string * list (string * profile_data))) (m : match_entry) :
  m ∈ group_matches t conf gs
  <-> exists kv, kv ∈ gs /\ 2 <= length kv.2
                 /\ m = {| m_type := t; m_confidence := conf;
                           m_profiles := kv.2; m_identifier := kv.1 |}.
Proof.
  unfold group_matches. rewrite list_elem_of_In, in_flat_map. split.
  - intros [kv [Hkv Hm]]. destruct (1 <? length kv.2)%nat eqn:Hlen; [|done].
    apply Nat.ltb_lt in Hlen. destruct Hm as [<-|[]].
    exists kv. rewrite list_elem_of_In. done.
  - intros [kv (Hkv & Hlen & ->)]. exists kv. rewrite <- list_elem_of_In.
    split; [done|]. apply Nat.ltb_lt in Hlen. rewrite Hlen. by left.
Qed.

Lemma match_profiles_filed (l : list profile_data) (m : match_entry) :
  m ∈ find_matches l -> m_profiles m = filed_under (m_type m) (m_identifier m) l.
Proof.
  intros [t Hm]%find_matches_passes.
  apply group_matches_iff in Hm as [[k vs] (Hkv & _ & ->)]. simpl in *.
  destruct (group_lookup_elem k vs _ (pass_groups_ok t l) Hkv) as [Hvs _].
  by rewrite pass_groups_lookup in Hvs.
Qed.

(** X5: a match holds exactly the records that its pass files under its
    identifier, in the order of the input, each paired with its platform;
    they are at least two, and the confidence is the constant of the
    pass (username 0.9, display name 0.7, biography 0.8). *)
Theorem match_holds_the_records_of_its_key (l : list profile_data) (m : match_entry) :
  m ∈ find_matches l ->
  m_profiles m = filed_under (m_type m) (m_identifier m) l
  /\ 2 <= length (m_profiles m)
  /\ m_confidence m = pass_confidence (m_type m).
Proof.
  intros Hm. split; [by apply match_profiles_filed|].
  apply find_matches_passes in Hm as [t Hm].
  apply group_matches_iff in Hm as [[k vs] (_ & Hlen & ->)]. done.
Qed.

(** X6: blocking recall.  When at least two records of the batch are
    filed under the same key by a pass, the result has a match of that
    pass with that key as identifier. *)
Theorem shared_key_gives_a_match (l : list profile_data) (t : match_type) (k : string) :
  2 <= length (filed_under t k l) ->
  exists m, m ∈ find_matches l /\ m_type m = t /\ m_identifier m = k
            /\ m_profiles m = filed_under t k l.
Proof.
  intros Hlen.
  exists {| m_type := t; m_confidence := pass_confidence t;
            m_profiles := filed_under t k l; m_identifier := k |}.
  split; [|done]. apply find_matches_passes. exists t.
  apply group_matches_iff. exists (k, filed_under t k l). split; [|done].
  rewrite <- pass_groups_lookup. apply group_lookup_found.
  rewrite pass_groups_lookup. intros Hnil. rewrite Hnil in Hlen. simpl in Hlen. lia.
Qed.

End BlockingKeys.

Section AccountsFacts.
Import Text Normalizer Hashlib Analyzer.

Lemma match_holds_the_records_of_its_key_witness :
  m_profiles jane_username_match = filed_under (m_type jane_username_match)
                                     (m_identifier jane_username_match) jane_batch
  /\ 2 <= length (m_profiles jane_username_match)
  /\ m_confidence jane_username_match = pass_confidence (m_type jane_username_match).
Proof.
  apply (match_holds_the_records_of_its_key jane_batch jane_username_match).
  vm_compute. apply list_elem_of_here.
Defined.

Lemma shared_key_gives_a_match_witness :
  exists m, m ∈ find_matches jane_batch /\ m_type m = MDisplayName /\ m_identifier m = "jd"
            /\ m_profiles m = filed_under MDisplayName "jd" jane_batch.
Proof.
  apply (shared_key_gives_a_match jane_batch MDisplayName "jd").
  vm_compute. lia.
Defined.

(** The record has a [profile] dict with a [username] key. *)
Definition has_username (pd : profile_data) : Prop :=
  exists pr u, profile_of pd = Some pr /\ username pr = Some u.

Lemma member_key_ok (p : string * profile_data) :
  has_username p.2 -> exists k, member_key p = Ok k.
Proof. intros (pr & u & Hpr & Hu). unfold member_key. rewrite Hpr, Hu. by eexists. Qed.

Lemma member_key_raise (p : string * profile_data) :
  ~ has_username p.2 -> exists key, member_key p = Raise (KeyError key).
Proof.
  intros Hno. unfold member_key.
  destruct (profile_of p.2) as [pr|] eqn:Hpr; [|by eexists].
  destruct (username pr) as [u|] eqn:Hu; [|by eexists].
  exfalso. apply Hno. by exists pr, u.
Qed.

Lemma member_keys_only_key_errors (ps : list (string * profile_data)) (e : exn) :
  member_keys ps = Raise e -> exists key, e = KeyError key.
Proof.
  induction ps as [|p ps IH]; simpl; [done|].
  unfold member_key at 1.
  destruct (profile_of p.2) as [pr|]; [|intros [= <-]; by eexists].
  destruct (username pr) as [u|]; [|intros [= <-]; by eexists].
  destruct (member_keys ps) as [ks|e']; [done|].
  intros [= <-]. by apply IH.
Qed.

Lemma member_keys_ok (ps : list (string * profile_data)) :
  Forall (fun p => has_username p.2) ps -> exists ks, member_keys ps = Ok ks.
Proof.
  induction 1 as [|p ps Hp Hps [ks IH]]; simpl; [by eexists|].
  destruct (member_key_ok p Hp) as [k ->]. rewrite IH. by eexists.
Qed.

Lemma member_keys_raise (ps : list (string * profile_data)) :
  Exists (fun p => ~ has_username p.2) ps -> exists key, member_keys ps = Raise (KeyError key).
Proof.
  induction ps as [|p ps IH]; intros Hex; [by apply Exists_nil in Hex|].
  simpl. destruct (member_key p) as [k|e] eqn:Hk.
  - apply Exists_cons in Hex as [Hp|Hps].
    + destruct (member_key_raise p Hp) as [key Hkey]. congruence.
    + destruct (IH Hps) as [key ->]. by eexists.
  - unfold member_key in Hk.
    destruct (profile_of p.2) as [pr|]; [|injection Hk as <-; by eexists].
    destruct (username pr) as [u|]; [done | injection Hk as <-; by eexists].
Qed.

Definition key_ok (m : match_entry) : Prop := exists k, profile_key m = Ok k.

Lemma consolidate_loop_ok (ms : list match_entry) :
  Forall key_ok ms ->
  forall c p, exists users,
    consolidate_loop ms c p = Ok users /\ length users <= length c + length ms.
Proof.
  induction 1 as [|m ms [k Hk] Hms IH]; intros c p; simpl.
  - exists c. split; [done | lia].
  - rewrite Hk. destruct (decide (k ∈ p)).
    + destruct (IH c p) as (users & -> & Hlen). exists users. split; [done | lia].
    + destruct (IH (c ++ [{| user_id := String.substring 0 8 (md5_hexdigest (str_of_tuple k));
                             u_platforms := map fst (m_profiles m);
                             u_profiles := m_profiles m;
                             match_confidence := m_confidence m;
                             u_match_type := m_type m |}]) ({[ k ]} ∪ p))
        as (users & -> & Hlen).
      exists users. split; [done|]. rewrite length_app in Hlen. simpl in Hlen. lia.
Qed.

Lemma consolidate_loop_raise (ms : list match_entry) :
  Exists (fun m => ~ key_ok m) ms ->
  forall c p, exists key, consolidate_loop ms c p = Raise (KeyError key).
Proof.
  induction ms as [|m ms IH]; intros Hex c p; [by apply Exists_nil in Hex|].
  simpl. destruct (profile_key m) as [k|e] eqn:Hk.
  - apply Exists_cons in Hex as [Hm|Hms]; [exfalso; apply Hm; by exists k|].
    destruct (decide (k ∈ p)); by apply IH.
  - unfold profile_key in Hk.
    destruct (member_keys (m_profiles m)) as [ks|e'] eqn:Hks; [done|].
    injection Hk as <-. destruct (member_keys_only_key_errors _ _ Hks) as [key ->].
    by eexists.
Qed.

Lemma filed_under_elem (t : match_type) (k : string) (l : list profile_data)
    (p : string * profile_data) :
  p ∈ filed_under t k l -> p.2 ∈ l /\ p.1 = record_platform p.2 /\ blocking_key t p.2 = Some k.
Proof.
  unfold filed_under. intros (pd & -> & Hpd)%list_elem_of_fmap.
  apply list_elem_of_filter in Hpd as [Hk Hin]. done.
Qed.

(** X7: when every record of the batch has a [profile] with a
    [username], [find_cross_platform_accounts] returns a result;
    [total_matches] is the number of matches, and the consolidated users
    are at most as many as the matches. *)
Theorem accounts_found_when_usernames_present (l : list profile_data) :
  Forall has_username l ->
  exists r,
    find_cross_platform_accounts l = Ok r
    /\ matches r = find_matches l
    /\ total_matches r = length (matches r)
    /\ length (cross_platform_users r) <= total_matches r.
Proof.
  intros Hall. unfold find_cross_platform_accounts, _consolidate_matches.
  assert (Hok : Forall key_ok (find_matches l)).
  { apply Forall_forall. intros m Hm.
    pose proof (match_profiles_filed l m Hm) as Hps.
    destruct (member_keys_ok (m_profiles m)) as [ks Hks].
    - apply Forall_forall. intros p Hp. rewrite Hps in Hp.
      apply filed_under_elem in Hp as [Hin _].
      rewrite Forall_forall in Hall. by apply Hall.
    - exists (sorted ks). unfold profile_key. by rewrite Hks. }
  destruct (consolidate_loop_ok _ Hok [] ∅) as (users & -> & Hlen).
  eexists. split; [reflexivity|].
  cbn [matches total_matches cross_platform_users].
  split; [done|]. split; [done|]. simpl in Hlen. lia.
Qed.

(** X8: when a match holds a record that has no [profile] dict or no
    [username] in it (a record matched by display name or biography
    only), [find_cross_platform_accounts] raises [KeyError]. *)
Theorem accounts_raise_without_username
    (l : list profile_data) (m : match_entry) (p : string * profile_data) :
  m ∈ find_matches l ->
  p ∈ m_profiles m ->
  ~ has_username p.2 ->
  exists key, find_cross_platform_accounts l = Raise (KeyError key).
Proof.
  intros Hm Hp Hno. unfold find_cross_platform_accounts, _consolidate_matches.
  destruct (consolidate_loop_raise (find_matches l)) with (c := @nil user_entry)
    (p := (∅ : gset (list string))) as [key ->]; [|by eexists].
  apply Exists_exists. exists m. split; [done|].
  intros [k Hk]. unfold profile_key in Hk.
  destruct (member_keys_raise (m_profiles m)) as [key Hkey].
  { apply Exists_exists. by exists p. }
  rewrite Hkey in Hk. done.
Qed.

(** Two records without a username, matched by their display name. *)
Definition nameless (site name : string) : profile_data :=
  {| platform := Some site;
     profile_of := Some {| username := None; display_name := Some name;
                           full_name := None; biography := None;
                           description := None |};
     posts := None |}.

Definition nameless_batch : list profile_data :=
  [nameless "instagram" "Jane Doe"; nameless "twitter" "jane doe"].

Definition nameless_match : match_entry :=
  {| m_type := MDisplayName; m_confidence := 7 # 10;
     m_profiles := [("instagram", nameless "instagram" "Jane Doe");
                    ("twitter", nameless "twitter" "jane doe")];
     m_identifier := "jane doe" |}.

Lemma accounts_raise_without_username_witness :
  exists key, find_cross_platform_accounts nameless_batch = Raise (KeyError key).
Proof.
  apply (accounts_raise_without_username nameless_batch nameless_match
           ("instagram", nameless "instagram" "Jane Doe")).
  - vm_compute. apply list_elem_of_here.
  - apply list_elem_of_here.
  - intros (pr & u & Hpr & Hu). simpl in Hpr. injection Hpr as <-. discriminate.
Defined.

Lemma accounts_found_when_usernames_present_witness :
  exists r,
    find_cross_platform_accounts jane_batch = Ok r
    /\ matches r = find_matches jane_batch
    /\ total_matches r = length (matches r)
    /\ length (cross_platform_users r) <= total_matches r.
Proof.
  apply (accounts_found_when_usernames_present jane_batch).
  repeat constructor; eexists _, _; split; reflexivity.
Defined.

End AccountsFacts.

(** ** The timing analysis of a batch *)
Section TimingFacts.
Import Text Analyzer Signals.

Lemma dict_set_fst {V : Type} (key : string) (v : V) (d : list (string * V)) :
  map fst (dict_set key v d)
  = if decide (key ∈ map fst d) then map fst d else map fst d ++ [key].
Proof.
  induction d as [|[k w] d IH]; cbn [dict_set map fst].
  - rewrite decide_False by apply not_elem_of_nil. done.
  - destruct (String.eqb k key) eqn:Hk; cbn [map fst].
    + apply String.eqb_eq in Hk. subst. rewrite decide_True by apply list_elem_of_here. done.
    + apply String.eqb_neq in Hk. rewrite IH.
      destruct (decide (key ∈ map fst d)) as [Hin|Hnin].
      * rewrite decide_True by (by apply list_elem_of_further). done.
      * rewrite decide_False; [done|]. intros [?|?]%elem_of_cons; congruence.
Qed.

Lemma dict_set_values {V : Type} (P : V -> Prop) (key : string) (v : V)
    (d : list (string * V)) :
  P v -> Forall (fun kv => P kv.2) d -> Forall (fun kv => P kv.2) (dict_set key v d).
Proof.
  intros Hv. induction 1 as [|[k w] d Hw Hd IH]; simpl.
  - by repeat constructor.
  - destruct (String.eqb k key); constructor; done.
Qed.

(** A record with at least one parseable post date. *)
Definition dated (pd : profile_data) : Prop := post_times (default [] (posts pd)) <> [].

Lemma timing_step_fst (d : list (string * list Z)) (pd : profile_data) :
  map fst (timing_step d pd)
  = if decide (dated pd /\ record_platform pd ∉ map fst d)
    then map fst d ++ [record_platform pd] else map fst d.
Proof.
  unfold timing_step, dated. fold (record_platform pd).
  destruct (post_times (default [] (posts pd))) as [|t ts] eqn:Ht.
  - rewrite decide_False; [done|]. intros [? _]. done.
  - rewrite dict_set_fst. destruct (decide (record_platform pd ∈ map fst d)).
    + rewrite decide_False; [done|]. intros [_ ?]. done.
    + rewrite decide_True; done.
Qed.

Lemma timing_fold_keys (l : list profile_data) :
  forall d,
    NoDup (map fst d) ->
    NoDup (map fst (fold_left timing_step l d))
    /\ forall k, k ∈ map fst (fold_left timing_step l d)
                 <-> k ∈ map fst d \/ exists pd, pd ∈ l /\ dated pd /\ record_platform pd = k.
Proof.
  induction l as [|pd l IH]; intros d Hnd; cbn [fold_left].
  - split; [done|]. intros k. split; [by left|].
    intros [?|(pd & Hpd & _)]; [done | by apply elem_of_nil in Hpd].
  - assert (Hnd' : NoDup (map fst (timing_step d pd))).
    { rewrite timing_step_fst. case_decide as Hc; [|done].
      apply NoDup_app. split; [done|]. split; [|apply NoDup_singleton].
      intros x Hx ->%list_elem_of_singleton. by destruct Hc. }
    destruct (IH _ Hnd') as [H1 H2]. split; [done|].
    intros k. rewrite H2, timing_step_fst. split.
    + intros [Hk|(pd' & Hpd' & Hd & Hp)].
      * case_decide as Hc; [|by left].
        apply elem_of_app in Hk as [? | ->%list_elem_of_singleton]; [by left|].
        right. exists pd. split; [apply list_elem_of_here | by destruct Hc].
      * right. exists pd'. split; [by apply list_elem_of_further | done].
    + intros [Hk|(pd' & Hpd' & Hd & Hp)].
      * left. case_decide; [apply elem_of_app; by left | done].
      * apply elem_of_cons in Hpd' as [-> | Hpd'].
        -- left. case_decide as Hc.
           ++ apply elem_of_app. right. by apply list_elem_of_singleton.
           ++ subst k. destruct (decide (record_platform pd ∈ map fst d)); [done|].
              exfalso. apply Hc. done.
        -- right. by exists pd'.
Qed.

Lemma timing_fold_values (l : list profile_data) :
  forall d,
    Forall (fun kv => kv.2 <> []) d ->
    Forall (fun kv => kv.2 <> []) (fold_left timing_step l d).
Proof.
  induction l as [|pd l IH]; intros d Hd; cbn [fold_left]; [done|].
  apply IH. unfold timing_step.
  destruct (post_times (default [] (posts pd))) as [|t ts] eqn:Ht; [done|].
  by apply (dict_set_values (fun v => v <> [])).
Qed.

(** X9: as the module is written, with [timedelta] unbound, the timing
    analysis of a batch returns the empty result when fewer than two
    platforms have a post with a parseable date, and raises [NameError]
    otherwise; the platforms counted are distinct and are those of the
    records with such a post. *)
Theorem timing_analysis_as_written (l : list profile_data) :
  NoDup (map fst (build_platform_timings l))
  /\ (forall k, k ∈ map fst (build_platform_timings l)
                <-> exists pd, pd ∈ l /\ dated pd /\ record_platform pd = k)
  /\ analyze_timing_correlation module_globals l
     = if (length (build_platform_timings l) <? 2)%nat
       then Ok {| timing_correlations := []; total_timing_matches := 0 |}
       else Raise (NameError "timedelta").
Proof.
  unfold analyze_timing_correlation, build_platform_timings.
  destruct (timing_fold_keys l [] (NoDup_nil_2)) as [Hnd Hkeys].
  split; [done|]. split.
  { intros k. rewrite Hkeys. split; [|by right].
    intros [Hk|?]; [by apply elem_of_nil in Hk | done]. }
  pose proof (timing_fold_values l [] (Forall_nil_2 _)) as Hvals.
  destruct (fold_left timing_step l []) as [|[k1 ts1] [|[k2 ts2] rest]]; try reflexivity.
  apply Forall_cons in Hvals as [H1 Hvals]. apply Forall_cons in Hvals as [H2 _].
  simpl in H1, H2. cbn [timing_rows timing_row snd].
  destruct ts1 as [|a1 ts1]; [done|]. destruct ts2 as [|a2 ts2]; [done|].
  reflexivity.
Qed.

End TimingFacts.

(** ** Means of bounded values *)
Section MeanFacts.
Import Signals.

Lemma Qltb_lt (a b : Q) : Qltb a b = true -> (a < b)%Q.
Proof.
  unfold Qltb. intros Hlt. apply Qnot_le_lt. intros Hle.
  apply Qle_bool_iff in Hle. rewrite Hle in Hlt. discriminate.
Qed.

Lemma Qsum_bounds (lo hi : Q) (l : list Q) :
  Forall (fun x => lo <= x <= hi)%Q l ->
  (lo * inject_Z (Z.of_nat (length l)) <= Qsum l
   /\ Qsum l <= hi * inject_Z (Z.of_nat (length l)))%Q.
Proof.
  induction 1 as [|x l [Hlo Hhi] Hl [IHlo IHhi]].
  - simpl. rewrite !Qmult_0_r. split; apply Qle_refl.
  - cbn [length Qsum fold_right]. fold (Qsum l).
    rewrite Nat2Z.inj_succ. unfold Z.succ. rewrite inject_Z_plus.
    rewrite !Qmult_plus_distr_r, !Qmult_1_r.
    split.
    + rewrite (Qplus_comm (lo * _)). by apply Qplus_le_compat.
    + rewrite (Qplus_comm (hi * _)). by apply Qplus_le_compat.
Qed.

Lemma mean_bounds (lo hi : Q) (l : list Q) :
  l <> [] ->
  Forall (fun x => lo <= x <= hi)%Q l ->
  (lo <= mean l <= hi)%Q.
Proof.
  intros Hne Hl. destruct (Qsum_bounds lo hi l Hl) as [Hlo Hhi].
  assert (Hpos : (0 < inject_Z (Z.of_nat (length l)))%Q).
  { rewrite <- (Zlt_Qlt 0). destruct l; [done | simpl; lia]. }
  unfold mean. split.
  - by apply Qle_shift_div_l.
  - by apply Qle_shift_div_r.
Qed.

End MeanFacts.

(** ** The range of the behavioural correlation *)
Section BehaviourRange.
Import Signals.

Lemma max3_ge_1 (x y : Q) : (1 <= max3 x y 1)%Q.
Proof. unfold max3. apply Q.le_max_r. Qed.

Lemma Qabs_diff_le_max (x y : Q) :
  (0 <= x)%Q -> (0 <= y)%Q -> (Qabs (x - y) <= max3 x y 1)%Q.
Proof.
  intros Hx Hy. unfold max3.
  apply Qle_trans with (Qmax x y); [|apply Q.le_max_l].
  apply Qabs_Qle_condition. split.
  - apply Qle_trans with (- y)%Q.
    + apply Qopp_le_compat. apply Q.le_max_r.
    + rewrite <- (Qplus_0_l (- y)) at 1. apply Qplus_le_compat; [done | apply Qle_refl].
  - apply Qle_trans with x; [|apply Q.le_max_l].
    rewrite <- (Qplus_0_r x) at 2. apply Qplus_le_compat; [apply Qle_refl|].
    rewrite <- (Qopp_involutive 0). apply Qopp_le_compat. done.
Qed.

Lemma one_minus_ratio_le_1 (x d : Q) : (0 <= x)%Q -> (0 < d)%Q -> (1 - x / d <= 1)%Q.
Proof.
  intros Hx Hd. rewrite <- (Qplus_0_r 1) at 2. apply Qplus_le_compat; [apply Qle_refl|].
  rewrite <- (Qopp_involutive 0). apply Qopp_le_compat.
  apply Qle_shift_div_l; [done|]. by rewrite Qmult_0_l.
Qed.

Lemma one_minus_ratio_ge_0 (x d : Q) : (x <= d)%Q -> (0 < d)%Q -> (0 <= 1 - x / d)%Q.
Proof.
  intros Hx Hd. rewrite <- (Qplus_opp_r (x / d)).
  apply Qplus_le_compat; [|apply Qle_refl].
  apply Qle_shift_div_r; [done|]. by rewrite Qmult_1_l.
Qed.

Lemma hour_correlation_le_1 (b1 b2 : gmap string Q) :
  Forall (fun x => x <= 1)%Q (hour_correlation b1 b2).
Proof.
  unfold hour_correlation.
  destruct (b1 !! "most_active_hour") as [h1|], (b2 !! "most_active_hour") as [h2|];
    try constructor; [|constructor].
  apply one_minus_ratio_le_1; [apply Qabs_nonneg | reflexivity].
Qed.

Lemma day_correlation_range (b1 b2 : gmap string Q) :
  Forall (fun x => 0 <= x <= 1)%Q (day_correlation b1 b2).
Proof.
  unfold day_correlation.
  destruct (b1 !! "most_active_day") as [d1|], (b2 !! "most_active_day") as [d2|];
    try constructor; [|constructor].
  split; [apply Q.le_max_l|].
  apply Q.max_lub; [discriminate|].
  apply one_minus_ratio_le_1; [apply Qabs_nonneg | reflexivity].
Qed.

Lemma length_correlation_le_1 (b1 b2 : gmap string Q) :
  Forall (fun x => x <= 1)%Q (length_correlation b1 b2).
Proof.
  unfold length_correlation.
  destruct (b1 !! "avg_content_length") as [l1|], (b2 !! "avg_content_length") as [l2|];
    try constructor; [|constructor].
  apply one_minus_ratio_le_1; [apply Qabs_nonneg|].
  eapply Qlt_le_trans; [|apply max3_ge_1]. reflexivity.
Qed.

Lemma Qsum_le_length (l : list Q) :
  Forall (fun x => x <= 1)%Q l -> (Qsum l <= inject_Z (Z.of_nat (length l)))%Q.
Proof.
  induction 1 as [|x l Hx Hl IH]; [apply Qle_refl|].
  cbn [length Qsum fold_right]. fold (Qsum l).
  rewrite Nat2Z.inj_succ. unfold Z.succ. rewrite inject_Z_plus, Qplus_comm.
  by apply Qplus_le_compat.
Qed.

Lemma behavioral_correlation_le_1 (behavior1 behavior2 : gmap string Q) :
  (_calculate_behavioral_correlation behavior1 behavior2 <= 1)%Q.
Proof.
  unfold _calculate_behavioral_correlation.
  destruct (bool_decide (behavior1 = ∅) || bool_decide (behavior2 = ∅)); [discriminate|].
  assert (Hall : Forall (fun x => x <= 1)%Q
                   (hour_correlation behavior1 behavior2
                    ++ day_correlation behavior1 behavior2
                    ++ length_correlation behavior1 behavior2)).
  { repeat apply Forall_app_2;
      auto using hour_correlation_le_1, length_correlation_le_1.
    eapply Forall_impl; [apply day_correlation_range|]. by intros x [_ Hx]. }
  destruct (_ ++ _) as [|x l] eqn:Hl; [discriminate|].
  apply Qsum_le_length in Hall. unfold mean.
  apply Qle_shift_div_r; [|by rewrite Qmult_1_l].
  rewrite <- (Zlt_Qlt 0). simpl. lia.
Qed.

(** X14: the behavioural correlation never exceeds 1, whatever the two
    feature dicts hold, and it is 0 when one of them is empty or when
    they share none of the three keys that are compared. *)
Theorem behavioral_correlation_at_most_one (behavior1 behavior2 : gmap string Q) :
  (_calculate_behavioral_correlation behavior1 behavior2 <= 1)%Q
  /\ (behavior1 = ∅ \/ behavior2 = ∅ ->
        _calculate_behavioral_correlation behavior1 behavior2 = 0%Q)
  /\ ((forall key, key ∈ ["most_active_hour"; "most_active_day"; "avg_content_length"] ->
         behavior1 !! key = None \/ behavior2 !! key = None) ->
        _calculate_behavioral_correlation behavior1 behavior2 = 0%Q).
Proof.
  split; [apply behavioral_correlation_le_1|]. split.
  - intros [-> | ->]; unfold _calculate_behavioral_correlation.
    + by rewrite bool_decide_true.
    + rewrite (bool_decide_true (∅ = ∅)) by done. by rewrite orb_true_r.
  - intros Hkeys. unfold _calculate_behavioral_correlation.
    destruct (bool_decide (behavior1 = ∅) || bool_decide (behavior2 = ∅)); [done|].
    assert (Hh : hour_correlation behavior1 behavior2 = []).
    { unfold hour_correlation.
      destruct (Hkeys "most_active_hour") as [-> | ->]; [set_solver | done|].
      by destruct (behavior1 !! "most_active_hour"). }
    assert (Hd : day_correlation behavior1 behavior2 = []).
    { unfold day_correlation.
      destruct (Hkeys "most_active_day") as [-> | ->]; [set_solver | done|].
      by destruct (behavior1 !! "most_active_day"). }
    assert (Hl : length_correlation behavior1 behavior2 = []).
    { unfold length_correlation.
      destruct (Hkeys "avg_content_length") as [-> | ->]; [set_solver | done|].
      by destruct (behavior1 !! "avg_content_length"). }
    by rewrite Hh, Hd, Hl.
Qed.

(** X15: when the most active hours of the two profiles, where both are
    given, differ by at most 12 and the average content lengths, where
    both are given, are not negative, the behavioural correlation lies
    in [0, 1]. *)
Theorem behavioral_correlation_in_unit_interval (behavior1 behavior2 : gmap string Q) :
  (forall h1 h2, behavior1 !! "most_active_hour" = Some h1 ->
                 behavior2 !! "most_active_hour" = Some h2 -> Qabs (h1 - h2) <= 12)%Q ->
  (forall l1 l2, behavior1 !! "avg_content_length" = Some l1 ->
                 behavior2 !! "avg_content_length" = Some l2 -> 0 <= l1 /\ 0 <= l2)%Q ->
  (0 <= _calculate_behavioral_correlation behavior1 behavior2 <= 1)%Q.
Proof.
  intros Hhour Hlen. unfold _calculate_behavioral_correlation.
  destruct (bool_decide (behavior1 = ∅) || bool_decide (behavior2 = ∅)); [done|].
  assert (Hall : Forall (fun x => 0 <= x <= 1)%Q
                   (hour_correlation behavior1 behavior2
                    ++ day_correlation behavior1 behavior2
                    ++ length_correlation behavior1 behavior2)).
  { repeat apply Forall_app_2; [|apply day_correlation_range|].
    - pose proof (hour_correlation_le_1 behavior1 behavior2) as Hle. revert Hle.
      unfold hour_correlation.
      destruct (behavior1 !! "most_active_hour") as [h1|],
               (behavior2 !! "most_active_hour") as [h2|]; try constructor; [|constructor].
      apply Forall_cons in Hle as [Hle _]. split; [|done].
      apply one_minus_ratio_ge_0; [by apply Hhour | reflexivity].
    - pose proof (length_correlation_le_1 behavior1 behavior2) as Hle. revert Hle.
      unfold length_correlation.
      destruct (behavior1 !! "avg_content_length") as [l1|],
               (behavior2 !! "avg_content_length") as [l2|]; try constructor; [|constructor].
      apply Forall_cons in Hle as [Hle _]. split; [|done].
      destruct (Hlen l1 l2 eq_refl eq_refl) as [H1 H2].
      apply one_minus_ratio_ge_0; [by apply Qabs_diff_le_max|].
      eapply Qlt_le_trans; [|apply max3_ge_1]. reflexivity. }
  destruct (_ ++ _) as [|x l] eqn:Hl; [done|].
  by apply mean_bounds.
Qed.

Lemma behavioral_correlation_in_unit_interval_witness :
  (0 <= _calculate_behavioral_correlation (behavior_of 9 1 100) (behavior_of 20 3 250) <= 1)%Q.
Proof.
  apply (behavioral_correlation_in_unit_interval (behavior_of 9 1 100) (behavior_of 20 3 250)).
  - intros h1 h2 H1 H2. vm_compute in H1, H2.
    injection H1 as <-. injection H2 as <-. vm_compute. discriminate.
  - intros l1 l2 H1 H2. vm_compute in H1, H2.
    injection H1 as <-. injection H2 as <-. split; vm_compute; discriminate.
Defined.

End BehaviourRange.

(** ** The footprint score and the strength of a correlation *)
Section FootprintFacts.
Import Text Analyzer Signals Correlator.

Definition found_entries (correlations : list (string * presence)) : list (string * presence) :=
  filter (fun kv => found (snd kv) = true) correlations.

(** Every found entry carries the confidence 100, as the loop of
    [correlate_accounts] stores it. *)
Definition stored_by_loop (correlations : list (string * presence)) : Prop :=
  Forall (fun kv => found (snd kv) = true -> confidence (snd kv) = 100%Z) correlations.

Lemma found_confidence_sum (correlations : list (string * presence)) :
  stored_by_loop correlations ->
  fold_right Z.add 0%Z (map (fun kv => confidence (snd kv)) (found_entries correlations))
  = (100 * Z.of_nat (length (found_entries correlations)))%Z.
Proof.
  unfold found_entries.
  induction 1 as [|kv l Hkv Hl IH]; [done|].
  rewrite filter_cons. destruct (decide (found kv.2 = true)) as [Hf|Hf]; [|done].
  cbn [map fold_right length]. rewrite IH, (Hkv Hf). lia.
Qed.

Lemma footprint_score_value (correlations : list (string * presence)) :
  stored_by_loop correlations ->
  _calculate_footprint_score correlations
  = if (length (found_entries correlations) =? 0)%nat then 0%Z
    else Z.min 100 (12 * Z.of_nat (length (found_entries correlations)) + 40).
Proof.
  intros Hc. unfold _calculate_footprint_score. fold (found_entries correlations).
  rewrite (found_confidence_sum _ Hc).
  destruct (length (found_entries correlations)) as [|n]; [reflexivity|].
  cbn [Nat.eqb]. f_equal.
  replace (Nat.max 1 (S n)) with (S n) by lia.
  set (k := Z.of_nat (S n)).
  assert (Hk : ~ (inject_Z k == 0)%Q).
  { intros H. apply (inject_Z_injective k 0) in H. unfold k in H. lia. }
  rewrite <- (Qfloor_Z (12 * k + 40)). apply Qfloor_comp.
  rewrite inject_Z_plus, !inject_Z_mult.
  change (length platforms) with 5. change (inject_Z (Z.of_nat 5)) with (5 # 1)%Q.
  change (inject_Z 12) with (12 # 1)%Q. change (inject_Z 100) with (100 # 1)%Q.
  change (inject_Z 40) with (40 # 1)%Q. field. exact Hk.
Qed.

Lemma presence_of_stored (fs : filesystem) (username data_dir platform : string) :
  found (presence_of fs username data_dir platform) = true ->
  confidence (presence_of fs username data_dir platform) = 100%Z.
Proof.
  unfold presence_of.
  destruct (_load_platform_data fs platform username data_dir) as [[[d|t]|]|e]; try done.
  destruct (data_truthy d); done.
Qed.

Lemma correlations_stored_by_loop (fs : filesystem) (username data_dir : string) :
  stored_by_loop (fold_left (check_platform fs username data_dir) platforms []).
Proof.
  rewrite correlations_spec. unfold stored_by_loop. apply Forall_forall.
  intros kv (p & -> & _)%list_elem_of_fmap. apply presence_of_stored.
Qed.

(** X16: in a result of [correlate_accounts], [total_platforms] is at
    most 5 and [digital_footprint_score] is 0 when the username was found
    on no platform and [12 * total_platforms + 40] otherwise: 52, 64, 76,
    88 or 100. *)
Theorem footprint_score_counts_platforms
    (fs : filesystem) (username data_dir : string) (r : correlation_result) :
  correlate_accounts fs username data_dir = Ok r ->
  total_platforms r <= 5
  /\ digital_footprint_score r
     = (if (total_platforms r =? 0)%nat then 0
        else 12 * Z.of_nat (total_platforms r) + 40)%Z
  /\ (0 <= digital_footprint_score r <= 100)%Z.
Proof.
  unfold correlate_accounts.
  pose proof (correlations_stored_by_loop fs username data_dir) as Hstored.
  rewrite correlations_spec in *.
  set (correlations :=
         map (fun platform => (platform, presence_of fs username data_dir platform)) platforms)
    in *.
  destruct (_analyze_correlations correlations) as [a|e]; [|done].
  intros Hr. injection Hr as <-.
  cbn [total_platforms digital_footprint_score].
  rewrite (footprint_score_value correlations Hstored).
  unfold found_entries.
  set (n := length (filter (fun kv => found kv.2 = true) correlations)).
  assert (Hn : n <= 5).
  { unfold n, correlations. etrans; [apply length_filter|]. by rewrite length_map. }
  split; [done|].
  destruct (n =? 0)%nat eqn:H0; [lia|]. apply Nat.eqb_neq in H0. lia.
Qed.

(** The profile of Jane Doe as two platforms store it. *)
Definition jane_fields : gmap string string :=
  <["full_name" := "Jane Doe"]> (<["biography" := "Writer and traveller"]> ∅).

Definition jane_file : data_file :=
  {| ctime := 0;
     parsed := Ok (DictDoc {| pd_profile := Some (ProfileDict jane_fields);
                              pd_other_keys := 1 |}) |}.

(** A data directory in which [instagram] and [twitter] hold a data file
    with that profile and the other three platforms have no directory. *)
Definition jane_directory : filesystem :=
  fun data_dir platform username =>
    if String.eqb platform "instagram" || String.eqb platform "twitter"
    then Listing [jane_file] else NoDirectory.

Lemma footprint_score_counts_platforms_witness :
  exists r,
    correlate_accounts jane_directory "jane" "data" = Ok r
    /\ total_platforms r <= 5
    /\ digital_footprint_score r
       = (if (total_platforms r =? 0)%nat then 0
          else 12 * Z.of_nat (total_platforms r) + 40)%Z
    /\ (0 <= digital_footprint_score r <= 100)%Z.
Proof.
  destruct (correlate_accounts jane_directory "jane" "data") as [r|e] eqn:Hr;
    [|vm_compute in Hr; discriminate].
  exists r. split; [reflexivity|].
  apply (footprint_score_counts_platforms jane_directory "jane" "data" r). exact Hr.
Defined.

Ltac split_branch :=
  match goal with |- context [if ?c then _ else _] => destruct c end.

Lemma compare_profiles_bounds (found_platforms : list string)
    (profiles : list (gmap string string)) :
  (0 <= identity_confidence (compare_profiles found_platforms profiles) <= 90)%Z
  /\ length (common_elements (compare_profiles found_platforms profiles)) <= 2
  /\ length (discrepancies (compare_profiles found_platforms profiles)) <= 2
  /\ (correlation_strength (compare_profiles found_platforms profiles) = StrengthHigh ->
        4 <= length found_platforms
        /\ length (common_elements (compare_profiles found_platforms profiles)) = 2
        /\ discrepancies (compare_profiles found_platforms profiles) = []).
Proof.
  unfold compare_profiles.
  cbn [identity_confidence common_elements discrepancies correlation_strength platforms_found].
  set (names := filter _ (map _ profiles)).
  set (bios := filter _ (map _ profiles)).
  set (nc := if (length (list_of_set names) =? 1)%nat && (0 <? length names)%nat
             then _ else _).
  set (nd := if (length (list_of_set names) =? 1)%nat && (0 <? length names)%nat
             then [] else _).
  set (bc := if (0 <? length bios)%nat && Qltb (7 # 10) (_calculate_text_similarity bios)
             then _ else _).
  set (bd := if (0 <? length bios)%nat && negb (Qltb (7 # 10) (_calculate_text_similarity bios))
                && Qltb (_calculate_text_similarity bios) (3 # 10) then _ else _).
  assert (Hnc : length nc <= 1) by (unfold nc; split_branch; cbn [length]; lia).
  assert (Hnd : length nd <= 1) by (unfold nd; repeat split_branch; cbn [length]; lia).
  assert (Hbc : length bc <= 1) by (unfold bc; split_branch; cbn [length]; lia).
  assert (Hbd : length bd <= 1) by (unfold bd; split_branch; cbn [length]; lia).
  rewrite !length_app.
  unfold _calculate_identity_confidence. rewrite !length_app.
  split; [lia|]. split; [lia|]. split; [lia|].
  destruct (80 <? _)%Z eqn:Hhigh; [|by destruct (60 <? _)%Z].
  apply Z.ltb_lt in Hhigh. intros _.
  split; [lia|]. split; [lia|].
  destruct nd, bd; simpl in *; try done; lia.
Qed.

(** X17: an analysis that [_analyze_correlations] returns gives an
    identity confidence between 0 and 90, lists at most two common
    elements and at most two discrepancies, and reports the strength High
    only when the username was found on at least four platforms, the
    names agree, the biographies are similar and no discrepancy is
    listed; with fewer than two platforms found it reports Low with
    confidence 50. *)
Theorem strength_high_needs_four_platforms
    (correlations : list (string * presence)) (a : correlation_analysis) :
  _analyze_correlations correlations = Ok a ->
  (0 <= identity_confidence a <= 90)%Z
  /\ length (common_elements a) <= 2
  /\ length (discrepancies a) <= 2
  /\ (correlation_strength a = StrengthHigh ->
        4 <= length (found_entries correlations)
        /\ length (common_elements a) = 2
        /\ discrepancies a = [])
  /\ (length (found_entries correlations) < 2 ->
        correlation_strength a = StrengthLow
        /\ identity_confidence a = 50%Z
        /\ platforms_found a = None).
Proof.
  unfold _analyze_correlations. fold (found_entries correlations).
  rewrite length_map.
  destruct (length (found_entries correlations) <? 2)%nat eqn:Hn.
  { intros [= <-]. cbn. repeat split; try lia; done. }
  apply Nat.ltb_ge in Hn.
  destruct (found_profiles correlations) as [profiles|e]; [|done].
  destruct (profile_dicts profiles) as [dicts|e]; [|done].
  intros [= <-].
  destruct (compare_profiles_bounds (map fst (found_entries correlations)) dicts)
    as (Hc & Hce & Hd & Hhigh).
  rewrite length_map in Hhigh.
  split; [done|]. split; [done|]. split; [done|]. split; [done | lia].
Qed.

(** The username found on two platforms with the same profile. *)
Definition jane_presence : presence :=
  {| found := true; c_profile := Some (ProfileDict jane_fields); confidence := 100 |}.

Definition jane_correlations : list (string * presence) :=
  [("instagram", jane_presence); ("twitter", jane_presence)].

Definition jane_analysis : correlation_analysis :=
  compare_profiles ["instagram"; "twitter"] [jane_fields; jane_fields].

Lemma strength_high_needs_four_platforms_witness :
  (0 <= identity_confidence jane_analysis <= 90)%Z
  /\ length (common_elements jane_analysis) <= 2
  /\ length (discrepancies jane_analysis) <= 2
  /\ (correlation_strength jane_analysis = StrengthHigh ->
        4 <= length (found_entries jane_correlations)
        /\ length (common_elements jane_analysis) = 2
        /\ discrepancies jane_analysis = [])
  /\ (length (found_entries jane_correlations) < 2 ->
        correlation_strength jane_analysis = StrengthLow
        /\ identity_confidence jane_analysis = 50%Z
        /\ platforms_found jane_analysis = None).
Proof.
  apply (strength_high_needs_four_platforms jane_correlations jane_analysis).
  reflexivity.
Defined.

End FootprintFacts.

(** ** The matcher: the blocks fit in both sequences *)
Section DifflibRange.
Import Difflib.
Variables a b : list ascii.

(** A best match inside [b[blo:bhi]]. *)
Definition within_b (blo bhi : nat) (m : best) : Prop :=
  blo <= m.1.2 /\ m.1.2 + m.2 <= bhi.

(** A run that ends at index [j] of [b] and starts at [blo] or later. *)
Definition run_ok (blo j k : nat) : Prop := k = 0 \/ k + blo <= S j.

(** The row [j2len] from index [j] on. *)
Fixpoint row_ok (blo j : nat) (row : list nat) : Prop :=
  match row with
  | [] => True
  | k :: rest => run_ok blo j k /\ row_ok blo (S j) rest
  end.

Lemma row_step_within_b (blo bhi : nat) (x : ascii) (i : nat) (bs : list ascii) :
  forall (j old_before : nat) (old : list nat) (m : best),
    (old_before = 0 \/ old_before + blo <= j) ->
    row_ok blo j old ->
    within_b blo bhi m ->
    row_ok blo j (row_step b blo bhi x i j bs old_before old m).1
    /\ within_b blo bhi (row_step b blo bhi x i j bs old_before old m).2.
Proof.
  induction bs as [|y bs IH]; intros j old_before old m Hb Hold Hm.
  - simpl. done.
  - cbn [row_step].
    set (hit := Ascii.eqb y x && negb (popular b x) && (blo <=? j)%nat && (j <? bhi)%nat).
    set (k := if hit then S old_before else 0).
    set (m' := if hit && (bestsize m <? k)%nat then (S i - k, S j - k, k) else m).
    assert (Hhit : hit = true -> blo <= j < bhi).
    { unfold hit. intros H. apply andb_true_iff in H as [H H2].
      apply andb_true_iff in H as [_ H1].
      apply Nat.leb_le in H1. apply Nat.ltb_lt in H2. done. }
    assert (Hk : run_ok blo j k).
    { unfold k, run_ok. destruct hit; [|by left]. right. specialize (Hhit eq_refl). lia. }
    assert (Hm' : within_b blo bhi m').
    { unfold m'. destruct hit; [|done]. cbn [andb].
      destruct (bestsize m <? k)%nat; [|done].
      specialize (Hhit eq_refl). unfold within_b, run_ok, k in *. simpl. lia. }
    assert (Hhd : hd 0 old = 0 \/ hd 0 old + blo <= S j).
    { destruct old as [|v old]; [by left|]. simpl in *. by destruct Hold. }
    assert (Htl : row_ok blo (S j) (tl old)).
    { destruct old as [|v old]; [done|]. simpl in *. by destruct Hold. }
    specialize (IH (S j) (hd 0 old) (tl old) m' Hhd Htl Hm').
    destruct (row_step b blo bhi x i (S j) bs (hd 0 old) (tl old) m') as [row m''].
    simpl in *. destruct IH as [IH1 IH2]. done.
Qed.

Lemma rows_within_b (blo bhi : nat) (xs : list ascii) :
  forall (i : nat) (j2len : list nat) (m : best),
    row_ok blo 0 j2len ->
    within_b blo bhi m ->
    within_b blo bhi (rows b blo bhi i xs j2len m).
Proof.
  induction xs as [|x xs IH]; intros i j2len m Hrow Hm; [done|].
  cbn [rows].
  pose proof (row_step_within_b blo bhi x i b 0 0 j2len m ltac:(by left) Hrow Hm) as [H1 H2].
  destruct (row_step b blo bhi x i 0 b 0 j2len m) as [newj2len m'].
  by apply IH.
Qed.

Lemma extend_left_within_b (alo blo bhi : nat) :
  forall besti bestj size,
    within_b blo bhi (besti, bestj, size) ->
    within_b blo bhi (extend_left a b alo blo besti bestj size).
Proof.
  induction besti as [|before IH]; intros bestj size Hm; [done|].
  cbn [extend_left].
  destruct ((alo <? S before)%nat && (blo <? bestj)%nat
            && same_elt (nth_a a (S before - 1)) (nth_b b (bestj - 1))) eqn:Hg; [|done].
  apply IH. apply andb_true_iff in Hg as [Hg _]. apply andb_true_iff in Hg as [_ Hg].
  apply Nat.ltb_lt in Hg. unfold within_b in *. simpl in *. lia.
Qed.

Lemma extend_right_within_b (blo bhi : nat) :
  forall room besti bestj size,
    within_b blo bhi (besti, bestj, size) ->
    within_b blo bhi (extend_right a b room bhi besti bestj size).
Proof.
  induction room as [|room IH]; intros besti bestj size Hm; [done|].
  cbn [extend_right].
  destruct ((bestj + size <? bhi)%nat
            && same_elt (nth_a a (besti + size)) (nth_b b (bestj + size))) eqn:Hg; [|done].
  apply IH. apply andb_true_iff in Hg as [Hg _].
  apply Nat.ltb_lt in Hg. unfold within_b in *. simpl in *. lia.
Qed.

Lemma find_longest_match_within_b (alo ahi blo bhi : nat) :
  blo <= bhi -> within_b blo bhi (find_longest_match a b alo ahi blo bhi).
Proof.
  intros Hle. unfold find_longest_match.
  assert (H : within_b blo bhi
                (rows b blo bhi alo (take (ahi - alo) (drop alo a)) [] (alo, blo, 0))).
  { apply rows_within_b; [done|]. unfold within_b. simpl. lia. }
  destruct (rows b blo bhi alo (take (ahi - alo) (drop alo a)) [] (alo, blo, 0))
    as [[besti bestj] size].
  apply (extend_left_within_b alo) in H.
  destruct (extend_left a b alo blo besti bestj size) as [[besti' bestj'] size'].
  by apply extend_right_within_b.
Qed.

(** The sum of the sizes of a list of blocks. *)
Definition total_size (blocks : list best) : nat :=
  foldr (fun m n => bestsize m + n) 0 blocks.

Lemma total_size_app (l k : list best) : total_size (l ++ k) = total_size l + total_size k.
Proof. induction l as [|m l IH]; simpl; [done|]. rewrite IH. lia. Qed.

Definition both_ok (r : nat * nat * nat * nat) : Prop :=
  r.1.1.1 <= r.1.1.2 /\ r.1.2 <= r.2.

Definition span_a (queue : list (nat * nat * nat * nat)) : nat :=
  foldr (fun r n => (r.1.1.2 - r.1.1.1) + n) 0 queue.

Definition span_b (queue : list (nat * nat * nat * nat)) : nat :=
  foldr (fun r n => (r.2 - r.1.2) + n) 0 queue.

(** The blocks found in the ranges of a queue fit side by side in those
    ranges, in [a] and in [b]. *)
Lemma blocks_loop_total (fuel : nat) :
  forall (queue : list (nat * nat * nat * nat)) (acc : list best),
    Forall both_ok queue ->
    total_size (blocks_loop a b fuel queue acc) <= total_size acc + span_a queue
    /\ total_size (blocks_loop a b fuel queue acc) <= total_size acc + span_b queue.
Proof.
  induction fuel as [|fuel IH]; intros queue acc Hok; [simpl; lia|].
  destruct queue as [|[[[alo ahi] blo] bhi] queue]; [simpl; lia|].
  cbn [blocks_loop].
  apply Forall_cons in Hok as [[Ha Hb] Hok]. simpl in Ha, Hb.
  pose proof (find_longest_match_bounds a b alo ahi blo bhi Ha) as Hwa.
  pose proof (find_longest_match_within_b alo ahi blo bhi Hb) as Hwb.
  destruct (find_longest_match a b alo ahi blo bhi) as [[i j] k].
  unfold within_a in Hwa. unfold within_b in Hwb. simpl in Hwa, Hwb.
  cbn [span_a span_b foldr]. fold (span_a queue). fold (span_b queue). simpl.
  destruct (0 <? k)%nat.
  - set (q1 := if (alo <? i)%nat && (blo <? j)%nat then (alo, i, blo, j) :: queue else queue).
    set (q2 := if (i + k <? ahi)%nat && (j + k <? bhi)%nat
               then (i + k, ahi, j + k, bhi) :: q1 else q1).
    assert (Hq1 : Forall both_ok q1
                  /\ span_a q1 <= span_a queue + (i - alo)
                  /\ span_b q1 <= span_b queue + (j - blo)).
    { unfold q1. destruct ((alo <? i)%nat && (blo <? j)%nat).
      - split; [constructor; [unfold both_ok; simpl; lia | done]|].
        cbn [span_a span_b foldr]. fold (span_a queue). fold (span_b queue). simpl. lia.
      - split; [done | lia]. }
    destruct Hq1 as (Hq1 & Ha1 & Hb1).
    assert (Hq2 : Forall both_ok q2
                  /\ span_a q2 <= span_a q1 + (ahi - (i + k))
                  /\ span_b q2 <= span_b q1 + (bhi - (j + k))).
    { unfold q2. destruct ((i + k <? ahi)%nat && (j + k <? bhi)%nat).
      - split; [constructor; [unfold both_ok; simpl; lia | done]|].
        cbn [span_a span_b foldr]. fold (span_a q1). fold (span_b q1). simpl. lia.
      - split; [done | lia]. }
    destruct Hq2 as (Hq2 & Ha2 & Hb2).
    destruct (IH q2 (acc ++ [(i, j, k)]) Hq2) as [IHa IHb].
    rewrite total_size_app in IHa, IHb. simpl in IHa, IHb. unfold bestsize in *. simpl in *.
    lia.
  - destruct (IH queue acc Hok) as [IHa IHb]. lia.
Qed.

Lemma matches_bounds : matches a b <= length a /\ matches a b <= length b.
Proof.
  unfold matches. fold (total_size (matching_blocks a b)). unfold matching_blocks.
  destruct (blocks_loop_total (2 * length a + 2) [(0, length a, 0, length b)] [])
    as [Ha Hb].
  - constructor; [unfold both_ok; simpl; lia | constructor].
  - change (total_size []) with 0 in Ha, Hb.
    change (span_a [(0, length a, 0, length b)]) with (length a - 0 + 0) in Ha.
    change (span_b [(0, length a, 0, length b)]) with (length b - 0 + 0) in Hb.
    lia.
Qed.

Lemma ratio_of_lists_range : (0 <= ratio_of_lists a b <= 1)%Q.
Proof.
  unfold ratio_of_lists. destruct (0 <? length a + length b)%nat eqn:Hlen; [|done].
  apply Nat.ltb_lt in Hlen. destruct matches_bounds as [Ha Hb].
  assert (Hpos : (0 < inject_Z (Z.of_nat (length a + length b)))%Q).
  { rewrite <- (Zlt_Qlt 0). lia. }
  split.
  - apply Qle_shift_div_l; [done|]. rewrite Qmult_0_l.
    change 2%Q with (inject_Z 2). rewrite <- inject_Z_mult, <- (Zle_Qle 0). lia.
  - apply Qle_shift_div_r; [done|]. rewrite Qmult_1_l.
    change 2%Q with (inject_Z 2). rewrite <- inject_Z_mult, <- Zle_Qle. lia.
Qed.

End DifflibRange.

(** ** The similarity scores of the correlator *)
Section SimilarityFacts.
Import Text Signals Difflib Correlator.

Lemma ratio_range (s t : string) : (0 <= ratio s t <= 1)%Q.
Proof. apply ratio_of_lists_range. Qed.

(** X18: the username similarity lies in [0, 1]. *)
Theorem username_similarity_in_unit_interval (username1 username2 : string) :
  (0 <= _calculate_username_similarity username1 username2 <= 1)%Q.
Proof. unfold _calculate_username_similarity. apply ratio_range. Qed.

Lemma pair_similarities_range (texts : list string) :
  Forall (fun x => 0 <= x <= 1)%Q (pair_similarities texts).
Proof.
  induction texts as [|t rest IH]; [constructor|].
  cbn [pair_similarities]. apply Forall_app_2; [|done].
  apply Forall_forall. intros x (u & -> & _)%list_elem_of_fmap. apply ratio_range.
Qed.

Lemma pair_similarities_length (texts : list string) :
  2 * length (pair_similarities texts) = length texts * (length texts - 1).
Proof.
  induction texts as [|t rest IH]; [done|].
  cbn [pair_similarities length]. rewrite length_app, length_map. nia.
Qed.

(** X19: the text similarity of a list of texts lies in [0, 1]; it is
    1 for fewer than two texts and otherwise the mean of the matcher's
    ratio over the [n * (n - 1) / 2] pairs of texts in list order. *)
Theorem text_similarity_in_unit_interval (texts : list string) :
  (0 <= _calculate_text_similarity texts <= 1)%Q
  /\ (length texts < 2 -> _calculate_text_similarity texts = 1%Q)
  /\ (2 <= length texts ->
        _calculate_text_similarity texts = mean (pair_similarities texts)
        /\ 2 * length (pair_similarities texts) = length texts * (length texts - 1)).
Proof.
  unfold _calculate_text_similarity.
  destruct (length texts <? 2)%nat eqn:Hlen.
  - apply Nat.ltb_lt in Hlen. split; [done|]. split; [done | lia].
  - apply Nat.ltb_ge in Hlen.
    pose proof (pair_similarities_length texts) as Hn.
    pose proof (pair_similarities_range texts) as Hr.
    destruct (pair_similarities texts) as [|x l] eqn:Hp; [simpl in Hn; nia|].
    fold (mean (x :: l)). split; [by apply mean_bounds|]. split; [lia | done].
Qed.

End SimilarityFacts.

(** ** The writing style: the scans, the features and their similarity *)
Section StyleFacts.
Import Text Analyzer Signals Style.

Lemma upper_run_skip (s : string) :
  String.length (skip_while is_upper s) + upper_run s = String.length s.
Proof.
  induction s as [|c s IH]; simpl; [done|]. destruct (is_upper c); simpl; lia.
Qed.

Lemma match_upper_word_shorter (after_word : bool) (s r : string) :
  match_upper_word after_word s = Some r -> String.length r < String.length s.
Proof.
  unfold match_upper_word.
  destruct (negb after_word && (2 <=? upper_run s)%nat
            && at_word_end (skip_while is_upper s)) eqn:Hg; [|discriminate].
  intros [= <-]. apply andb_true_iff in Hg as [Hg _]. apply andb_true_iff in Hg as [_ Hg].
  apply Nat.leb_le in Hg. pose proof (upper_run_skip s). lia.
Qed.

(** The fuel of the three scans is enough: more fuel gives the same
    count. *)
Lemma count_upper_words_from_fuel (fuel : nat) :
  forall (fuel' : nat) (after_word : bool) (s : string),
    String.length s <= fuel -> String.length s <= fuel' ->
    count_upper_words_from fuel after_word s = count_upper_words_from fuel' after_word s.
Proof.
  induction fuel as [|fuel IH]; intros fuel' after_word s Hf Hf'.
  - destruct s; [|simpl in Hf; lia]. by destruct fuel'.
  - destruct fuel' as [|fuel']; [destruct s; [done | simpl in Hf'; lia]|].
    destruct s as [|c s]; [done|]. cbn [count_upper_words_from].
    destruct (match_upper_word after_word (String c s)) as [r|] eqn:Hm.
    + apply match_upper_word_shorter in Hm. simpl in *. f_equal. apply IH; lia.
    + simpl in *. apply IH; lia.
Qed.

Lemma count_upper_words_fuel (fuel : nat) (s : string) :
  String.length s <= fuel -> count_upper_words_from fuel false s = count_upper_words s.
Proof. intros H. unfold count_upper_words. by apply count_upper_words_from_fuel. Qed.

Lemma count_matches_from_fuel (match_at : string -> option string) (fuel : nat) :
  (forall s r, match_at s = Some r -> String.length r < String.length s) ->
  forall (fuel' : nat) (s : string),
    String.length s <= fuel -> String.length s <= fuel' ->
    count_matches_from match_at fuel s = count_matches_from match_at fuel' s.
Proof.
  intros Hshort. induction fuel as [|fuel IH]; intros fuel' s Hf Hf'.
  - destruct s; [|simpl in Hf; lia]. by destruct fuel'.
  - destruct fuel' as [|fuel']; [destruct s; [done | simpl in Hf'; lia]|].
    destruct s as [|c s]; [done|]. cbn [count_matches_from].
    destruct (match_at (String c s)) as [r|] eqn:Hm.
    + apply Hshort in Hm. simpl in *. f_equal. apply IH; lia.
    + simpl in *. apply IH; lia.
Qed.

Lemma count_sigil_fuel (sigil : ascii) (fuel : nat) (s : string) :
  String.length s <= fuel ->
  count_matches_from (match_sigil sigil) fuel s = count_matches (match_sigil sigil) s.
Proof.
  intros H. unfold count_matches.
  apply count_matches_from_fuel; [apply match_sigil_shorter | done | done].
Qed.

Lemma per_nonneg (count unit : nat) : (0 <= per count unit)%Q.
Proof.
  unfold per. apply Qle_shift_div_l.
  - rewrite <- (Zlt_Qlt 0). lia.
  - rewrite Qmult_0_l, <- (Zle_Qle 0). lia.
Qed.

(** No value of the feature dict is negative. *)
Definition nonneg (features : gmap string Q) : Prop :=
  forall key val, features !! key = Some val -> (0 <= val)%Q.

Lemma extract_features_nonneg (text : string) :
  nonneg (_extract_writing_style_features text).
Proof.
  intros key val. unfold _extract_writing_style_features.
  destruct (negb (truthy text)); [by rewrite lookup_empty|].
  intros H%elem_of_list_to_map_2.
  repeat (apply elem_of_cons in H as [[= _ ->] | H]; [apply per_nonneg|]).
  by apply elem_of_nil in H.
Qed.

(** The nine features of a text that is not empty. *)
Definition feature_names : list string :=
  ["avg_sentence_length"; "avg_word_length"; "exclamation_ratio"; "question_ratio";
   "comma_ratio"; "uppercase_ratio"; "emoji_ratio"; "hashtag_ratio"; "mention_ratio"].

Lemma extract_features_keys (text : string) (key : string) :
  text <> EmptyString ->
  is_Some (_extract_writing_style_features text !! key) <-> key ∈ feature_names.
Proof.
  intros Hne. unfold _extract_writing_style_features.
  destruct text as [|c text]; [done|]. cbn [truthy negb].
  rewrite <- elem_of_dom, dom_list_to_map_L, elem_of_list_to_set. reflexivity.
Qed.

Lemma item_nonneg (features : gmap string Q) (key : string) :
  nonneg features -> (0 <= item features key)%Q.
Proof.
  intros H. unfold item. destruct (features !! key) as [v|] eqn:Hv; simpl; [|done].
  by apply (H key).
Qed.

Lemma feature_similarity_range (val1 val2 : Q) :
  (0 <= val1)%Q -> (0 <= val2)%Q -> (0 <= feature_similarity val1 val2 <= 1)%Q.
Proof.
  intros H1 H2. unfold feature_similarity.
  assert (Hpos : (0 < max3 val1 val2 1)%Q).
  { eapply Qlt_le_trans; [|apply max3_ge_1]. reflexivity. }
  split.
  - apply one_minus_ratio_ge_0; [by apply Qabs_diff_le_max | done].
  - apply one_minus_ratio_le_1; [apply Qabs_nonneg | done].
Qed.

Lemma feature_similarity_sym (val1 val2 : Q) :
  (feature_similarity val1 val2 == feature_similarity val2 val1)%Q.
Proof.
  unfold feature_similarity, max3.
  rewrite (Qabs_Qminus val1 val2), (Q.max_comm val1 val2). reflexivity.
Qed.

Lemma common_keys_sym (features1 features2 : gmap string Q) :
  common_keys features1 features2 = common_keys features2 features1.
Proof. unfold common_keys. by rewrite (comm_L (∩) (dom features1)). Qed.

Lemma similarities_range (features1 features2 : gmap string Q) (keys : list string) :
  nonneg features1 -> nonneg features2 ->
  Forall (fun x => 0 <= x <= 1)%Q
    (map (fun key => feature_similarity (item features1 key) (item features2 key)) keys).
Proof.
  intros H1 H2. apply Forall_forall. intros x (k & -> & _)%list_elem_of_fmap.
  apply feature_similarity_range; by apply item_nonneg.
Qed.

Lemma style_similarity_le_1 (features1 features2 : gmap string Q) :
  nonneg features1 -> nonneg features2 ->
  (_calculate_style_similarity features1 features2 <= 1)%Q.
Proof.
  intros H1 H2. unfold _calculate_style_similarity.
  destruct (bool_decide (features1 = ∅) || bool_decide (features2 = ∅)); [done|].
  destruct (common_keys features1 features2) as [|key keys] eqn:Hkeys; [done|].
  apply mean_bounds with (lo := 0%Q); [done | by apply similarities_range].
Qed.

(** X20: the style similarity of two feature dicts without negative
    values lies in [0, 1]. *)
Theorem style_similarity_in_unit_interval (features1 features2 : gmap string Q) :
  nonneg features1 -> nonneg features2 ->
  (0 <= _calculate_style_similarity features1 features2 <= 1)%Q.
Proof.
  intros H1 H2. split; [|by apply style_similarity_le_1].
  unfold _calculate_style_similarity.
  destruct (bool_decide (features1 = ∅) || bool_decide (features2 = ∅)); [done|].
  destruct (common_keys features1 features2) as [|key keys] eqn:Hkeys; [done|].
  apply mean_bounds with (hi := 1%Q); [done | by apply similarities_range].
Qed.

(** X21: swapping the two feature dicts leaves the similarity of every
    single feature unchanged, so [_get_matching_features] reports the
    same features for both orders of its arguments, whatever the order in
    which the common keys are visited. *)
Theorem matching_features_do_not_depend_on_order
    (features1 features2 : gmap string Q) (key : string) :
  key ∈ _get_matching_features features1 features2
  <-> key ∈ _get_matching_features features2 features1.
Proof.
  assert (Hone : forall f1 f2 : gmap string Q,
            key ∈ _get_matching_features f1 f2 -> key ∈ _get_matching_features f2 f1).
  { intros f1 f2. unfold _get_matching_features.
    rewrite !list_elem_of_filter, (common_keys_sym f1 f2).
    intros [Hlt Hin]. split; [|done].
    unfold Qltb in *. apply negb_true_iff in Hlt. apply negb_true_iff.
    apply not_true_is_false. intros Hle. apply Qle_bool_iff in Hle.
    rewrite (feature_similarity_sym (item f2 key) (item f1 key)) in Hle.
    apply Qle_bool_iff in Hle. congruence. }
  split; apply Hone.
Qed.

End StyleFacts.

(** ** The writing-style analysis of a batch *)
Section StyleAnalysisFacts.
Import Text Analyzer Signals Style.

Lemma style_similarity_in_unit_interval_witness :
  (0 <= _calculate_style_similarity
          (_extract_writing_style_features "Great day at the BEACH! #sun")
          (_extract_writing_style_features "Is it a great day? Yes, it is.") <= 1)%Q.
Proof.
  apply (style_similarity_in_unit_interval
           (_extract_writing_style_features "Great day at the BEACH! #sun")
           (_extract_writing_style_features "Is it a great day? Yes, it is."));
    apply extract_features_nonneg.
Defined.

(** The features the analysis extracts from the texts of one record. *)
Definition features_of (pd : profile_data) : gmap string Q :=
  _extract_writing_style_features (join " " (all_text pd)).

(** What the first loop appends for one record, if anything. *)
Definition style_profile_of (pd : profile_data) : option style_profile :=
  match all_text pd with
  | [] => None
  | _ :: _ =>
      Some {| sp_platform := default "" (platform pd);
              sp_profile_data := pd;
              sp_style_features := features_of pd;
              sp_text_sample := String.substring 0 500 (join " " (all_text pd)) |}
  end.

Lemma omap_cons {A B : Type} (f : A -> option B) (x : A) (l : list A) :
  omap f (x :: l) = match f x with Some y => y :: omap f l | None => omap f l end.
Proof. reflexivity. Qed.

Lemma fold_style_step (l : list profile_data) :
  forall acc, fold_left style_step l acc = acc ++ omap style_profile_of l.
Proof.
  induction l as [|pd l IH]; intros acc; [by rewrite app_nil_r|].
  cbn [fold_left]. rewrite IH, (omap_cons style_profile_of pd l).
  unfold style_step, style_profile_of, features_of.
  destruct (all_text pd); [done|]. by rewrite <- app_assoc.
Qed.

Lemma omap_split {A B : Type} (f : A -> option B) (l : list A) :
  forall (k1 : list B) (y : B) (k2 : list B),
    omap f l = k1 ++ y :: k2 ->
    exists l1 x l2, l = l1 ++ x :: l2 /\ f x = Some y /\ omap f l1 = k1 /\ omap f l2 = k2.
Proof.
  induction l as [|x l IH]; intros k1 y k2 H; [by destruct k1|].
  rewrite omap_cons in H. destruct (f x) as [z|] eqn:Hx.
  - destruct k1 as [|z' k1]; simpl in H.
    + injection H as -> <-. by exists [], x, l.
    + injection H as -> H. destruct (IH _ _ _ H) as (l1 & x' & l2 & -> & Hx' & H1 & H2).
      exists (x :: l1), x', l2. rewrite omap_cons, Hx, H1. done.
  - destruct (IH _ _ _ H) as (l1 & x' & l2 & -> & Hx' & H1 & H2).
    exists (x :: l1), x', l2. rewrite omap_cons, Hx, H1. done.
Qed.

(** The entry the inner loop appends for a pair of style profiles. *)
Definition style_entry_of (p1 p2 : style_profile) : style_entry :=
  {| se_profile1 := sp_platform p1;
     se_profile2 := sp_platform p2;
     se_similarity_score :=
       _calculate_style_similarity (sp_style_features p1) (sp_style_features p2);
     se_matching_features :=
       _get_matching_features (sp_style_features p1) (sp_style_features p2) |}.

Definition similar_style (p1 p2 : style_profile) : Prop :=
  Qltb (7 # 10) (_calculate_style_similarity (sp_style_features p1) (sp_style_features p2))
  = true.

#[local] Instance similar_style_dec (p1 p2 : style_profile) : Decision (similar_style p1 p2).
Proof. unfold similar_style. apply _. Defined.

Lemma style_row_spec (p1 : style_profile) (later : list style_profile) :
  forall acc,
    style_row p1 later acc
    = acc ++ map (style_entry_of p1) (filter (similar_style p1) later).
Proof.
  induction later as [|p2 rest IH]; intros acc; cbn [style_row]; [by rewrite app_nil_r|].
  rewrite filter_cons. destruct (decide (similar_style p1 p2)) as [Hsim|Hsim].
  - unfold similar_style in Hsim. rewrite Hsim, IH, <- app_assoc. done.
  - unfold similar_style in Hsim. apply not_true_is_false in Hsim. rewrite Hsim. apply IH.
Qed.

Lemma style_rows_spec (style_profiles : list style_profile) :
  forall acc,
    exists new,
      style_rows style_profiles acc = acc ++ new
      /\ Forall (fun e => exists l1 p1 l2 p2,
                   style_profiles = l1 ++ p1 :: l2 /\ p2 ∈ l2
                   /\ similar_style p1 p2 /\ e = style_entry_of p1 p2) new.
Proof.
  induction style_profiles as [|p1 later IH]; intros acc; cbn [style_rows].
  - exists []. by rewrite app_nil_r.
  - rewrite style_row_spec.
    destruct (IH (acc ++ map (style_entry_of p1) (filter (similar_style p1) later)))
      as (new & -> & Hnew).
    exists (map (style_entry_of p1) (filter (similar_style p1) later) ++ new).
    split; [by rewrite app_assoc|]. apply Forall_app. split.
    + apply Forall_forall. intros e (p2 & -> & Hp2)%list_elem_of_fmap.
      apply list_elem_of_filter in Hp2 as [Hsim Hin].
      by exists [], p1, later, p2.
    + eapply Forall_impl; [exact Hnew|].
      intros e (l1 & q1 & l2 & q2 & -> & Hq2 & Hsim & ->).
      by exists (p1 :: l1), q1, l2, q2.
Qed.

(** X22: in the result of the writing-style analysis, [total_style_matches]
    is the number of entries, and every entry joins two records of the
    batch that both have text, the first listed before the second: it
    names their platforms, its score is the style similarity of the
    features of their joined texts and lies above 0.7 and at most at 1,
    and its matching features are those of the two feature dicts. *)
Theorem style_matches_are_similar_pairs (l : list profile_data) :
  total_style_matches (analyze_writing_style_correlation l)
  = length (style_matches (analyze_writing_style_correlation l))
  /\ forall e, e ∈ style_matches (analyze_writing_style_correlation l) ->
       (7 # 10 < se_similarity_score e)%Q /\ (se_similarity_score e <= 1)%Q
       /\ exists l1 pd1 l2 pd2 l3,
            l = l1 ++ pd1 :: l2 ++ pd2 :: l3
            /\ all_text pd1 <> [] /\ all_text pd2 <> []
            /\ se_profile1 e = default "" (platform pd1)
            /\ se_profile2 e = default "" (platform pd2)
            /\ se_similarity_score e
               = _calculate_style_similarity (features_of pd1) (features_of pd2)
            /\ se_matching_features e
               = _get_matching_features (features_of pd1) (features_of pd2).
Proof.
  unfold analyze_writing_style_correlation.
  cbn [total_style_matches style_matches]. split; [done|].
  intros e He. rewrite fold_style_step in He. cbn [app] in He.
  destruct (style_rows_spec (omap style_profile_of l) []) as (new & Hrows & Hnew).
  rewrite Hrows in He. cbn [app] in He. rewrite Forall_forall in Hnew.
  destruct (Hnew e He) as (k1 & p1 & k2 & p2 & Hsplit & Hp2 & Hsim & ->).
  apply omap_split in Hsplit as (l1 & pd1 & rest & -> & Hpd1 & _ & Hrest).
  apply list_elem_of_split in Hp2 as (k3 & k4 & ->).
  apply omap_split in Hrest as (l2 & pd2 & l3 & -> & Hpd2 & _ & _).
  assert (Hof : forall pd p, style_profile_of pd = Some p ->
                  all_text pd <> [] /\ sp_platform p = default "" (platform pd)
                  /\ sp_style_features p = features_of pd).
  { intros pd p. unfold style_profile_of. destruct (all_text pd); [done|].
    intros [= <-]. done. }
  destruct (Hof _ _ Hpd1) as (Ht1 & Hn1 & Hf1).
  destruct (Hof _ _ Hpd2) as (Ht2 & Hn2 & Hf2).
  cbn [style_entry_of se_similarity_score se_profile1 se_profile2 se_matching_features].
  rewrite Hf1, Hf2, Hn1, Hn2.
  split; [|split].
  - apply Qltb_lt. unfold similar_style in Hsim. by rewrite Hf1, Hf2 in Hsim.
  - apply style_similarity_le_1; apply extract_features_nonneg.
  - by exists l1, pd1, l2, pd2, l3.
Qed.

End StyleAnalysisFacts.

(** ** Content posted on several platforms *)
Section OverlapFacts.
Import Text Hashlib Analyzer Signals Style Overlap.

(** The posts of the batch in the order the two loops visit them, each
    with the platform of its record. *)
Definition batch_posts (l : list profile_data) : list (string * post) :=
  flat_map (fun pd => map (fun p => (default "" (platform pd), p)) (default [] (posts pd))) l.

(** The key a post is filed under, [None] when the loop skips the post. *)
Definition content_key (x : string * post) : option string :=
  if truthy (post_text x.2) && (20 <? String.length (post_text x.2))%nat
  then Some (_create_content_hash (post_text x.2)) else None.

Definition fingerprint_of (x : string * post) : fingerprint :=
  {| f_platform := x.1; f_post := x.2;
     f_content := String.substring 0 200 (post_text x.2) |}.

Definition post_step (gs : list (string * list fingerprint)) (x : string * post)
    : list (string * list fingerprint) :=
  match content_key x with
  | Some k => group_append k (fingerprint_of x) gs
  | None => gs
  end.

Lemma fingerprint_step_post (pl : string) (gs : list (string * list fingerprint)) (p : post) :
  fingerprint_step pl gs p = post_step gs (pl, p).
Proof.
  unfold fingerprint_step, post_step, content_key, fingerprint_of. simpl.
  destruct (truthy (post_text p) && (20 <? String.length (post_text p))%nat); done.
Qed.

Lemma fold_fingerprint_step (pl : string) (ps : list post) :
  forall gs,
    fold_left (fingerprint_step pl) ps gs
    = fold_left post_step (map (fun p => (pl, p)) ps) gs.
Proof.
  induction ps as [|p ps IH]; intros gs; simpl; [done|].
  rewrite fingerprint_step_post. apply IH.
Qed.

Lemma build_content_hashes_posts (l : list profile_data) :
  build_content_hashes l = fold_left post_step (batch_posts l) [].
Proof.
  unfold build_content_hashes. generalize (@nil (string * list fingerprint)).
  induction l as [|pd l IH]; intros gs; simpl; [done|].
  rewrite fold_left_app, IH. unfold profile_step. by rewrite fold_fingerprint_step.
Qed.

(** The fingerprints filed under [k], in the order of the batch. *)
Definition posted_under (k : string) (l : list profile_data) : list fingerprint :=
  map fingerprint_of (filter (fun x => content_key x = Some k) (batch_posts l)).

Lemma fold_post_step_lookup (k : string) (xs : list (string * post)) :
  forall gs,
    group_lookup k (fold_left post_step xs gs)
    = group_lookup k gs ++ map fingerprint_of (filter (fun x => content_key x = Some k) xs).
Proof.
  induction xs as [|x xs IH]; intros gs; cbn [fold_left]; [by rewrite app_nil_r|].
  rewrite IH. unfold post_step. rewrite filter_cons.
  destruct (content_key x) as [k'|] eqn:Hk.
  - rewrite group_lookup_append. destruct (decide (k = k')) as [->|Hne].
    + rewrite decide_True by done. simpl. by rewrite <- app_assoc.
    + rewrite decide_False by congruence. done.
  - rewrite decide_False by done. done.
Qed.

Lemma fold_post_step_ok (xs : list (string * post)) :
  forall gs, groups_ok gs -> groups_ok (fold_left post_step xs gs).
Proof.
  induction xs as [|x xs IH]; intros gs Hok; simpl; [done|].
  apply IH. unfold post_step. destruct (content_key x); [|done].
  by apply group_append_ok.
Qed.

Lemma content_hashes_ok (l : list profile_data) : groups_ok (build_content_hashes l).
Proof.
  rewrite build_content_hashes_posts. apply fold_post_step_ok.
  split; [apply NoDup_nil_2 | constructor].
Qed.

Lemma content_hashes_lookup (k : string) (l : list profile_data) :
  group_lookup k (build_content_hashes l) = posted_under k l.
Proof. rewrite build_content_hashes_posts, fold_post_step_lookup. done. Qed.

Lemma distinct_count_le (platforms : list string) :
  distinct_count platforms <= length platforms.
Proof.
  unfold distinct_count, size, set_size. simpl.
  apply submseteq_length, NoDup_submseteq; [apply NoDup_elements|].
  intros x. rewrite elem_of_elements, elem_of_list_to_set. done.
Qed.

Lemma cross_post_of_elem (kv : string * list fingerprint) (e : cross_post_entry) :
  e ∈ cross_post_of kv
  <-> 2 <= length kv.2 /\ 2 <= distinct_count (map f_platform kv.2)
      /\ e = {| o_content_hash := kv.1;
                o_platforms := map f_platform kv.2;
                o_posts := kv.2;
                cross_platform_count := distinct_count (map f_platform kv.2) |}.
Proof.
  unfold cross_post_of.
  destruct (1 <? length kv.2)%nat eqn:Hlen.
  - apply Nat.ltb_lt in Hlen.
    destruct (1 <? distinct_count (map f_platform kv.2))%nat eqn:Hd.
    + apply Nat.ltb_lt in Hd. rewrite list_elem_of_singleton.
      split; [by intros -> | by intros (_ & _ & ->)].
    + apply Nat.ltb_ge in Hd. split; [by intros ?%elem_of_nil | lia].
  - apply Nat.ltb_ge in Hlen. split; [by intros ?%elem_of_nil | lia].
Qed.

Lemma cross_posts_elem (gs : list (string * list fingerprint)) (e : cross_post_entry) :
  e ∈ flat_map cross_post_of gs <-> exists kv, kv ∈ gs /\ e ∈ cross_post_of kv.
Proof.
  rewrite list_elem_of_In, in_flat_map. split; intros [kv [H1 H2]]; exists kv.
  - by rewrite !list_elem_of_In.
  - by rewrite <- !list_elem_of_In.
Qed.

Lemma cross_posts_sublist (gs : list (string * list fingerprint)) :
  sublist (map o_content_hash (flat_map cross_post_of gs)) (map fst gs).
Proof.
  induction gs as [|kv gs IH]; simpl; [constructor|].
  rewrite map_app. unfold cross_post_of at 1.
  destruct (1 <? length kv.2)%nat; [|by apply sublist_cons].
  destruct (1 <? distinct_count (map f_platform kv.2))%nat; [|by apply sublist_cons].
  simpl. by apply sublist_skip.
Qed.

Lemma cross_posts_length (gs : list (string * list fingerprint)) :
  length (flat_map cross_post_of gs) <= length gs.
Proof.
  pose proof (sublist_length _ _ (cross_posts_sublist gs)) as H.
  by rewrite !length_map in H.
Qed.

(** X23: in the result of the content-overlap analysis,
    [total_cross_posts] is the number of entries, [cross_posting_ratio]
    lies in [0, 1], no two entries have the same hash, and every entry
    holds all the posts of the batch filed under its hash, in the order
    of the batch, names their platforms in that order, and counts at
    least two different platforms. *)
Theorem cross_posts_span_platforms (l : list profile_data) :
  total_cross_posts (analyze_content_overlap l)
  = length (cross_posted_content (analyze_content_overlap l))
  /\ (0 <= cross_posting_ratio (analyze_content_overlap l) <= 1)%Q
  /\ NoDup (map o_content_hash (cross_posted_content (analyze_content_overlap l)))
  /\ forall e, e ∈ cross_posted_content (analyze_content_overlap l) ->
       o_posts e = posted_under (o_content_hash e) l
       /\ o_platforms e = map f_platform (o_posts e)
       /\ cross_platform_count e = distinct_count (o_platforms e)
       /\ 2 <= cross_platform_count e <= length (o_posts e).
Proof.
  unfold analyze_content_overlap.
  cbn [total_cross_posts cross_posted_content cross_posting_ratio].
  split; [done|]. split; [|split].
  - pose proof (cross_posts_length (build_content_hashes l)) as Hlen.
    assert (Hpos : (0 < inject_Z (Z.of_nat (Nat.max 1 (length (build_content_hashes l)))))%Q).
    { rewrite <- (Zlt_Qlt 0). lia. }
    split.
    + apply Qle_shift_div_l; [done|]. rewrite Qmult_0_l, <- (Zle_Qle 0). lia.
    + apply Qle_shift_div_r; [done|]. rewrite Qmult_1_l, <- Zle_Qle. lia.
  - eapply sublist_NoDup; [|apply cross_posts_sublist].
    apply (content_hashes_ok l).
  - intros e [[k vs] [Hkv He]]%cross_posts_elem.
    apply cross_post_of_elem in He as (Hlen & Hd & ->). simpl in *.
    destruct (group_lookup_elem k vs _ (content_hashes_ok l) Hkv) as [Hvs _].
    rewrite content_hashes_lookup in Hvs.
    split; [done|]. split; [done|]. split; [done|]. split; [done|].
    etrans; [apply distinct_count_le|]. by rewrite length_map.
Qed.

Lemma posted_under_platform (k : string) (l : list profile_data) (f : fingerprint) :
  f ∈ posted_under k l ->
  exists pd p, pd ∈ l /\ p ∈ default [] (posts pd)
               /\ f = fingerprint_of (default "" (platform pd), p)
               /\ content_key (default "" (platform pd), p) = Some k.
Proof.
  unfold posted_under. intros (x & -> & Hx)%list_elem_of_fmap.
  apply list_elem_of_filter in Hx as [Hk Hx].
  unfold batch_posts in Hx. apply list_elem_of_In, in_flat_map in Hx as (pd & Hpd & Hx).
  apply list_elem_of_In, list_elem_of_fmap in Hx as (p & -> & Hp).
  exists pd, p. by rewrite list_elem_of_In.
Qed.

(** X24: when all the records of the batch name the same platform, the
    content-overlap analysis reports no cross-posted content and the
    ratio 0. *)
Theorem one_platform_has_no_cross_posts (l : list profile_data) (site : string) :
  Forall (fun pd => default "" (platform pd) = site) l ->
  cross_posted_content (analyze_content_overlap l) = []
  /\ total_cross_posts (analyze_content_overlap l) = 0
  /\ (cross_posting_ratio (analyze_content_overlap l) == 0)%Q.
Proof.
  intros Hall.
  assert (Hnil : flat_map cross_post_of (build_content_hashes l) = []).
  { destruct (flat_map cross_post_of (build_content_hashes l)) as [|e es] eqn:He; [done|].
    exfalso.
    assert (Hin : e ∈ flat_map cross_post_of (build_content_hashes l))
      by (rewrite He; apply list_elem_of_here).
    apply cross_posts_elem in Hin as [[k vs] [Hkv Hin]].
    apply cross_post_of_elem in Hin as (_ & Hd & _). simpl in Hd.
    destruct (group_lookup_elem k vs _ (content_hashes_ok l) Hkv) as [Hvs _].
    rewrite content_hashes_lookup in Hvs.
    assert (Hsub : (list_to_set (map f_platform vs) : gset string) ⊆ {[ site ]}).
    { intros x Hx. apply elem_of_list_to_set, list_elem_of_fmap in Hx as (f & -> & Hf).
      rewrite Hvs in Hf. apply posted_under_platform in Hf as (pd & p & Hpd & _ & -> & _).
      rewrite Forall_forall in Hall. apply elem_of_singleton. simpl. by apply Hall. }
    apply subseteq_size in Hsub. rewrite size_singleton in Hsub.
    unfold distinct_count in Hd. lia. }
  unfold analyze_content_overlap.
  cbn [total_cross_posts cross_posted_content cross_posting_ratio].
  rewrite Hnil. split; [done|]. split; [done|]. simpl. unfold Qdiv. apply Qmult_0_l.
Qed.

(** X25: recall.  When two posts of records of two different platforms
    have texts of more than 20 characters with the same content hash, the
    analysis reports an entry with that hash whose posts include both. *)
Theorem shared_content_is_reported
    (l : list profile_data) (pd1 pd2 : profile_data) (p1 p2 : post) :
  pd1 ∈ l -> p1 ∈ default [] (posts pd1) ->
  pd2 ∈ l -> p2 ∈ default [] (posts pd2) ->
  default "" (platform pd1) <> default "" (platform pd2) ->
  20 < String.length (post_text p1) ->
  20 < String.length (post_text p2) ->
  _create_content_hash (post_text p1) = _create_content_hash (post_text p2) ->
  exists e,
    e ∈ cross_posted_content (analyze_content_overlap l)
    /\ o_content_hash e = _create_content_hash (post_text p1)
    /\ fingerprint_of (default "" (platform pd1), p1) ∈ o_posts e
    /\ fingerprint_of (default "" (platform pd2), p2) ∈ o_posts e.
Proof.
  intros Hpd1 Hp1 Hpd2 Hp2 Hne Hl1 Hl2 Hhash.
  set (k := _create_content_hash (post_text p1)).
  assert (Hkey : forall pd p, 20 < String.length (post_text p) ->
            _create_content_hash (post_text p) = k ->
            content_key (default "" (platform pd), p) = Some k).
  { intros pd p Hlen Hk. unfold content_key. simpl.
    destruct (post_text p) as [|c s] eqn:Ht; [simpl in Hlen; lia|].
    cbn [truthy andb]. apply Nat.ltb_lt in Hlen. rewrite Hlen. by rewrite Hk. }
  assert (Hin : forall pd p, pd ∈ l -> p ∈ default [] (posts pd) ->
            20 < String.length (post_text p) ->
            _create_content_hash (post_text p) = k ->
            fingerprint_of (default "" (platform pd), p) ∈ posted_under k l).
  { intros pd p Hpd Hp Hlen Hk. unfold posted_under.
    apply list_elem_of_fmap. eexists. split; [done|].
    apply list_elem_of_filter. split; [by apply Hkey|].
    unfold batch_posts. apply list_elem_of_In, in_flat_map. exists pd.
    split; [by apply list_elem_of_In|].
    apply list_elem_of_In, list_elem_of_fmap. by exists p. }
  pose proof (Hin pd1 p1 Hpd1 Hp1 Hl1 eq_refl) as Hf1.
  pose proof (Hin pd2 p2 Hpd2 Hp2 Hl2 (eq_sym Hhash)) as Hf2.
  assert (Hd : 2 <= distinct_count (map f_platform (posted_under k l))).
  { unfold distinct_count.
    assert (Hsub : ({[ default "" (platform pd1) ]} ∪ {[ default "" (platform pd2) ]}
                    : gset string)
                   ⊆ list_to_set (map f_platform (posted_under k l))).
    { intros x [->%elem_of_singleton | ->%elem_of_singleton]%elem_of_union;
        apply elem_of_list_to_set, list_elem_of_fmap.
      - by exists (fingerprint_of (default "" (platform pd1), p1)).
      - by exists (fingerprint_of (default "" (platform pd2), p2)). }
    apply subseteq_size in Hsub.
    rewrite size_union, !size_singleton in Hsub; [lia|].
    intros x ->%elem_of_singleton ?%elem_of_singleton. done. }
  assert (Hlen : 2 <= length (posted_under k l)).
  { etrans; [exact Hd|]. etrans; [apply distinct_count_le|]. by rewrite length_map. }
  exists {| o_content_hash := k;
            o_platforms := map f_platform (posted_under k l);
            o_posts := posted_under k l;
            cross_platform_count := distinct_count (map f_platform (posted_under k l)) |}.
  split; [|done].
  unfold analyze_content_overlap. cbn [cross_posted_content].
  apply cross_posts_elem. exists (k, posted_under k l). split.
  - rewrite <- content_hashes_lookup. apply group_lookup_found.
    rewrite content_hashes_lookup. intros Hnil. rewrite Hnil in Hlen. simpl in Hlen. lia.
  - by apply cross_post_of_elem.
Qed.

End OverlapFacts.

(** ** The format of the hashes *)
Section HashFacts.
Import Text Hashlib Analyzer Overlap.

Lemma hex_length (bytes : list N) : String.length (hex bytes) = 2 * length bytes.
Proof. induction bytes as [|b rest IH]; simpl; [done|]. rewrite IH. lia. Qed.

Lemma md5_bytes_length (data : list N) : String.length (md5_bytes data) = 32.
Proof.
  unfold md5_bytes.
  destruct (blocks _ _) as [[[a b] c] d]. rewrite hex_length. reflexivity.
Qed.

Lemma substring_0_length (n : nat) :
  forall s, String.length (String.substring 0 n s) = Nat.min n (String.length s).
Proof.
  induction n as [|n IH]; intros [|c s]; simpl; try done. by rewrite IH.
Qed.

(** A digit of lower-case hexadecimal notation. *)
Definition is_hex_digit (c : ascii) : bool := between 48 57 c || between 97 102 c.

Lemma hex_digit_ok (n : N) : (n < 16)%N -> is_hex_digit (hex_digit n) = true.
Proof.
  intros Hn.
  assert (Hk : exists k, k < 16 /\ n = N.of_nat k) by (exists (N.to_nat n); lia).
  destruct Hk as (k & Hk & ->).
  do 16 (destruct k as [|k]; [reflexivity|]). lia.
Qed.

Definition is_byte (b : N) : Prop := (b < 256)%N.

Lemma land_255_byte (w : N) : is_byte (N.land w 255).
Proof.
  unfold is_byte. change 255%N with (N.ones 8). rewrite N.land_ones.
  apply N.mod_lt. done.
Qed.

Lemma word_bytes_are_bytes (w : N) : Forall is_byte (word_bytes w).
Proof. unfold word_bytes. repeat constructor; apply land_255_byte. Qed.

Lemma hex_of_bytes (bytes : list N) :
  Forall is_byte bytes -> str_forallb is_hex_digit (hex bytes) = true.
Proof.
  induction 1 as [|b rest Hb Hrest IH]; [done|].
  cbn [hex str_forallb]. rewrite IH, andb_true_r.
  apply andb_true_iff. split; apply hex_digit_ok.
  - rewrite N.shiftr_div_pow2. apply N.Div0.div_lt_upper_bound. exact Hb.
  - change 15%N with (N.ones 4). rewrite N.land_ones. apply N.mod_lt. done.
Qed.

Lemma md5_bytes_hex (data : list N) : str_forallb is_hex_digit (md5_bytes data) = true.
Proof.
  unfold md5_bytes. destruct (blocks _ _) as [[[a b] c] d].
  apply hex_of_bytes. repeat apply Forall_app_2; apply word_bytes_are_bytes.
Qed.

Lemma substring_0_forallb (p : ascii -> bool) (n : nat) :
  forall s, str_forallb p s = true -> str_forallb p (String.substring 0 n s) = true.
Proof.
  induction n as [|n IH]; intros [|c s]; simpl; try done.
  intros [Hc Hs]%andb_true_iff. rewrite Hc. by apply IH.
Qed.

Lemma lower_lower (s : string) : lower (lower s) = lower s.
Proof. apply lower_fixed, lower_is_lowered. Qed.

(** X26: the content hash of a post is a text of 12 lower-case
    hexadecimal digits and the bio hash one of 8, and neither depends on
    the case of the letters: a text and its lower-case form have the same
    hash. *)
Theorem hashes_are_hex_prefixes (text : string) :
  String.length (_create_content_hash text) = 12
  /\ str_forallb is_hex_digit (_create_content_hash text) = true
  /\ _create_content_hash (lower text) = _create_content_hash text
  /\ String.length (_get_bio_hash text) = 8
  /\ str_forallb is_hex_digit (_get_bio_hash text) = true.
Proof.
  unfold _create_content_hash, _get_bio_hash, md5_hexdigest.
  rewrite !substring_0_length, !md5_bytes_length, lower_lower.
  repeat split; try done; apply substring_0_forallb, md5_bytes_hex.
Qed.

End HashFacts.

(** ** Examples of cross-posted content *)
Section OverlapExamples.
Import Text Hashlib Analyzer Signals Style Overlap.

Definition captioned (text : string) : post :=
  {| caption := Some text; content := None; date := NoDate |}.

Definition poster (site text : string) : profile_data :=
  {| platform := Some site; profile_of := None; posts := Some [captioned text] |}.

Lemma one_platform_has_no_cross_posts_witness :
  cross_posted_content
    (analyze_content_overlap
       [poster "twitter" "Check out my new blog post today!";
        poster "twitter" "check out my NEW blog post today #blog"]) = []
  /\ total_cross_posts
       (analyze_content_overlap
          [poster "twitter" "Check out my new blog post today!";
           poster "twitter" "check out my NEW blog post today #blog"]) = 0
  /\ (cross_posting_ratio
        (analyze_content_overlap
           [poster "twitter" "Check out my new blog post today!";
            poster "twitter" "check out my NEW blog post today #blog"]) == 0)%Q.
Proof.
  apply (one_platform_has_no_cross_posts
           [poster "twitter" "Check out my new blog post today!";
            poster "twitter" "check out my NEW blog post today #blog"] "twitter").
  repeat constructor.
Defined.

Lemma shared_content_is_reported_witness :
  exists e,
    e ∈ cross_posted_content
          (analyze_content_overlap
             [poster "instagram" "Check out my new blog post today!";
              poster "twitter" "check out my NEW blog post today #blog"])
    /\ o_content_hash e
       = _create_content_hash (post_text (captioned "Check out my new blog post today!"))
    /\ fingerprint_of
         (default "" (platform (poster "instagram" "Check out my new blog post today!")),
          captioned "Check out my new blog post today!") ∈ o_posts e
    /\ fingerprint_of
         (default "" (platform (poster "twitter" "check out my NEW blog post today #blog")),
          captioned "check out my NEW blog post today #blog") ∈ o_posts e.
Proof.
  apply (shared_content_is_reported
           [poster "instagram" "Check out my new blog post today!";
            poster "twitter" "check out my NEW blog post today #blog"]
           (poster "instagram" "Check out my new blog post today!")
           (poster "twitter" "check out my NEW blog post today #blog")
           (captioned "Check out my new blog post today!")
           (captioned "check out my NEW blog post today #blog")).
  - apply list_elem_of_here.
  - apply list_elem_of_here.
  - apply list_elem_of_further, list_elem_of_here.
  - apply list_elem_of_here.
  - simpl. discriminate.
  - simpl. lia.
  - simpl. lia.
  - vm_compute. reflexivity.
Defined.

End OverlapExamples.

(** ** Similar profiles *)
Section SimilarFacts.
Import Text Signals Correlator Similar.

Lemma similar_of_elem (base_username platform variation : string) (e : similar_profile) :
  e ∈ similar_of base_username platform variation ->
  sim_username e = variation
  /\ sim_platform e = platform
  /\ sim_similarity_score e = _calculate_username_similarity base_username variation
  /\ sim_variation_type e = _get_variation_type base_username variation
  /\ Qltb (7 # 10) (sim_similarity_score e) = true.
Proof.
  unfold similar_of.
  destruct (Qltb (7 # 10) (_calculate_username_similarity base_username variation)) eqn:Hlt.
  - intros ->%list_elem_of_singleton. done.
  - by intros ?%elem_of_nil.
Qed.

Lemma similar_usernames_sublist (base_username platform : string) (variations : list string) :
  sublist (map sim_username (flat_map (similar_of base_username platform) variations))
    variations.
Proof.
  induction variations as [|v vs IH]; simpl; [constructor|].
  rewrite map_app. unfold similar_of at 1.
  destruct (Qltb (7 # 10) (_calculate_username_similarity base_username v)).
  - simpl. by apply sublist_skip.
  - simpl. by apply sublist_cons.
Qed.

(** X27: every profile that [find_similar_profiles] returns carries one
    of the generated variations of the base username, the platform that
    was asked for, and as its score the username similarity of the base
    username and the variation, which lies above 0.7 and at most at 1; no
    variation is returned twice and there are at most 423 profiles. *)
Theorem similar_profiles_are_close_variations
    (base_profile : gmap string string) (platform : string) :
  NoDup (map sim_username (find_similar_profiles base_profile platform))
  /\ length (find_similar_profiles base_profile platform) <= 423
  /\ forall e, e ∈ find_similar_profiles base_profile platform ->
       sim_username e ∈ _generate_username_variations (default "" (base_profile !! "username"))
       /\ sim_platform e = platform
       /\ sim_similarity_score e
          = _calculate_username_similarity (default "" (base_profile !! "username"))
              (sim_username e)
       /\ sim_variation_type e
          = _get_variation_type (default "" (base_profile !! "username")) (sim_username e)
       /\ (7 # 10 < sim_similarity_score e)%Q /\ (sim_similarity_score e <= 1)%Q.
Proof.
  unfold find_similar_profiles.
  set (base := default "" (base_profile !! "username")).
  pose proof (similar_usernames_sublist base platform (_generate_username_variations base))
    as Hsub.
  split; [|split].
  - eapply sublist_NoDup; [|exact Hsub]. apply list_of_set_NoDup.
  - apply sublist_length in Hsub. rewrite length_map in Hsub.
    etrans; [exact Hsub|]. unfold _generate_username_variations.
    rewrite <- (raw_variations_length base). apply list_of_set_length.
  - intros e He. apply list_elem_of_In, in_flat_map in He as (v & Hv & He).
    apply list_elem_of_In in Hv, He.
    apply similar_of_elem in He as (Hu & Hp & Hs & Ht & Hlt).
    rewrite Hu. repeat split; try done.
    + by apply Qltb_lt.
    + rewrite Hs. apply ratio_range.
Qed.

End SimilarFacts.

(** ** The behavioural analysis of a batch *)
Section BehaviourAnalysisFacts.
Import Text Analyzer Signals Behaviour.
Variable extract : list post -> gmap string Q.

(** The entry the inner loop appends for a pair of behavioural
    profiles. *)
Definition behavior_entry_of (p1 p2 : behavioral_profile) : behavior_entry :=
  {| be_profile1 := bp_platform p1;
     be_profile2 := bp_platform p2;
     be_correlation_score :=
       _calculate_behavioral_correlation (bp_behavior_features p1) (bp_behavior_features p2);
     be_matching_behaviors :=
       _get_matching_behaviors (bp_behavior_features p1) (bp_behavior_features p2) |}.

Definition correlated (p1 p2 : behavioral_profile) : Prop :=
  Qltb (6 # 10)
    (_calculate_behavioral_correlation (bp_behavior_features p1) (bp_behavior_features p2))
  = true.

#[local] Instance correlated_dec (p1 p2 : behavioral_profile) : Decision (correlated p1 p2).
Proof. unfold correlated. apply _. Defined.

Lemma behavior_row_spec (p1 : behavioral_profile) (later : list behavioral_profile) :
  forall acc,
    behavior_row p1 later acc
    = acc ++ map (behavior_entry_of p1) (filter (correlated p1) later).
Proof.
  induction later as [|p2 rest IH]; intros acc; cbn [behavior_row]; [by rewrite app_nil_r|].
  rewrite filter_cons. destruct (decide (correlated p1 p2)) as [Hc|Hc].
  - unfold correlated in Hc. rewrite Hc, IH, <- app_assoc. done.
  - unfold correlated in Hc. apply not_true_is_false in Hc. rewrite Hc. apply IH.
Qed.

Lemma behavior_rows_spec (profiles : list behavioral_profile) :
  forall acc,
    exists new,
      behavior_rows profiles acc = acc ++ new
      /\ 2 * length new <= length profiles * (length profiles - 1)
      /\ Forall (fun e => exists l1 p1 l2 p2 l3,
                   profiles = l1 ++ p1 :: l2 ++ p2 :: l3
                   /\ correlated p1 p2 /\ e = behavior_entry_of p1 p2) new.
Proof.
  induction profiles as [|p1 later IH]; intros acc; cbn [behavior_rows].
  - exists []. rewrite app_nil_r. split; [done|]. split; [simpl; lia | constructor].
  - rewrite behavior_row_spec.
    destruct (IH (acc ++ map (behavior_entry_of p1) (filter (correlated p1) later)))
      as (new & -> & Hlen & Hnew).
    exists (map (behavior_entry_of p1) (filter (correlated p1) later) ++ new).
    split; [by rewrite app_assoc|]. split.
    + rewrite length_app, length_map. cbn [length].
      pose proof (length_filter (correlated p1) later). nia.
    + apply Forall_app. split.
      * apply Forall_forall. intros e (p2 & -> & Hp2)%list_elem_of_fmap.
        apply list_elem_of_filter in Hp2 as [Hc Hin].
        apply list_elem_of_split in Hin as (l2 & l3 & ->).
        by exists [], p1, l2, p2, l3.
      * eapply Forall_impl; [exact Hnew|].
        intros e (l1 & q1 & l2 & q2 & l3 & -> & Hc & ->).
        by exists (p1 :: l1), q1, l2, q2, l3.
Qed.

Lemma map_split {A B : Type} (f : A -> B) (l : list A) :
  forall (k1 : list B) (y : B) (k2 : list B),
    map f l = k1 ++ y :: k2 ->
    exists l1 x l2, l = l1 ++ x :: l2 /\ f x = y /\ map f l1 = k1 /\ map f l2 = k2.
Proof.
  induction l as [|x l IH]; intros k1 y k2 H; [by destruct k1|].
  destruct k1 as [|z k1]; simpl in H.
  - injection H as <- <-. by exists [], x, l.
  - injection H as <- H. destruct (IH _ _ _ H) as (l1 & x' & l2 & -> & Hx' & H1 & H2).
    exists (x :: l1), x', l2. simpl. by rewrite H1.
Qed.

(** X28: whatever the extractor of the features is, in the result of the
    behavioural analysis [total_correlations] is the number of entries,
    there are at most [n * (n - 1) / 2] entries for [n] records, and
    every entry joins two records of the batch, the first listed before
    the second: it names their platforms, its score is the behavioural
    correlation of their features and lies above 0.6 and at most at 1,
    and its matching behaviours are those of the two feature dicts. *)
Theorem behavioral_matches_are_correlated_pairs (l : list profile_data) :
  total_correlations (analyze_behavioral_correlation extract l)
  = length (behavioral_correlations (analyze_behavioral_correlation extract l))
  /\ 2 * length (behavioral_correlations (analyze_behavioral_correlation extract l))
     <= length l * (length l - 1)
  /\ forall e, e ∈ behavioral_correlations (analyze_behavioral_correlation extract l) ->
       (6 # 10 < be_correlation_score e)%Q /\ (be_correlation_score e <= 1)%Q
       /\ exists l1 pd1 l2 pd2 l3,
            l = l1 ++ pd1 :: l2 ++ pd2 :: l3
            /\ be_profile1 e = default "" (platform pd1)
            /\ be_profile2 e = default "" (platform pd2)
            /\ be_correlation_score e
               = _calculate_behavioral_correlation
                   (extract (default [] (posts pd1))) (extract (default [] (posts pd2)))
            /\ be_matching_behaviors e
               = _get_matching_behaviors
                   (extract (default [] (posts pd1))) (extract (default [] (posts pd2))).
Proof.
  unfold analyze_behavioral_correlation.
  cbn [total_correlations behavioral_correlations]. split; [done|].
  destruct (behavior_rows_spec (map (behavior_step extract) l) [])
    as (new & -> & Hlen & Hnew).
  cbn [app]. rewrite length_map in Hlen. split; [done|].
  intros e He. rewrite Forall_forall in Hnew.
  destruct (Hnew e He) as (k1 & p1 & k2 & p2 & k3 & Hsplit & Hc & ->).
  apply map_split in Hsplit as (l1 & pd1 & rest & -> & <- & _ & Hrest).
  apply map_split in Hrest as (l2 & pd2 & l3 & -> & <- & _ & _).
  cbn [behavior_entry_of be_correlation_score be_profile1 be_profile2
       be_matching_behaviors behavior_step bp_platform bp_behavior_features].
  split; [|split].
  - apply Qltb_lt. exact Hc.
  - apply behavioral_correlation_le_1.
  - by exists l1, pd1, l2, pd2, l3.
Qed.

End BehaviourAnalysisFacts.

(** ** The cut of the discovery generator and the e-mail patterns *)
Section DiscoveryFacts.
Import Text Analyzer Correlator Discovery Emails.

Lemma ascii_compare_refl (x : ascii) : Ascii.compare x x = Eq.
Proof. unfold Ascii.compare. apply N.compare_refl. Qed.

Lemma ascii_compare_lt_trans (x y z : ascii) :
  Ascii.compare x y = Lt -> Ascii.compare y z = Lt -> Ascii.compare x z = Lt.
Proof.
  unfold Ascii.compare. rewrite !N.compare_lt_iff. apply N.lt_trans.
Qed.

#[local] Instance str_le_trans : Transitive str_le.
Proof.
  unfold str_le, String.leb. intros a.
  induction a as [|x a IH]; intros [|y b] [|z c]; simpl; try done.
  destruct (Ascii.compare x y) eqn:Hxy; [| |done].
  - apply Ascii.compare_eq_iff in Hxy as ->.
    destruct (Ascii.compare y z) eqn:Hyz; [|done|done]. apply IH.
  - destruct (Ascii.compare y z) eqn:Hyz; [| |done].
    + apply Ascii.compare_eq_iff in Hyz as <-. by rewrite Hxy.
    + by rewrite (ascii_compare_lt_trans x y z).
Qed.

#[local] Instance str_le_total : Total str_le.
Proof. intros a b. apply String.leb_total. Qed.

Lemma sorted_strongly (l : list string) : StronglySorted str_le (sorted l).
Proof. unfold sorted. apply StronglySorted_merge_sort; apply _. Qed.

Lemma sorted_elem (l : list string) (x : string) : x ∈ sorted l <-> x ∈ l.
Proof. unfold sorted. by rewrite merge_sort_Permutation. Qed.

(** X29: [generate_username_variations] returns its candidates in
    ascending code-point order; every entry is one of the values added to
    the set, and the cut at 100 keeps the smallest: every entry is at
    most every candidate that was left out.  The list has 100 entries
    when there are at least 100 distinct candidates and all of them
    otherwise. *)
Theorem discovery_variations_keep_the_smallest
    (upper capitalize : string -> string) (current_year : nat)
    (seed : string) (first_name last_name : option string) :
  StronglySorted str_le
    (generate_username_variations upper capitalize current_year seed first_name last_name)
  /\ (forall x,
        x ∈ generate_username_variations upper capitalize current_year seed
              first_name last_name ->
        x ∈ added_variations upper capitalize current_year seed first_name last_name)
  /\ (forall x y,
        x ∈ generate_username_variations upper capitalize current_year seed
              first_name last_name ->
        y ∈ added_variations upper capitalize current_year seed first_name last_name ->
        y ∉ generate_username_variations upper capitalize current_year seed
              first_name last_name ->
        str_le x y)
  /\ length (generate_username_variations upper capitalize current_year seed
               first_name last_name)
     = Nat.min 100
         (size (list_to_set
                  (added_variations upper capitalize current_year seed first_name last_name)
                : gset string)).
Proof.
  unfold generate_username_variations.
  set (cands := added_variations upper capitalize current_year seed first_name last_name).
  set (all := sorted (elements (list_to_set cands : gset string))).
  assert (Hall : forall x, x ∈ all <-> x ∈ cands).
  { intros x. unfold all. by rewrite sorted_elem, elem_of_elements, elem_of_list_to_set. }
  pose proof (sorted_strongly (elements (list_to_set cands : gset string))) as Hsorted.
  fold all in Hsorted. rewrite <- (take_drop 100 all) in Hsorted.
  apply StronglySorted_app in Hsorted as (Hcross & Htake & _).
  split; [done|]. split; [|split].
  - intros x Hx. apply Hall. eapply elem_of_sublist; [exact Hx | apply sublist_take].
  - intros x y Hx Hy Hny. apply Hcross; [done|].
    apply Hall in Hy. rewrite <- (take_drop 100 all) in Hy.
    apply elem_of_app in Hy as [Hy|Hy]; done.
  - rewrite length_take. f_equal. unfold all, sorted.
    by rewrite merge_sort_Permutation.
Qed.

Lemma emails_for_length (upper : string -> string) (username domain : string) :
  length (emails_for upper username domain) <= 33.
Proof.
  unfold emails_for. rewrite !length_app.
  rewrite (length_flat_map_const _ 3) by done.
  destruct (3 <? String.length username)%nat; simpl; lia.
Qed.

Lemma str_app_assoc (a b c : string) : (a +:+ b) +:+ c = a +:+ b +:+ c.
Proof.
  induction a as [|x a IH]; [done|].
  change (String x ((a +:+ b) +:+ c) = String x (a +:+ b +:+ c)). by f_equal.
Qed.

Lemma local_part_2 (a b rest : string) :
  exists local_part, a +:+ b +:+ rest = local_part +:+ rest.
Proof. exists (a +:+ b). by rewrite str_app_assoc. Qed.

Lemma local_part_3 (a b c rest : string) :
  exists local_part, a +:+ b +:+ c +:+ rest = local_part +:+ rest.
Proof. exists (a +:+ b +:+ c). by rewrite !str_app_assoc. Qed.

Lemma emails_for_shape (upper : string -> string) (username domain email : string) :
  email ∈ emails_for upper username domain ->
  exists local_part, email = local_part +:+ "@" +:+ domain.
Proof.
  unfold emails_for. rewrite !elem_of_app. intros [H|[H|H]].
  - repeat (apply elem_of_cons in H as [-> | H]; [by eexists|]).
    by apply elem_of_nil in H.
  - destruct (3 <? String.length username)%nat; [|by apply elem_of_nil in H].
    repeat (apply elem_of_cons in H as [-> | H]; [apply local_part_3|]).
    by apply elem_of_nil in H.
  - apply list_elem_of_In, in_flat_map in H as (i & _ & H). apply list_elem_of_In in H.
    apply elem_of_cons in H as [-> | H]; [apply local_part_2|].
    repeat (apply elem_of_cons in H as [-> | H]; [apply local_part_3|]).
    by apply elem_of_nil in H.
Qed.

Lemma flat_map_length_le {A B : Type} (f : A -> list B) (n : nat) (l : list A) :
  (forall x, length (f x) <= n) -> length (flat_map f l) <= n * length l.
Proof.
  intros Hf. induction l as [|x l IH]; simpl; [lia|].
  rewrite length_app. specialize (Hf x). lia.
Qed.

(** X30: [find_email_patterns] returns a list without duplicates of at
    most 33 addresses for each domain it checks, which is the given
    domain alone or, when none or the empty one is given, the seven
    common domains (at most 231 addresses); every address is a local part
    followed by [@] and one of these domains, and the plain
    [username@domain] is among them for every domain checked. *)
Theorem email_patterns_are_distinct_and_bounded
    (upper : string -> string) (username : string) (domain : option string) :
  NoDup (find_email_patterns upper username domain)
  /\ length (find_email_patterns upper username domain)
     <= 33 * length (domains_to_check domain)
  /\ length (domains_to_check domain) <= 7
  /\ (forall email, email ∈ find_email_patterns upper username domain ->
        exists local_part d,
          d ∈ domains_to_check domain /\ email = local_part +:+ "@" +:+ d)
  /\ (forall d, d ∈ domains_to_check domain ->
        username +:+ "@" +:+ d ∈ find_email_patterns upper username domain).
Proof.
  unfold find_email_patterns. split; [apply list_of_set_NoDup|]. split; [|split; [|split]].
  - etrans; [apply list_of_set_length|].
    apply flat_map_length_le. intros d. apply emails_for_length.
  - unfold domains_to_check. destruct domain as [d|]; [|simpl; lia].
    destruct (truthy d); simpl; lia.
  - intros email Hin. rewrite list_of_set_elem in Hin.
    apply list_elem_of_In, in_flat_map in Hin as (d & Hd & Hin).
    apply list_elem_of_In in Hd, Hin.
    apply emails_for_shape in Hin as [local_part ->]. by exists local_part, d.
  - intros d Hd. apply list_of_set_elem.
    apply list_elem_of_In, in_flat_map. exists d. split; [by apply list_elem_of_In|].
    apply list_elem_of_In. unfold emails_for. apply elem_of_app. left.
    apply list_elem_of_here.
Qed.

End DiscoveryFacts.
